(** * UFC fantasy league server: league membership, pick ledger and
      derived views, embedded from [server.js].

    Every route handler of [server.js] that the development talks about is
    a function from the request and the database to a response and the next
    database.  SQL statements are evaluated over tables held as lists of
    rows; JavaScript values that the handlers test for truthiness or turn
    into strings keep their JavaScript behaviour. *)

From Stdlib Require Import Ascii.
From stdpp Require Import base strings list gmap sorting pretty.

(** ** JavaScript values as the handlers use them *)

Module Js.

(** The values a JSON body field, a route parameter or a column of a result
    row can hold here: missing, [null], a string, or an integer number. *)
Inductive value :=
| Undefined
| Null
| Str (s : string)
| Num (n : Z).

Global Instance value_eq_dec : EqDecision value.
Proof. solve_decision. Defined.

(** [if (v)], [!v], [v || d] *)
Definition truthy (v : value) : bool :=
  match v with
  | Undefined | Null => false
  | Str s => bool_decide (s ≠ "")
  | Num n => bool_decide (n ≠ 0%Z)
  end.

(** [String(v)] and the conversion of [${v}] in a template literal *)
Definition to_string (v : value) : string :=
  match v with
  | Undefined => "undefined"
  | Null => "null"
  | Str s => s
  | Num n => pretty n
  end.

(** [v || d] *)
Definition or_else (v d : value) : value := if truthy v then v else d.

Fixpoint trim_start (s : string) : string :=
  match s with
  | String a s' => if Ascii.is_space a then trim_start s' else s
  | EmptyString => EmptyString
  end.

(** [s.trim()], on the white space of the ASCII range *)
Definition trim (s : string) : string :=
  String.rev (trim_start (String.rev (trim_start s))).

(** A nullable text column read from a result row: [None] is SQL NULL,
    which the driver hands over as [null]. *)
Definition of_col (c : option string) : value :=
  match c with Some s => Str s | None => Null end.

End Js.

(** ** A plain object used as a lookup table *)

Module JsObject.

(** The handlers build a table with [const map = {}], fill it with
    [map[k] = { ... }] and read it with [map[k]].  Such an object is not
    empty for a reader: it inherits the properties of [Object.prototype],
    and the key [__proto__] reads and replaces its prototype. *)

(** The functions of [Object.prototype], by the key that finds them, with
    the [name] that each function carries. *)
Definition methods : list (string * string) :=
  [ ("constructor", "Object");
    ("toString", "toString");
    ("toLocaleString", "toLocaleString");
    ("valueOf", "valueOf");
    ("hasOwnProperty", "hasOwnProperty");
    ("isPrototypeOf", "isPrototypeOf");
    ("propertyIsEnumerable", "propertyIsEnumerable");
    ("__defineGetter__", "__defineGetter__");
    ("__defineSetter__", "__defineSetter__");
    ("__lookupGetter__", "__lookupGetter__");
    ("__lookupSetter__", "__lookupSetter__") ].

Fixpoint assoc (k : string) (kvs : list (string * string)) : option string :=
  match kvs with
  | [] => None
  | (k', v) :: rest => if decide (k' = k) then Some v else assoc k rest
  end.

Definition method (k : string) : option string := assoc k methods.

(** The table: its own properties, and the object literal that an
    assignment to [__proto__] has put in the place of its prototype, if
    any.  The literals themselves inherit from [Object.prototype]. *)
Record t (V : Type) := {
  own : gmap string V;
  proto : option V
}.
Global Arguments own {V} _.
Global Arguments proto {V} _.

(** [{}] *)
Definition empty {V : Type} : t V := {| own := ∅; proto := None |}.

(** [map[k] = v] for an object literal [v]. *)
Definition assign {V : Type} (k : string) (v : V) (o : t V) : t V :=
  if decide (k = "__proto__") then {| own := own o; proto := Some v |}
  else {| own := <[k := v]> (own o); proto := proto o |}.

(** What [map[k]] can be:
    - a literal that the handler stored;
    - a property of the literal that took the place of the prototype: a
      string, a number or a date, which has none of the properties that the
      handlers read, so that only its truthiness is kept;
    - a function of [Object.prototype], with its [name];
    - [Object.prototype] itself;
    - [undefined]. *)
Inductive found (V : Type) :=
| Stored (v : V)
| Scalar (truthy : bool)
| Method (name : string)
| ObjectPrototype
| Missing.
Global Arguments Stored {V} v.
Global Arguments Scalar {V} truthy.
Global Arguments Method {V} name.
Global Arguments ObjectPrototype {V}.
Global Arguments Missing {V}.

(** [map[k]]; [fields v k'] tells whether the literal [v] has a property
    [k'], and whether its value is truthy. *)
Definition read {V : Type} (fields : V → string → option bool) (o : t V)
    (k : string) : found V :=
  if decide (k = "__proto__") then
    match proto o with
    | Some v => Stored v
    | None => ObjectPrototype
    end
  else
    match own o !! k with
    | Some v => Stored v
    | None =>
        match proto o ≫= (λ v, fields v k) with
        | Some b => Scalar b
        | None =>
            match method k with
            | Some n => Method n
            | None => Missing
            end
        end
    end.

(** [if (x)] for what was read. *)
Definition truthy {V : Type} (x : found V) : bool :=
  match x with
  | Stored _ | Method _ | ObjectPrototype => true
  | Scalar b => b
  | Missing => false
  end.

(** [x || d] *)
Definition or_else {V : Type} (x d : found V) : found V :=
  if truthy x then x else d.

(** [x.name], where [lit] reads the property of a literal. *)
Definition name {V : Type} (lit : V → Js.value) (x : found V) : Js.value :=
  match x with
  | Stored v => lit v
  | Method n => Js.Str n
  | Scalar _ | ObjectPrototype | Missing => Js.Undefined
  end.

(** [x.p] for a property [p] that functions do not have. *)
Definition prop {V : Type} (lit : V → Js.value) (x : found V) : Js.value :=
  match x with
  | Stored v => lit v
  | Scalar _ | Method _ | ObjectPrototype | Missing => Js.Undefined
  end.

End JsObject.

(** ** Tables *)

Record user := {
  u_UserID : string;
  u_Username : string;
  u_Email : string;
  u_PasswordHash : string
}.

Record league := {
  l_LeagueID : string;
  l_Name : string;
  l_OwnerID : string;
  l_ScoringRules : option string;
  l_LeagueCode : string
}.

Record membership := {
  m_UserID : string;
  m_LeagueID : string;
  m_Role : string
}.

Record pick := {
  p_PickID : nat;
  p_UserID : string;
  p_LeagueID : string;
  p_EventID : string;
  p_FighterID : string;
  p_PointsEarned : Z
}.

Record event := {
  e_event_id : string;
  e_event_name : string;
  e_date : Z;
  e_location : string
}.

(** [wins], [losses] and [draws] are read through [SELECT *]: the handler
    itself tests [f.wins !== undefined], so the three cells are kept as
    JavaScript values. *)
Record fighter := {
  f_fighter_id : string;
  f_name : string;
  f_wins : Js.value;
  f_losses : Js.value;
  f_draws : Js.value
}.

Record fight := {
  ft_fight_id : string;
  ft_event_id : string;
  ft_red_fighter_id : string;
  ft_blue_fighter_id : string;
  ft_winner_id : option string;
  ft_method : option string;
  ft_finish_round : option Z;
  ft_division : option string
}.

Global Instance user_eq_dec : EqDecision user.
Proof. solve_decision. Defined.
Global Instance league_eq_dec : EqDecision league.
Proof. solve_decision. Defined.
Global Instance membership_eq_dec : EqDecision membership.
Proof. solve_decision. Defined.
Global Instance pick_eq_dec : EqDecision pick.
Proof. solve_decision. Defined.

(** The database: the seven tables and the AUTO_INCREMENT counters of
    [user], [league] and [pick] ([result.insertId] in the handlers). *)
Record db := {
  users : list user;
  leagues : list league;
  memberships : list membership;
  picks : list pick;
  events : list event;
  fighters : list fighter;
  fights : list fight;
  next_user_id : nat;
  next_league_id : nat;
  next_pick_id : nat
}.

Definition set_users (us : list user) (n : nat) (st : db) : db :=
  {| users := us; leagues := leagues st; memberships := memberships st;
     picks := picks st; events := events st; fighters := fighters st;
     fights := fights st; next_user_id := n;
     next_league_id := next_league_id st; next_pick_id := next_pick_id st |}.

Definition set_leagues (ls : list league) (n : nat) (st : db) : db :=
  {| users := users st; leagues := ls; memberships := memberships st;
     picks := picks st; events := events st; fighters := fighters st;
     fights := fights st; next_user_id := next_user_id st;
     next_league_id := n; next_pick_id := next_pick_id st |}.

Definition set_memberships (ms : list membership) (st : db) : db :=
  {| users := users st; leagues := leagues st; memberships := ms;
     picks := picks st; events := events st; fighters := fighters st;
     fights := fights st; next_user_id := next_user_id st;
     next_league_id := next_league_id st; next_pick_id := next_pick_id st |}.

Definition set_picks (ps : list pick) (n : nat) (st : db) : db :=
  {| users := users st; leagues := leagues st; memberships := memberships st;
     picks := ps; events := events st; fighters := fighters st;
     fights := fights st; next_user_id := next_user_id st;
     next_league_id := next_league_id st; next_pick_id := n |}.

(** An error thrown by [connection.execute]: the driver's [code] and
    [message]. *)
Record sql_error := {
  code : string;
  message : string
}.

(** The table definitions (keys, foreign keys, column types) are not part of
    the sources: what the database answers to an INSERT is a parameter of
    the handlers.  [None] means the row is stored. *)
Record schema := {
  user_insert : db → user → option sql_error;
  league_insert : db → league → option sql_error;
  membership_insert : db → membership → option sql_error;
  pick_insert : db → pick → option sql_error
}.

(** A JSON answer: [res.json] for a success, [res.status(n).json] for an
    error. *)
Inductive response (A : Type) :=
| Success (body : A)
| Failure (status : nat) (error : string).
Global Arguments Success {A} body.
Global Arguments Failure {A} status error.

(** What a handler leaves behind: the answer, the lines written to the
    console, and the database. *)
Record outcome (A : Type) := {
  resp : response A;
  console : list string;
  state : db
}.
Global Arguments resp {A} _.
Global Arguments console {A} _.
Global Arguments state {A} _.

(** ** POST /api/save-picks *)

(** One element of [picks] in the request body that is an object.  An
    element that is a number, a string or a boolean reads like an object
    without fields: its [fighterId] is [undefined].  A field that holds
    [true], a fraction, an array or an object is truthy and is used through
    [String] only, so it reads like the string that [String] gives for it;
    [false] reads like [undefined]. *)
Record selection := {
  fightId : Js.value;
  fighterId : Js.value
}.

(** The field [picks] of the parsed JSON body.
    - [PicksAbsent]: missing, or a falsy value ([null], [false], [0], the
      empty string): [!picks] holds;
    - [PicksArray entries]: an array; an element is [None] when it is
      [null], where reading [pick.fighterId] throws.  A non-empty string is
      iterated letter by letter and so reads like an array of elements
      without fields;
    - [PicksNotIterable]: a number other than 0, [true], or an object that
      is not an array: [for (const pick of picks)] throws. *)
Inductive picks_value :=
| PicksAbsent
| PicksArray (entries : list (option selection))
| PicksNotIterable.

Record save_picks_body := {
  sp_userId : Js.value;
  sp_leagueId : Js.value;
  sp_eventId : Js.value;
  sp_picks : picks_value
}.

Record save_picks_ok := {
  sp_message : string;
  sp_picksCount : nat
}.

(** [WHERE UserID = ? AND LeagueID = ? AND EventID = ?] *)
Definition in_scope (u l e : string) (p : pick) : Prop :=
  p_UserID p = u ∧ p_LeagueID p = l ∧ p_EventID p = e.

Global Instance in_scope_dec u l e p : Decision (in_scope u l e p).
Proof. unfold in_scope. apply _. Defined.

(** [DELETE FROM Pick WHERE UserID = ? AND LeagueID = ? AND EventID = ?] *)
Definition delete_picks (u l e : string) (st : db) : db :=
  set_picks (filter (λ p, ¬ in_scope u l e p) (picks st)) (next_pick_id st) st.

(** The variables of the insertion loop. *)
Record loop_state := {
  savedCount : nat;
  errorCount : nat;
  out : list string;
  cur : db
}.

Definition loop_start (lines : list string) (st : db) : loop_state :=
  {| savedCount := 0; errorCount := 0; out := lines; cur := st |}.

(** The row of [INSERT INTO Pick (UserID, LeagueID, EventID, FighterID,
    PointsEarned) VALUES (?, ?, ?, ?, 0)]; [PickID] is the next
    AUTO_INCREMENT value. *)
Definition new_pick (u l e : string) (st : db) (pk : selection) : pick :=
  {| p_PickID := next_pick_id st;
     p_UserID := u; p_LeagueID := l; p_EventID := e;
     p_FighterID := Js.trim (Js.to_string (fighterId pk));
     p_PointsEarned := 0 |}.

Definition failed_line (pk : selection) (err : sql_error) : string :=
  "⚠️ Failed to save pick for fighter " +:+ Js.to_string (fighterId pk)
    +:+ ": " +:+ message err.

Definition received_line : string := "📨 RECEIVED SAVE REQUEST".

Definition deleting_line (strUserId strEventId : string) : string :=
  "🔄 Deleting old picks for User " +:+ strUserId
    +:+ ", Event " +:+ strEventId +:+ "...".

Definition result_line (saved failed : nat) : string :=
  "✅ RESULT: " +:+ pretty saved +:+ " saved, " +:+ pretty failed +:+ " failed.".

(** [Saved ${savedCount} picks${errorCount > 0 ? ` (${errorCount} failed)` : ''}] *)
Definition saved_message (saved failed : nat) : string :=
  "Saved " +:+ pretty saved +:+ " picks" +:+
  (if bool_decide (0 < failed) then " (" +:+ pretty failed +:+ " failed)" else "").

Definition all_failed_error : string :=
  "All picks failed to save. Check server logs.".

(** [error.message] of the [TypeError] thrown by [pick.fighterId] when
    [pick] is [null], and by [for (const pick of picks)] when [picks] cannot
    be iterated, in the wording of V8. *)
Definition null_entry_error : string :=
  "Cannot read properties of null (reading 'fighterId')".

Definition not_iterable_error : string := "picks is not iterable".

(** [console.error('❌ FATAL SAVE ERROR:', error.message)] *)
Definition fatal_line (msg : string) : string :=
  "❌ FATAL SAVE ERROR: " +:+ msg.

(** [s.includes(t)] *)
Fixpoint starts_with (t s : string) : bool :=
  match t, s with
  | EmptyString, _ => true
  | String a t', String b s' => bool_decide (a = b) && starts_with t' s'
  | String _ _, EmptyString => false
  end.

Fixpoint includes (s t : string) : bool :=
  starts_with t s ||
  match s with
  | String _ s' => includes s' t
  | EmptyString => false
  end.

Section handlers.

Variable sch : schema.

(** The body of [for (const pick of picks)] for an element that is not
    [null]. *)
Definition insert_pick_step (u l e : string) (acc : loop_state)
    (pk : selection) : loop_state :=
  if Js.truthy (fighterId pk) then
    let row := new_pick u l e (cur acc) pk in
    match pick_insert sch (cur acc) row with
    | None =>
        {| savedCount := S (savedCount acc);
           errorCount := errorCount acc;
           out := out acc;
           cur := set_picks (picks (cur acc) ++ [row])
                    (S (next_pick_id (cur acc))) (cur acc) |}
    | Some err =>
        {| savedCount := savedCount acc;
           errorCount := S (errorCount acc);
           out := out acc ++ [failed_line pk err];
           cur := cur acc |}
    end
  else acc.

(** [for (const pick of picks)] on an array: the loop variables when the
    loop ends, and the message of the error that ended it early, if one was
    thrown.  [pick.fighterId] is read outside the inner [try], so a [null]
    element leaves the loop at once; a refused INSERT is caught inside and
    only counted. *)
Fixpoint insert_loop (u l e : string) (entries : list (option selection))
    (acc : loop_state) : loop_state * option string :=
  match entries with
  | [] => (acc, None)
  | None :: _ => (acc, Some null_entry_error)
  | Some pk :: rest => insert_loop u l e rest (insert_pick_step u l e acc pk)
  end.

(** The loop on elements that are all objects: nothing is thrown. *)
Definition insert_objects (u l e : string) (sels : list selection)
    (acc : loop_state) : loop_state :=
  foldl (insert_pick_step u l e) acc sels.

(** The handler.  The connection and the DELETE are taken to succeed.  What
    is thrown after the DELETE, by a [null] element or by a value that
    cannot be iterated, reaches the outer [catch], which answers 500 with
    the message of the error; the rows deleted and inserted until then
    stay as they are, each statement being committed on its own. *)
Definition save_picks (body : save_picks_body) (st : db)
    : outcome save_picks_ok :=
  let refused := {| resp := Failure 400 "Missing required data";
                    console := [received_line]; state := st |} in
  match sp_picks body with
  | PicksAbsent => refused
  | picks =>
      if Js.truthy (sp_userId body) && Js.truthy (sp_leagueId body)
         && Js.truthy (sp_eventId body)
      then
        let strUserId := Js.to_string (sp_userId body) in
        let strLeagueId := Js.to_string (sp_leagueId body) in
        let strEventId := Js.to_string (sp_eventId body) in
        let st1 := delete_picks strUserId strLeagueId strEventId st in
        let start := loop_start [received_line;
                                 deleting_line strUserId strEventId] st1 in
        let '(r, thrown) :=
          match picks with
          | PicksArray entries =>
              insert_loop strUserId strLeagueId strEventId entries start
          | _ => (start, Some not_iterable_error)
          end in
        match thrown with
        | Some msg =>
            {| resp := Failure 500 msg;
               console := out r ++ [fatal_line msg]; state := cur r |}
        | None =>
            let lines := out r ++ [result_line (savedCount r) (errorCount r)] in
            if bool_decide (savedCount r = 0) && bool_decide (0 < errorCount r)
            then {| resp := Failure 500 all_failed_error;
                    console := lines; state := cur r |}
            else {| resp := Success
                      {| sp_message := saved_message (savedCount r) (errorCount r);
                         sp_picksCount := savedCount r |};
                    console := lines; state := cur r |}
        end
      else refused
  end.

(** ** POST /api/register; the hash is what [bcrypt.hash] returned *)

Record register_ok := {
  reg_message : string;
  reg_userId : string;
  reg_username : string
}.

Definition register (username email password : Js.value)
    (passwordHash : string) (st : db) : response register_ok * db :=
  if Js.truthy username && Js.truthy email && Js.truthy password then
    let row := {| u_UserID := pretty (next_user_id st);
                  u_Username := Js.to_string username;
                  u_Email := Js.to_string email;
                  u_PasswordHash := passwordHash |} in
    match user_insert sch st row with
    | None =>
        (Success {| reg_message := "User registered successfully";
                    reg_userId := u_UserID row;
                    reg_username := Js.to_string username |},
         set_users (users st ++ [row]) (S (next_user_id st)) st)
    | Some err =>
        if decide (code err = "ER_DUP_ENTRY") then
          (Failure 400 "Username or email already exists", st)
        else if bool_decide (code err = "ER_BAD_NULL_ERROR")
                || includes (message err) "doesn't have a default value"
                || includes (message err) "cannot be null" then
          (Failure 500 "Database configuration error: UserID column may not have AUTO_INCREMENT set. Please run: ALTER TABLE user MODIFY UserID INT AUTO_INCREMENT;", st)
        else (Failure 500 (message err), st)
    end
  else (Failure 400 "Username, email, and password are required", st).

(** ** POST /api/league/create; [random_code] is what
    [Math.random().toString(36).substring(2, 12).toUpperCase()] gave *)

Record create_league_ok := {
  cl_message : string;
  cl_leagueId : string;
  cl_leagueCode : string
}.

(** The [catch] block of the handler. *)
Definition create_league_error (err : sql_error) : response create_league_ok :=
  if decide (code err = "ER_NO_REFERENCED_ROW_2") then
    Failure 400 "OwnerID does not exist"
  else if decide (code err = "ER_DUP_ENTRY") then
    Failure 400 "League code already exists"
  else Failure 500 (message err).

Definition create_league (name ownerID scoringRules leagueCode : Js.value)
    (random_code : string) (st : db) : response create_league_ok * db :=
  if Js.truthy name && Js.truthy ownerID then
    let finalLeagueCode := Js.or_else leagueCode (Js.Str random_code) in
    let insertId := pretty (next_league_id st) in
    let row := {| l_LeagueID := insertId;
                  l_Name := Js.to_string name;
                  l_OwnerID := Js.to_string ownerID;
                  l_ScoringRules :=
                    if Js.truthy scoringRules
                    then Some (Js.to_string scoringRules) else None;
                  l_LeagueCode := Js.to_string finalLeagueCode |} in
    match league_insert sch st row with
    | Some err => (create_league_error err, st)
    | None =>
        let st1 := set_leagues (leagues st ++ [row]) (S (next_league_id st)) st in
        let owner := {| m_UserID := Js.to_string ownerID;
                        m_LeagueID := insertId;
                        m_Role := "Owner" |} in
        match membership_insert sch st1 owner with
        | Some err => (create_league_error err, st1)
        | None =>
            (Success {| cl_message := "League created successfully";
                        cl_leagueId := insertId;
                        cl_leagueCode := Js.to_string finalLeagueCode |},
             set_memberships (memberships st1 ++ [owner]) st1)
        end
    end
  else (Failure 400 "League name and OwnerID are required", st).

(** ** POST /api/join-league *)

Record join_league_ok := {
  jl_message : string;
  jl_leagueId : string;
  jl_leagueName : string
}.

(** [SELECT * FROM membership WHERE UserID = ? AND LeagueID = ?] *)
Definition memberships_of (u l : string) (st : db) : list membership :=
  filter (λ m, m_UserID m = u ∧ m_LeagueID m = l) (memberships st).

Definition join_league (leagueCode userId : Js.value) (st : db)
    : response join_league_ok * db :=
  if Js.truthy leagueCode && Js.truthy userId then
    match filter (λ l, l_LeagueCode l = Js.to_string leagueCode) (leagues st) with
    | [] => (Failure 404 "Invalid league code", st)
    | league :: _ =>
        match memberships_of (Js.to_string userId) (l_LeagueID league) st with
        | _ :: _ => (Failure 400 "You are already a member of this league", st)
        | [] =>
            let row := {| m_UserID := Js.to_string userId;
                          m_LeagueID := l_LeagueID league;
                          m_Role := "Member" |} in
            match membership_insert sch st row with
            | Some err => (Failure 500 (message err), st)
            | None =>
                (Success {| jl_message :=
                              "Successfully joined league: " +:+ l_Name league;
                            jl_leagueId := l_LeagueID league;
                            jl_leagueName := l_Name league |},
                 set_memberships (memberships st ++ [row]) st)
            end
        end
    end
  else (Failure 400 "League code and user ID are required", st).

End handlers.

(** ** DELETE /api/league/:leagueId *)

Definition has_members_error : string :=
  "Cannot delete league because it has members. Please remove all members first.".

Definition has_picks_error : string :=
  "Cannot delete league because it has picks. Please remove all picks first.".

(** [SELECT COUNT( * ) as count FROM membership WHERE LeagueID = ?] *)
Definition count_members (leagueId : string) (st : db) : nat :=
  length (filter (λ m, m_LeagueID m = leagueId) (memberships st)).

(** [SELECT COUNT( * ) as count FROM pick WHERE LeagueID = ?] *)
Definition count_picks (leagueId : string) (st : db) : nat :=
  length (filter (λ p, p_LeagueID p = leagueId) (picks st)).

Definition delete_league (leagueId : string) (st : db) : response string * db :=
  if decide (leagueId = "") then (Failure 400 "League ID is required", st)
  else if bool_decide (0 < count_members leagueId st) then
    (Failure 400 has_members_error, st)
  else if bool_decide (0 < count_picks leagueId st) then
    (Failure 400 has_picks_error, st)
  else
    let affectedRows :=
      length (filter (λ l, l_LeagueID l = leagueId) (leagues st)) in
    let st' := set_leagues (filter (λ l, l_LeagueID l ≠ leagueId) (leagues st))
                 (next_league_id st) st in
    if decide (affectedRows = 0) then (Failure 404 "League not found", st')
    else (Success "League deleted successfully", st').

(** ** GET /api/leaderboard/:leagueId *)

Record leaderboard_row := {
  lb_UserID : string;
  lb_Username : string;
  lb_Email : string;
  lb_TotalPoints : Z
}.

(** [LEFT JOIN pick p ON u.UserID = p.UserID AND p.LeagueID = ?]: the picks
    that match, or one NULL row when none does. *)
Definition left_join_picks (leagueId : string) (u : user) (ps : list pick)
    : list (option pick) :=
  match filter (λ p, u_UserID u = p_UserID p ∧ p_LeagueID p = leagueId) ps with
  | [] => [None]
  | qs => Some <$> qs
  end.

(** [FROM user u INNER JOIN membership m ON u.UserID = m.UserID
     LEFT JOIN pick p ON ... WHERE m.LeagueID = ?] *)
Definition leaderboard_join (leagueId : string) (st : db)
    : list (user * membership * option pick) :=
  u ← users st;
  m ← filter (λ m, u_UserID u = m_UserID m) (memberships st);
  p ← left_join_picks leagueId u (picks st);
  if decide (m_LeagueID m = leagueId) then [(u, m, p)] else [].

(** [SUM(x)]: NULL cells are skipped, and the sum of no cell is NULL. *)
Definition sql_sum (cells : list (option Z)) : option Z :=
  match omap id cells with
  | [] => None
  | xs => Some (foldr Z.add 0%Z xs)
  end.

(** [COALESCE(x, d)] *)
Definition coalesce (x : option Z) (d : Z) : Z := default d x.

(** [GROUP BY u.UserID, u.Username, u.Email] *)
Definition group_key (r : user * membership * option pick)
    : string * string * string :=
  (u_UserID r.1.1, u_Username r.1.1, u_Email r.1.1).

(** The cell [p.PointsEarned] of a joined row. *)
Definition points_cell (r : user * membership * option pick) : option Z :=
  p_PointsEarned <$> r.2.

Definition leaderboard_groups (leagueId : string) (st : db)
    : list leaderboard_row :=
  let rows := leaderboard_join leagueId st in
  (λ k : string * string * string,
     {| lb_UserID := k.1.1; lb_Username := k.1.2; lb_Email := k.2;
        lb_TotalPoints :=
          coalesce
            (sql_sum (points_cell <$> filter (λ r, group_key r = k) rows))
            0 |})
  <$> remove_dups (group_key <$> rows).

Section leaderboard.

(** The collation of [user.Username] belongs to the table definition, which
    is not in the sources: the order it induces is a parameter. *)
Context (name_le : relation string) `{!RelDecision name_le}.

(** [ORDER BY TotalPoints DESC, u.Username ASC] *)
Definition leaderboard_order (r1 r2 : leaderboard_row) : Prop :=
  (lb_TotalPoints r2 < lb_TotalPoints r1)%Z
  ∨ (lb_TotalPoints r1 = lb_TotalPoints r2
     ∧ name_le (lb_Username r1) (lb_Username r2)).

Global Instance leaderboard_order_dec : RelDecision leaderboard_order.
Proof. intros r1 r2. unfold leaderboard_order. apply _. Defined.

Definition get_leaderboard (leagueId : string) (st : db)
    : response (list leaderboard_row) :=
  if decide (leagueId = "") then Failure 400 "League ID is required"
  else Success (merge_sort leaderboard_order (leaderboard_groups leagueId st)).

End leaderboard.

(** ** GET /api/fighter/history *)

(** One row of the second SELECT: the fight with its event and the fighter
    rows of its red and blue corner. *)
Record history_join := {
  hj_fight : fight;
  hj_event : event;
  hj_fa : fighter;
  hj_fb : fighter
}.

Record history_row := {
  h_EventName : string;
  h_EventDate : Z;
  h_Location : string;
  h_Opponent : string;
  h_Result : string;
  h_Method : option string;
  h_Round : option Z
}.

(** The JSON body: [fighters] and [message] are present on one path each. *)
Record history_ok := {
  h_data : list history_row;
  h_fighters : option (list (string * string));
  h_message : option string
}.

(** [ORDER BY e.date DESC] *)
Definition date_desc (r1 r2 : history_join) : Prop :=
  (e_date (hj_event r2) ≤ e_date (hj_event r1))%Z.

Global Instance date_desc_dec : RelDecision date_desc.
Proof. intros r1 r2. unfold date_desc. apply _. Defined.

(** [FROM fight f JOIN event e ON ... JOIN fighter fa ON ... JOIN fighter fb
     ON ... WHERE f.red_fighter_id IN (ids) OR f.blue_fighter_id IN (ids)] *)
Definition history_join_rows (fighterIds : list string) (st : db)
    : list history_join :=
  f ← fights st;
  e ← filter (λ e, ft_event_id f = e_event_id e) (events st);
  fa ← filter (λ x, ft_red_fighter_id f = f_fighter_id x) (fighters st);
  fb ← filter (λ x, ft_blue_fighter_id f = f_fighter_id x) (fighters st);
  if decide (ft_red_fighter_id f ∈ fighterIds ∨ ft_blue_fighter_id f ∈ fighterIds)
  then [{| hj_fight := f; hj_event := e; hj_fa := fa; hj_fb := fb |}]
  else [].

(** The callback of [results.map]. *)
Definition process_fight (fighterIds : list string) (row : history_join)
    : history_row :=
  let fight := hj_fight row in
  let isFighterA := bool_decide (ft_red_fighter_id fight ∈ fighterIds) in
  let opponent := if isFighterA then f_name (hj_fb row) else f_name (hj_fa row) in
  let result :=
    if Js.truthy (Js.of_col (ft_winner_id fight)) then
      let myId := if isFighterA then ft_red_fighter_id fight
                  else ft_blue_fighter_id fight in
      if decide (ft_winner_id fight = Some myId) then "Win"
      else if Js.truthy (Js.of_col (ft_winner_id fight)) then "Loss"
      else "Pending"
    else if decide (ft_method fight = Some "Draw"
                    ∨ ft_method fight = Some "No Contest")
      then default "Pending" (ft_method fight)
    else "Pending" in
  {| h_EventName := e_event_name (hj_event row);
     h_EventDate := e_date (hj_event row);
     h_Location := e_location (hj_event row);
     h_Opponent := opponent;
     h_Result := result;
     h_Method := ft_method fight;
     h_Round := ft_finish_round fight |}.

Section history.

(** [name LIKE pattern]: its case rules come with the collation of
    [fighter.name], so the operator is a parameter. *)
Variable like : string → string → bool.

(** [SELECT fighter_id, name FROM fighter WHERE name LIKE ?] with
    [%${fighterName}%] *)
Definition matching_fighters (fighterName : string) (st : db) : list fighter :=
  filter (λ f, like (f_name f) ("%" +:+ fighterName +:+ "%")) (fighters st).

(** [req.query.name] is [None] when the parameter is missing. *)
Definition get_fighter_history (name : option string) (st : db)
    : response history_ok :=
  match name with
  | None => Failure 400 "Fighter name is required"
  | Some fighterName =>
      if decide (fighterName = "") then Failure 400 "Fighter name is required"
      else
        let fs := matching_fighters fighterName st in
        match fs with
        | [] => Success {| h_data := []; h_fighters := None;
                           h_message := Some "No fighters found" |}
        | _ :: _ =>
            let fighterIds := f_fighter_id <$> fs in
            let results := merge_sort date_desc (history_join_rows fighterIds st) in
            Success {| h_data := process_fight fighterIds <$> results;
                       h_fighters := Some ((λ f, (f_fighter_id f, f_name f)) <$> fs);
                       h_message := None |}
        end
  end.

End history.

(** [LIKE] under a collation that ignores case, with [%] and [_] as the
    wildcards. *)
Definition lower (a : ascii) : ascii :=
  let n := nat_of_ascii a in
  if bool_decide (65 ≤ n ≤ 90) then ascii_of_nat (n + 32) else a.

Fixpoint like_ci (pattern : string) : string → bool :=
  match pattern with
  | EmptyString => λ s, bool_decide (s = EmptyString)
  | String c pattern' =>
      if decide (c = "%"%char) then
        fix skip (s : string) : bool :=
          like_ci pattern' s ||
          match s with
          | String _ s' => skip s'
          | EmptyString => false
          end
      else if decide (c = "_"%char) then
        λ s, match s with
             | String _ s' => like_ci pattern' s'
             | EmptyString => false
             end
      else
        λ s, match s with
             | String d s' => bool_decide (lower c = lower d) && like_ci pattern' s'
             | EmptyString => false
             end
  end.

Definition sql_like_ci (subject pattern : string) : bool := like_ci pattern subject.

(** ** GET /api/event/:eventId/fights *)

Record fighter_info := {
  fi_name : string;
  fi_record : string
}.

(** [(f.wins !== undefined) ? `${f.wins}-${f.losses}-${f.draws}` : 'N/A'] *)
Definition fighter_record (f : fighter) : string :=
  if decide (f_wins f ≠ Js.Undefined) then
    Js.to_string (f_wins f) +:+ "-" +:+ Js.to_string (f_losses f)
      +:+ "-" +:+ Js.to_string (f_draws f)
  else "N/A".

(** The properties of [{ name: f.name, record: record }]. *)
Definition fighter_info_fields (v : fighter_info) (k : string) : option bool :=
  if decide (k = "name") then Some (Js.truthy (Js.Str (fi_name v)))
  else if decide (k = "record") then Some (Js.truthy (Js.Str (fi_record v)))
  else None.

(** [const fighterMap = {}; allFighters.forEach(f => {
    fighterMap[f.fighter_id] = {...} })] *)
Definition fighter_map (allFighters : list fighter) : JsObject.t fighter_info :=
  foldl (λ m f, JsObject.assign (f_fighter_id f)
                  {| fi_name := f_name f; fi_record := fighter_record f |} m)
        JsObject.empty allFighters.

Definition unknown_fighter : fighter_info :=
  {| fi_name := "Unknown"; fi_record := "" |}.

(** A property that is [undefined] is left out of the JSON answer. *)
Record fight_view := {
  fv_FightID : string;
  fv_FighterA_ID : string;
  fv_FighterB_ID : string;
  fv_FighterAName : Js.value;
  fv_FighterARecord : Js.value;
  fv_FighterBName : Js.value;
  fv_FighterBRecord : Js.value;
  fv_WeightClass : string;
  fv_Result : string;
  fv_Method : string;
  fv_Round : Js.value
}.

(** [fighterMap[id] || { name: 'Unknown', record: '' }] *)
Definition corner (fighterMap : JsObject.t fighter_info) (id : string)
    : JsObject.found fighter_info :=
  JsObject.or_else (JsObject.read fighter_info_fields fighterMap id)
    (JsObject.Stored unknown_fighter).

(** The callback of [fights.map]. *)
Definition map_fight (fighterMap : JsObject.t fighter_info) (row : fight)
    : fight_view :=
  let idA := ft_red_fighter_id row in
  let idB := ft_blue_fighter_id row in
  let fighterA := corner fighterMap idA in
  let fighterB := corner fighterMap idB in
  let name := JsObject.name (λ v, Js.Str (fi_name v)) in
  let record := JsObject.prop (λ v, Js.Str (fi_record v)) in
  let resultText :=
    if Js.truthy (Js.of_col (ft_winner_id row)) then
      if decide (ft_winner_id row = Some idA)
      then Js.to_string (name fighterA) +:+ " Win"
      else if decide (ft_winner_id row = Some idB)
      then Js.to_string (name fighterB) +:+ " Win"
      else "Draw/No Contest"
    else "Pending" in
  {| fv_FightID := ft_fight_id row;
     fv_FighterA_ID := idA;
     fv_FighterB_ID := idB;
     fv_FighterAName := name fighterA;
     fv_FighterARecord := record fighterA;
     fv_FighterBName := name fighterB;
     fv_FighterBRecord := record fighterB;
     fv_WeightClass :=
       Js.to_string (Js.or_else (Js.of_col (ft_division row)) (Js.Str "Catchweight"));
     fv_Result := resultText;
     fv_Method := Js.to_string (Js.or_else (Js.of_col (ft_method row)) (Js.Str "-"));
     fv_Round :=
       Js.or_else (from_option Js.Num Js.Null (ft_finish_round row)) (Js.Str "-") |}.

Definition get_event_fights (eventId : string) (st : db)
    : response (list fight_view) :=
  let fights := filter (λ f, ft_event_id f = eventId) (fights st) in
  let allFighters := fighters st in
  if decide (length fights = 0) then Success []
  else Success (map_fight (fighter_map allFighters) <$> fights).

(** ** The write requests as one transition system *)

Inductive request :=
| Register (username email password : Js.value) (passwordHash : string)
| CreateLeague (name ownerID scoringRules leagueCode : Js.value)
    (random_code : string)
| DeleteLeague (leagueId : string)
| JoinLeague (leagueCode userId : Js.value)
| SavePicks (body : save_picks_body).

(** The database after a request has been handled. *)
Definition handle (sch : schema) (req : request) (st : db) : db :=
  match req with
  | Register username email password passwordHash =>
      (register sch username email password passwordHash st).2
  | CreateLeague name ownerID scoringRules leagueCode random_code =>
      (create_league sch name ownerID scoringRules leagueCode random_code st).2
  | DeleteLeague leagueId => (delete_league leagueId st).2
  | JoinLeague leagueCode userId => (join_league sch leagueCode userId st).2
  | SavePicks body => state (save_picks sch body st)
  end.

Definition run (sch : schema) (reqs : list request) (st : db) : db :=
  foldl (λ st req, handle sch req st) st reqs.

(** ** Predicates the statements are written with *)

(** The elements the loop reaches: those before the first [null]. *)
Fixpoint before_null (entries : list (option selection)) : list selection :=
  match entries with
  | Some pk :: rest => pk :: before_null rest
  | _ => []
  end.

(** The message of the error that a [null] element makes the loop throw. *)
Fixpoint thrown_by (entries : list (option selection)) : option string :=
  match entries with
  | [] => None
  | None :: _ => Some null_entry_error
  | Some _ :: rest => thrown_by rest
  end.

(** Among elements that are objects, those with a truthy [fighterId]. *)
Definition attempted_objects (sels : list selection) : list selection :=
  filter (λ s, Js.truthy (fighterId s) = true) sels.

(** The selections the loop tries to insert: those it reaches that have a
    truthy [fighterId]. *)
Definition attempted (entries : list (option selection)) : list selection :=
  attempted_objects (before_null entries).

(** The value stored in [FighterID] for a selection. *)
Definition stored_fighter (s : selection) : string :=
  Js.trim (Js.to_string (fighterId s)).

(** At most one [membership] row for a user and a league. *)
Definition at_most_one_membership (st : db) : Prop :=
  ∀ u l, length (memberships_of u l st) ≤ 1.

(** The ids that AUTO_INCREMENT will hand out for [league] from now on are
    used neither by a league nor by a membership. *)
Definition fresh_league_ids (st : db) : Prop :=
  ∀ k, next_league_id st ≤ k →
    Forall (λ lg, l_LeagueID lg ≠ pretty k) (leagues st)
    ∧ Forall (λ m, m_LeagueID m ≠ pretty k) (memberships st).

Definition ledger_inv (st : db) : Prop :=
  at_most_one_membership st ∧ fresh_league_ids st.

(** Every membership and every pick carries the id of a league row: the
    foreign keys that the [catch] block of the delete handler speaks of
    ("associated records (members or picks)"). *)
Definition league_exists (leagueId : string) (st : db) : Prop :=
  Exists (λ lg, l_LeagueID lg = leagueId) (leagues st).

Definition references_resolved (st : db) : Prop :=
  Forall (λ m, league_exists (m_LeagueID m) st) (memberships st)
  ∧ Forall (λ p, league_exists (p_LeagueID p) st) (picks st).

Global Instance league_exists_dec leagueId st : Decision (league_exists leagueId st).
Proof. unfold league_exists. apply _. Defined.

(** A database that stores a pick only under the id of a league row. *)
Definition enforces_pick_league (sch : schema) : Prop :=
  ∀ st p, pick_insert sch st p = None → league_exists (p_LeagueID p) st.

(** The user holds a membership in the league. *)
Definition is_member (leagueId : string) (st : db) (u : user) : Prop :=
  memberships_of (u_UserID u) leagueId st ≠ [].

Global Instance is_member_dec leagueId st u : Decision (is_member leagueId st u).
Proof. unfold is_member. apply _. Defined.

(** The picks of a user that are scoped to the league. *)
Definition league_picks (leagueId : string) (st : db) (u : user) : list pick :=
  filter (λ p, u_UserID u = p_UserID p ∧ p_LeagueID p = leagueId) (picks st).

(** The sum of [PointsEarned] over those picks; 0 when there is none. *)
Definition user_points (leagueId : string) (st : db) (u : user) : Z :=
  foldr Z.add 0%Z (p_PointsEarned <$> league_picks leagueId st u).

Definition leaderboard_row_of (leagueId : string) (st : db) (u : user)
    : leaderboard_row :=
  {| lb_UserID := u_UserID u; lb_Username := u_Username u;
     lb_Email := u_Email u; lb_TotalPoints := user_points leagueId st u |}.

(** The winner id of a fight, when one is recorded.  A NULL cell and an
    empty string both count as no winner, as in [if (fight.winner_id)]. *)
Definition recorded_winner (f : fight) : option string :=
  match ft_winner_id f with
  | Some w => if decide (w = "") then None else Some w
  | None => None
  end.

(** The outcome of a fight as the specification words it, seen from the
    fighter [me]: a win when [me] is the winner, a loss when somebody else
    is, the method itself for a draw or a no contest without winner, and
    pending otherwise. *)
Definition result_relative_to (me : string) (f : fight) : string :=
  match recorded_winner f with
  | Some w => if decide (w = me) then "Win" else "Loss"
  | None =>
      if decide (ft_method f = Some "Draw") then "Draw"
      else if decide (ft_method f = Some "No Contest") then "No Contest"
      else "Pending"
  end.

(** What a key finds in a table that holds no entry for it and whose
    prototype was not replaced: [Object.prototype] for [__proto__], an
    inherited function for the name of one, and nothing otherwise. *)
Inductive inherited_key :=
| KeyPrototype
| KeyMethod (name : string)
| KeyOrdinary.

Definition key_kind (k : string) : inherited_key :=
  if decide (k = "__proto__") then KeyPrototype
  else match JsObject.method k with
       | Some n => KeyMethod n
       | None => KeyOrdinary
       end.

(** The name and record shown for a corner: those of a fighter row with the
    corner's id when there is one; otherwise the stand-ins, unless the id is
    a key that every object answers. *)
Definition corner_shown (allFighters : list fighter) (id : string)
    (name record : Js.value) : Prop :=
  (Forall (λ f, f_fighter_id f ≠ id) allFighters
   ∧ match key_kind id with
     | KeyOrdinary => name = Js.Str "Unknown" ∧ record = Js.Str ""
     | KeyMethod n => name = Js.Str n ∧ record = Js.Undefined
     | KeyPrototype => name = Js.Undefined ∧ record = Js.Undefined
     end)
  ∨ (∃ f, f ∈ allFighters ∧ f_fighter_id f = id
          ∧ name = Js.Str (f_name f) ∧ record = Js.Str (fighter_record f)).

(** What one fight row is turned into. *)
Definition fight_view_of (allFighters : list fighter) (row : fight)
    (v : fight_view) : Prop :=
  fv_FightID v = ft_fight_id row
  ∧ fv_FighterA_ID v = ft_red_fighter_id row
  ∧ fv_FighterB_ID v = ft_blue_fighter_id row
  ∧ corner_shown allFighters (ft_red_fighter_id row)
      (fv_FighterAName v) (fv_FighterARecord v)
  ∧ corner_shown allFighters (ft_blue_fighter_id row)
      (fv_FighterBName v) (fv_FighterBRecord v)
  ∧ fv_Result v
    = match recorded_winner row with
      | None => "Pending"
      | Some w =>
          if decide (w = ft_red_fighter_id row)
          then Js.to_string (fv_FighterAName v) +:+ " Win"
          else if decide (w = ft_blue_fighter_id row)
          then Js.to_string (fv_FighterBName v) +:+ " Win"
          else "Draw/No Contest"
      end
  ∧ fv_WeightClass v
    = match ft_division row with
      | Some d => if decide (d = "") then "Catchweight" else d
      | None => "Catchweight"
      end.

(** The joined rows that stem from one user row. *)
Definition user_rows (leagueId : string) (st : db) (u : user)
    : list (user * membership * option pick) :=
  m ← filter (λ m, u_UserID u = m_UserID m) (memberships st);
  p ← left_join_picks leagueId u (picks st);
  if decide (m_LeagueID m = leagueId) then [(u, m, p)] else [].

Definition key_of (u : user) : string * string * string :=
  (u_UserID u, u_Username u, u_Email u).

(** [ORDER BY e.date DESC], read on the answer. *)
Definition newest_first (r1 r2 : history_row) : Prop :=
  (h_EventDate r2 ≤ h_EventDate r1)%Z.

(** ** A small database to run the handlers on *)

(** A database that stores every row it is given. *)
Definition accept_all : schema :=
  {| user_insert := λ _ _, None;
     league_insert := λ _ _, None;
     membership_insert := λ _ _, None;
     pick_insert := λ _ _, None |}.

(** A database whose [pick] table refuses one fighter id. *)
Definition reject_fighter (bad : string) : schema :=
  {| user_insert := λ _ _, None;
     league_insert := λ _ _, None;
     membership_insert := λ _ _, None;
     pick_insert := λ _ p,
       if decide (p_FighterID p = bad)
       then Some {| code := "ER_NO_REFERENCED_ROW_2";
                    message := "Cannot add or update a child row" |}
       else None |}.

(** A database whose [pick] table has a foreign key to [league]. *)
Definition pick_league_key : schema :=
  {| user_insert := λ _ _, None;
     league_insert := λ _ _, None;
     membership_insert := λ _ _, None;
     pick_insert := λ st p,
       if decide (league_exists (p_LeagueID p) st) then None
       else Some {| code := "ER_NO_REFERENCED_ROW_2";
                    message := "Cannot add or update a child row" |} |}.

Definition demo_pick (i : nat) (u l e f : string) (pts : Z) : pick :=
  {| p_PickID := i; p_UserID := u; p_LeagueID := l; p_EventID := e;
     p_FighterID := f; p_PointsEarned := pts |}.

Definition demo_fight_1 : fight :=
  {| ft_fight_id := "x1"; ft_event_id := "e1";
     ft_red_fighter_id := "f1"; ft_blue_fighter_id := "f3";
     ft_winner_id := Some "f3"; ft_method := Some "KO";
     ft_finish_round := Some 2%Z; ft_division := None |}.

Definition demo_fight_2 : fight :=
  {| ft_fight_id := "x2"; ft_event_id := "e2";
     ft_red_fighter_id := "f2"; ft_blue_fighter_id := "f1";
     ft_winner_id := None; ft_method := Some "Draw";
     ft_finish_round := None; ft_division := Some "Middleweight" |}.

Definition demo_fight_3 : fight :=
  {| ft_fight_id := "x3"; ft_event_id := "e2";
     ft_red_fighter_id := "f2"; ft_blue_fighter_id := "f9";
     ft_winner_id := Some "f9"; ft_method := None;
     ft_finish_round := None; ft_division := Some "" |}.

Definition demo_db : db :=
  {| users :=
       [ {| u_UserID := "1"; u_Username := "bob"; u_Email := "bob@example.org";
            u_PasswordHash := "$2b$10$bob" |};
         {| u_UserID := "2"; u_Username := "alice"; u_Email := "alice@example.org";
            u_PasswordHash := "$2b$10$alice" |};
         {| u_UserID := "3"; u_Username := "carl"; u_Email := "carl@example.org";
            u_PasswordHash := "$2b$10$carl" |};
         {| u_UserID := "4"; u_Username := "dora"; u_Email := "dora@example.org";
            u_PasswordHash := "$2b$10$dora" |} ];
     leagues :=
       [ {| l_LeagueID := "1"; l_Name := "Octagon"; l_OwnerID := "1";
            l_ScoringRules := None; l_LeagueCode := "ABC123" |} ];
     memberships :=
       [ {| m_UserID := "1"; m_LeagueID := "1"; m_Role := "Owner" |};
         {| m_UserID := "2"; m_LeagueID := "1"; m_Role := "Member" |};
         {| m_UserID := "4"; m_LeagueID := "1"; m_Role := "Member" |} ];
     picks :=
       [ demo_pick 0 "1" "1" "e1" "f1" 5;
         demo_pick 1 "1" "1" "e2" "f2" 3;
         demo_pick 2 "2" "1" "e1" "f1" 8 ];
     events :=
       [ {| e_event_id := "e1"; e_event_name := "UFC 1"; e_date := 19000;
            e_location := "Las Vegas" |};
         {| e_event_id := "e2"; e_event_name := "UFC 2"; e_date := 19100;
            e_location := "New York" |} ];
     fighters :=
       [ {| f_fighter_id := "f1"; f_name := "Anderson Silva";
            f_wins := Js.Num 34; f_losses := Js.Num 11; f_draws := Js.Num 0 |};
         {| f_fighter_id := "f2"; f_name := "Jon Jones";
            f_wins := Js.Num 27; f_losses := Js.Num 1; f_draws := Js.Num 0 |};
         {| f_fighter_id := "f3"; f_name := "Erick Silva";
            f_wins := Js.Num 20; f_losses := Js.Num 11; f_draws := Js.Num 0 |};
         {| f_fighter_id := "f4"; f_name := "Conor McGregor";
            f_wins := Js.Undefined; f_losses := Js.Undefined;
            f_draws := Js.Undefined |} ];
     fights := [ demo_fight_1; demo_fight_2; demo_fight_3 ];
     next_user_id := 5; next_league_id := 2; next_pick_id := 3 |}.

(** A fight of an event e3 whose red corner, the winner, carries the fighter
    id [constructor]; no fighter row has that id. *)
Definition demo_fight_4 : fight :=
  {| ft_fight_id := "x4"; ft_event_id := "e3";
     ft_red_fighter_id := "constructor"; ft_blue_fighter_id := "f1";
     ft_winner_id := Some "constructor"; ft_method := Some "KO";
     ft_finish_round := Some 1%Z; ft_division := Some "Lightweight" |}.

Definition demo_db_e3 : db :=
  {| users := users demo_db; leagues := leagues demo_db;
     memberships := memberships demo_db; picks := picks demo_db;
     events := events demo_db; fighters := fighters demo_db;
     fights := fights demo_db ++ [demo_fight_4];
     next_user_id := next_user_id demo_db;
     next_league_id := next_league_id demo_db;
     next_pick_id := next_pick_id demo_db |}.

Definition demo_selections : list selection :=
  [ {| fightId := Js.Str "x1"; fighterId := Js.Str " f3 " |};
    {| fightId := Js.Str "x7"; fighterId := Js.Str "f8" |};
    {| fightId := Js.Str "x8"; fighterId := Js.Null |};
    {| fightId := Js.Str "x9"; fighterId := Js.Num 7 |} ].

Definition demo_body (sels : picks_value) : save_picks_body :=
  {| sp_userId := Js.Str "1"; sp_leagueId := Js.Str "1";
     sp_eventId := Js.Str "e1"; sp_picks := sels |}.

(** * The handlers around the ledger *)

(** ** POST /api/login *)

Record login_ok := {
  lg_message : string;
  lg_userId : string;
  lg_username : string;
  lg_email : string
}.

Definition invalid_login : string := "Invalid username or password".

Section login.

(** [bcrypt.compare(password, hash)]: [inr b] is its answer, [inl msg] the
    message of the error it throws. *)
Variable bcrypt_compare : Js.value → string → string + bool.

Definition login (username password : Js.value) (st : db) : response login_ok :=
  if Js.truthy username && Js.truthy password then
    match filter (λ u, u_Username u = Js.to_string username) (users st) with
    | [] => Failure 401 invalid_login
    | user :: _ =>
        match bcrypt_compare password (u_PasswordHash user) with
        | inl msg => Failure 500 msg
        | inr passwordMatch =>
            if negb passwordMatch then Failure 401 invalid_login
            else Success {| lg_message := "Login successful";
                            lg_userId := u_UserID user;
                            lg_username := u_Username user;
                            lg_email := u_Email user |}
        end
    end
  else Failure 400 "Username and password are required".

End login.

(** ** GET /api/league/:leagueId *)

Definition get_league (leagueId : string) (st : db) : response league :=
  match filter (λ l, l_LeagueID l = leagueId) (leagues st) with
  | [] => Failure 404 "League not found"
  | lg :: _ => Success lg
  end.

(** ** GET /api/user-picks/:userId/:leagueId *)

Record pick_fighter := {
  pf_name : string;
  pf_weight : Js.value;
  pf_record : string
}.

Record pick_event := {
  pe_name : string;
  pe_date : Z;
  pe_location : string
}.

(** The properties of the two literals; [date] holds a [Date]. *)
Definition pick_fighter_fields (v : pick_fighter) (k : string) : option bool :=
  if decide (k = "name") then Some (Js.truthy (Js.Str (pf_name v)))
  else if decide (k = "weight") then Some (Js.truthy (pf_weight v))
  else if decide (k = "record") then Some (Js.truthy (Js.Str (pf_record v)))
  else None.

Definition pick_event_fields (v : pick_event) (k : string) : option bool :=
  if decide (k = "name") then Some (Js.truthy (Js.Str (pe_name v)))
  else if decide (k = "date") then Some true
  else if decide (k = "location") then Some (Js.truthy (Js.Str (pe_location v)))
  else None.

(** A property that is [undefined] is left out of the JSON answer. *)
Record user_pick_view := {
  up_PickID : nat;
  up_EventID : string;
  up_EventName : Js.value;
  up_EventDate : Js.value;
  up_FighterName : Js.value;
  up_FighterRecord : Js.value;
  up_WeightClass : Js.value;
  up_PointsEarned : Z
}.

(** [const eventMap = {}; allEvents.forEach(e => {
    eventMap[String(e.event_id).trim()] = {...} })] *)
Definition event_map (allEvents : list event) : JsObject.t pick_event :=
  foldl (λ m e, JsObject.assign (Js.trim (e_event_id e))
                  {| pe_name := e_event_name e; pe_date := e_date e;
                     pe_location := e_location e |} m)
        JsObject.empty allEvents.

Section user_picks.

(** The cell [weight] of a fighter row, a column that the rows of [fighter]
    above do not carry. *)
Variable weight : fighter → Js.value.

(** [{ name: f.name, weight: f.weight || 'N/A',
       record: `${f.wins}-${f.losses}-${f.draws}` }] *)
Definition pick_fighter_of (f : fighter) : pick_fighter :=
  {| pf_name := f_name f;
     pf_weight := Js.or_else (weight f) (Js.Str "N/A");
     pf_record := Js.to_string (f_wins f) +:+ "-"
                    +:+ Js.to_string (f_losses f) +:+ "-"
                    +:+ Js.to_string (f_draws f) |}.

(** [const fighterMap = {}; allFighters.forEach(f => {
    fighterMap[String(f.fighter_id).trim()] = {...} })] *)
Definition pick_fighter_map (allFighters : list fighter)
    : JsObject.t pick_fighter :=
  foldl (λ m f, JsObject.assign (Js.trim (f_fighter_id f)) (pick_fighter_of f) m)
        JsObject.empty allFighters.

(** The callback of [picks.map]. *)
Definition map_pick (fighterMap : JsObject.t pick_fighter)
    (eventMap : JsObject.t pick_event) (p : pick) : user_pick_view :=
  let fighterId := Js.trim (p_FighterID p) in
  let eventId := Js.trim (p_EventID p) in
  let fighter := JsObject.read pick_fighter_fields fighterMap fighterId in
  let event := JsObject.read pick_event_fields eventMap eventId in
  {| up_PickID := p_PickID p;
     up_EventID := eventId;
     up_EventName :=
       if JsObject.truthy event
       then JsObject.name (λ ev, Js.Str (pe_name ev)) event
       else Js.Str ("Unknown Event (ID: " +:+ eventId +:+ ")");
     up_EventDate :=
       if JsObject.truthy event
       then JsObject.prop (λ ev, Js.Num (pe_date ev)) event
       else Js.Str "";
     up_FighterName :=
       if JsObject.truthy fighter
       then JsObject.name (λ f, Js.Str (pf_name f)) fighter
       else Js.Str ("Unknown (ID: " +:+ fighterId +:+ ")");
     up_FighterRecord :=
       if JsObject.truthy fighter
       then JsObject.prop (λ f, Js.Str (pf_record f)) fighter
       else Js.Str "0-0-0";
     up_WeightClass :=
       if JsObject.truthy fighter
       then JsObject.prop pf_weight fighter
       else Js.Str "N/A";
     up_PointsEarned :=
       if bool_decide (p_PointsEarned p ≠ 0%Z) then p_PointsEarned p else 0%Z |}.

Definition get_user_picks (userId leagueId : string) (st : db)
    : response (list user_pick_view) :=
  let picks := filter (λ p, p_UserID p = userId ∧ p_LeagueID p = leagueId)
                 (picks st) in
  if decide (length picks = 0) then Success []
  else Success (map_pick (pick_fighter_map (fighters st)) (event_map (events st))
                  <$> picks).

End user_picks.

(** ** GET /api/events *)

(** A row of [SELECT * FROM event]: the columns in their order, by name. *)
Definition sql_row : Type := list (string * Js.value).

(** [row.k] and [row[k]] *)
Fixpoint row_get (row : sql_row) (k : string) : Js.value :=
  match row with
  | [] => Js.Undefined
  | (k', v) :: row' => if decide (k' = k) then v else row_get row' k
  end.

(** [k.toLowerCase()], on the letters of the ASCII range *)
Fixpoint to_lower (s : string) : string :=
  match s with
  | EmptyString => EmptyString
  | String a s' => String (lower a) (to_lower s')
  end.

(** [keys.find(k => k.toLowerCase().includes(search))] *)
Fixpoint find_key (row : sql_row) (search : string) : option string :=
  match row with
  | [] => None
  | (k, _) :: row' =>
      if includes (to_lower k) search then Some k else find_key row' search
  end.

(** [row[findKey(search)]]; with no such key the property read is the one
    named "undefined". *)
Definition row_found (row : sql_row) (search : string) : Js.value :=
  row_get row (default "undefined" (find_key row search)).

Record event_view := {
  ev_EventID : Js.value;
  ev_Name : Js.value;
  ev_Date : Js.value;
  ev_Location : Js.value
}.

(** The callback of [rows.map]. *)
Definition map_event (row : sql_row) : event_view :=
  {| ev_EventID :=
       Js.or_else (Js.or_else (row_get row "event_id") (row_get row "EventID"))
         (row_found row "id");
     ev_Name :=
       Js.or_else
         (Js.or_else
            (Js.or_else (Js.or_else (row_get row "name") (row_get row "Name"))
               (row_get row "event_name"))
            (row_found row "name"))
         (Js.Str "Unknown Event");
     ev_Date :=
       Js.or_else
         (Js.or_else (Js.or_else (row_get row "date") (row_get row "Date"))
            (row_get row "event_date"))
         (row_found row "date");
     ev_Location :=
       Js.or_else (Js.or_else (row_get row "location") (row_get row "Location"))
         (row_found row "location") |}.

(** The row that [SELECT *] gives for a row of the [event] table; the date
    cell is held by its time value. *)
Definition event_row (e : event) : sql_row :=
  [ ("event_id", Js.Str (e_event_id e));
    ("event_name", Js.Str (e_event_name e));
    ("date", Js.Num (e_date e));
    ("location", Js.Str (e_location e)) ].

(** The time value of [new Date(v)] for a date cell, [None] for NaN.  A
    string is not parsed: the rows of [event] have none in this cell. *)
Definition date_time (v : Js.value) : option Z :=
  match v with
  | Js.Num n => Some n
  | Js.Null => Some 0%Z
  | Js.Undefined | Js.Str _ => None
  end.

(** [new Date(b.Date) - new Date(a.Date)] is not positive: [a] may stay in
    front of [b].  A NaN difference counts as 0. *)
Definition not_after (a b : event_view) : Prop :=
  match date_time (ev_Date a), date_time (ev_Date b) with
  | Some x, Some y => (y ≤ x)%Z
  | _, _ => True
  end.

Global Instance not_after_dec : RelDecision not_after.
Proof.
  intros a b. unfold not_after.
  destruct (date_time (ev_Date a)), (date_time (ev_Date b)); apply _.
Defined.

(** [Array.prototype.sort] with a comparator, which is stable: insertion
    from the right end. *)
Fixpoint sort_insert {A} (R : relation A) `{!RelDecision R} (x : A)
    (l : list A) : list A :=
  match l with
  | [] => [x]
  | y :: l' => if decide (R x y) then x :: l else y :: sort_insert R x l'
  end.

Definition js_sort {A} (R : relation A) `{!RelDecision R} (l : list A) : list A :=
  foldr (sort_insert R) [] l.

Definition get_events (st : db) : response (list event_view) :=
  let rows := event_row <$> take 50 (events st) in
  let events := map_event <$> rows in
  Success (js_sort not_after events).

(** The view of an event row of the table. *)
Definition event_view_of (e : event) : event_view :=
  {| ev_EventID := Js.Str (e_event_id e);
     ev_Name := if decide (e_event_name e = "") then Js.Str "Unknown Event"
                else Js.Str (e_event_name e);
     ev_Date := Js.Num (e_date e);
     ev_Location := Js.Str (e_location e) |}.

(** The same event under the column names of the older dumps that the
    handler's comments list. *)
Definition event_row_pascal (e : event) : sql_row :=
  [ ("EventID", Js.Str (e_event_id e));
    ("Name", Js.Str (e_event_name e));
    ("Date", Js.Num (e_date e));
    ("Location", Js.Str (e_location e)) ].

Definition event_row_prefixed (e : event) : sql_row :=
  [ ("id", Js.Str (e_event_id e));
    ("name", Js.Str (e_event_name e));
    ("event_date", Js.Num (e_date e));
    ("event_location", Js.Str (e_location e)) ].

(** ** [savePicks] of public/app.js *)

(** A checked radio button: its [data-fight-id] attribute and its value. *)
Record radio := {
  data_fight_id : option string;
  radio_value : string
}.

(** The body that [savePicks] posts, if it posts one.  [currentUser] is
    [None] for [null] and otherwise holds [currentUser.userId]; the two
    attributes are [None] when [getAttribute] returns [null]. *)
Definition client_save_picks (currentUser : option Js.value)
    (data_league_id data_event_id : option string) (checked : list radio)
    : option save_picks_body :=
  match currentUser with
  | None => None
  | Some userId =>
      if Js.truthy (Js.of_col data_league_id) && Js.truthy (Js.of_col data_event_id)
      then
        let picks := (λ r, {| fightId := Js.of_col (data_fight_id r);
                              fighterId := Js.Str (radio_value r) |}) <$> checked in
        if decide (length picks = 0) then None
        else Some {| sp_userId := userId;
                     sp_leagueId := Js.of_col data_league_id;
                     sp_eventId := Js.of_col data_event_id;
                     sp_picks := PicksArray (Some <$> picks) |}
      else None
  end.

(** ** Further predicates *)

(** The ids that AUTO_INCREMENT will hand out for [user] from now on are not
    in use, and no two user rows share an id. *)
Definition user_ids_inv (st : db) : Prop :=
  NoDup (u_UserID <$> users st)
  ∧ ∀ k, next_user_id st ≤ k → Forall (λ u, u_UserID u ≠ pretty k) (users st).

(** [PickID]s are below the counter and pairwise distinct. *)
Definition pick_ids_inv (st : db) : Prop :=
  NoDup (p_PickID <$> picks st)
  ∧ Forall (λ p, p_PickID p < next_pick_id st) (picks st).

(** The points that the picks of a scope carry. *)
Definition scope_points (u l e : string) (st : db) : Z :=
  foldr Z.add 0%Z (p_PointsEarned <$> filter (in_scope u l e) (picks st)).

(** A joined row of the history query is complete: the event of the fight
    and the fighters of both corners have rows. *)
Definition fight_complete (st : db) (f : fight) : Prop :=
  Exists (λ e, ft_event_id f = e_event_id e) (events st)
  ∧ Exists (λ x, ft_red_fighter_id f = f_fighter_id x) (fighters st)
  ∧ Exists (λ x, ft_blue_fighter_id f = f_fighter_id x) (fighters st).

(** The event name and date shown for a pick: those of an event row whose
    trimmed id is the pick's trimmed event id; otherwise the stand-ins,
    unless the id is a key that every object answers. *)
Definition pick_event_shown (allEvents : list event) (id : string)
    (name date : Js.value) : Prop :=
  (Forall (λ e, Js.trim (e_event_id e) ≠ id) allEvents
   ∧ match key_kind id with
     | KeyOrdinary =>
         name = Js.Str ("Unknown Event (ID: " +:+ id +:+ ")") ∧ date = Js.Str ""
     | KeyMethod n => name = Js.Str n ∧ date = Js.Undefined
     | KeyPrototype => name = Js.Undefined ∧ date = Js.Undefined
     end)
  ∨ (∃ e, e ∈ allEvents ∧ Js.trim (e_event_id e) = id
          ∧ name = Js.Str (e_event_name e) ∧ date = Js.Num (e_date e)).

(** The fighter name shown for a pick, likewise. *)
Definition pick_fighter_shown (allFighters : list fighter) (id : string)
    (name : Js.value) : Prop :=
  (Forall (λ f, Js.trim (f_fighter_id f) ≠ id) allFighters
   ∧ match key_kind id with
     | KeyOrdinary => name = Js.Str ("Unknown (ID: " +:+ id +:+ ")")
     | KeyMethod n => name = Js.Str n
     | KeyPrototype => name = Js.Undefined
     end)
  ∨ (∃ f, f ∈ allFighters ∧ Js.trim (f_fighter_id f) = id
          ∧ name = Js.Str (f_name f)).

(** What one pick row is turned into. *)
Definition pick_view_of (st : db) (p : pick) (v : user_pick_view) : Prop :=
  up_PickID v = p_PickID p
  ∧ up_EventID v = Js.trim (p_EventID p)
  ∧ up_PointsEarned v = p_PointsEarned p
  ∧ pick_event_shown (events st) (Js.trim (p_EventID p))
      (up_EventName v) (up_EventDate v)
  ∧ pick_fighter_shown (fighters st) (Js.trim (p_FighterID p))
      (up_FighterName v).

(** The events by time value, newest first. *)
Definition newest_event_first (a b : event) : Prop := (e_date b ≤ e_date a)%Z.

Global Instance newest_event_first_dec : RelDecision newest_event_first.
Proof. intros a b. unfold newest_event_first. apply _. Defined.

Global Instance newest_event_first_total : Total newest_event_first.
Proof. intros a b. unfold newest_event_first. lia. Qed.

(** ** More rows for the small database *)

(** A database that refuses every membership row. *)
Definition refuse_memberships : schema :=
  {| user_insert := λ _ _, None;
     league_insert := λ _ _, None;
     membership_insert := λ _ _,
       Some {| code := "ER_LOCK_WAIT_TIMEOUT";
               message := "Lock wait timeout exceeded" |};
     pick_insert := λ _ _, None |}.

(** A stand-in for [bcrypt.compare]: the hash of a password is the password
    behind a fixed prefix; anything but a string makes it throw. *)
Definition demo_compare (password : Js.value) (hash : string) : string + bool :=
  match password with
  | Js.Str pw => inr (bool_decide (hash = "$2b$10$" +:+ pw))
  | _ => inl "data and hash arguments required"
  end.

Definition demo_weight (f : fighter) : Js.value :=
  if decide (f_fighter_id f = "f4") then Js.Str "Lightweight" else Js.Null.

Definition demo_bob : user :=
  {| u_UserID := "1"; u_Username := "bob"; u_Email := "bob@example.org";
     u_PasswordHash := "$2b$10$bob" |}.

Definition demo_requests : list request :=
  [ Register (Js.Str "erin") (Js.Str "erin@example.org") (Js.Str "pw")
      "$2b$10$pw";
    JoinLeague (Js.Str "ABC123") (Js.Num 3);
    CreateLeague (Js.Str "Cage") (Js.Num 3) Js.Undefined Js.Undefined
      "K3J9X0Q2ZA";
    SavePicks (demo_body (PicksArray (Some <$> demo_selections)));
    DeleteLeague "1";
    JoinLeague (Js.Str "ABC123") (Js.Num 3) ].

(** * Properties *)

(** ** Two facts about [filter] *)

Lemma filter_all {A} (P : A → Prop) `{!∀ x, Decision (P x)} (xs : list A) :
  Forall P xs → filter P xs = xs.
Proof.
  induction 1 as [|x xs Hx _ IH]; [done|].
  rewrite filter_cons, decide_True by done. by rewrite IH.
Qed.

Lemma filter_none {A} (P : A → Prop) `{!∀ x, Decision (P x)} (xs : list A) :
  Forall (λ x, ¬ P x) xs → filter P xs = [].
Proof.
  induction 1 as [|x xs Hx _ IH]; [done|].
  by rewrite filter_cons, decide_False.
Qed.

Lemma Forall_filter_self {A} (P : A → Prop) `{!∀ x, Decision (P x)} (xs : list A) :
  Forall P (filter P xs).
Proof. apply Forall_forall. intros x [? _]%list_elem_of_filter. done. Qed.

Lemma Forall_filter_keeps {A} (P Q : A → Prop) `{!∀ x, Decision (P x)}
    (xs : list A) :
  Forall Q xs → Forall Q (filter P xs).
Proof.
  rewrite !Forall_forall. intros Hall x [_ Hx]%list_elem_of_filter. auto.
Qed.

(** ** The pick ledger *)

Section pick_ledger.

Variable sch : schema.
Variables u l e : string.

Lemma insert_objects_cons s sels acc :
  insert_objects sch u l e (s :: sels) acc
  = insert_objects sch u l e sels (insert_pick_step sch u l e acc s).
Proof. reflexivity. Qed.

Lemma insert_objects_app pre post acc :
  insert_objects sch u l e (pre ++ post) acc
  = insert_objects sch u l e post (insert_objects sch u l e pre acc).
Proof. unfold insert_objects. apply foldl_app. Qed.

Lemma insert_pick_step_skip acc s :
  Js.truthy (fighterId s) = false → insert_pick_step sch u l e acc s = acc.
Proof. intros H. unfold insert_pick_step. by rewrite H. Qed.

Lemma insert_pick_step_saved acc s :
  Js.truthy (fighterId s) = true →
  pick_insert sch (cur acc) (new_pick u l e (cur acc) s) = None →
  insert_pick_step sch u l e acc s
  = {| savedCount := S (savedCount acc); errorCount := errorCount acc;
       out := out acc;
       cur := set_picks (picks (cur acc) ++ [new_pick u l e (cur acc) s])
                (S (next_pick_id (cur acc))) (cur acc) |}.
Proof. intros H1 H2. unfold insert_pick_step. by rewrite H1, H2. Qed.

Lemma insert_pick_step_failed acc s err :
  Js.truthy (fighterId s) = true →
  pick_insert sch (cur acc) (new_pick u l e (cur acc) s) = Some err →
  insert_pick_step sch u l e acc s
  = {| savedCount := savedCount acc; errorCount := S (errorCount acc);
       out := out acc ++ [failed_line s err]; cur := cur acc |}.
Proof. intros H1 H2. unfold insert_pick_step. by rewrite H1, H2. Qed.

(** What one run of the loop does to its variables: rows are only appended,
    each appended row is a saved selection, and every selection that carries
    a fighter id is counted once, as saved or as failed. *)
Lemma insert_objects_spec sels acc :
  let r := insert_objects sch u l e sels acc in
  ∃ ins : list pick,
    picks (cur r) = picks (cur acc) ++ ins
    ∧ savedCount r = savedCount acc + length ins
    ∧ savedCount r + errorCount r
      = savedCount acc + errorCount acc + length (attempted_objects sels)
    ∧ next_pick_id (cur r) = next_pick_id (cur acc) + length ins
    ∧ Forall (λ p, in_scope u l e p ∧ p_PointsEarned p = 0%Z
                   ∧ next_pick_id (cur acc) ≤ p_PickID p) ins
    ∧ (p_FighterID <$> ins) `sublist_of` (stored_fighter <$> attempted_objects sels)
    ∧ ((∀ d p, pick_insert sch d p = None) →
       p_FighterID <$> ins = stored_fighter <$> attempted_objects sels).
Proof.
  revert acc. induction sels as [|s sels IH]; intros acc.
  - exists []. simpl. rewrite app_nil_r. repeat split; auto with lia.
  - cbv zeta. rewrite insert_objects_cons.
    destruct (IH (insert_pick_step sch u l e acc s))
      as (ins & Hp & Hs & Hc & Hn & Hf & Hsub & Hall).
    set (r := insert_objects sch u l e sels (insert_pick_step sch u l e acc s)) in *.
    clearbody r. unfold attempted_objects in *. rewrite filter_cons.
    destruct (Js.truthy (fighterId s)) eqn:Ht.
    + rewrite decide_True by done.
      destruct (pick_insert sch (cur acc) (new_pick u l e (cur acc) s))
        as [err|] eqn:Hi.
      * rewrite (insert_pick_step_failed _ _ err Ht Hi) in Hp, Hs, Hc, Hn, Hf.
        simpl in Hp, Hs, Hc, Hn, Hf.
        exists ins. rewrite fmap_cons, length_cons.
        split_and!; auto with lia; [by apply sublist_cons|].
        intros Hacc. by rewrite Hacc in Hi.
      * rewrite (insert_pick_step_saved _ _ Ht Hi) in Hp, Hs, Hc, Hn, Hf.
        simpl in Hp, Hs, Hc, Hn, Hf.
        exists (new_pick u l e (cur acc) s :: ins).
        rewrite !fmap_cons, !length_cons, Hp, <- app_assoc.
        split_and!; auto with lia.
        -- constructor; [by repeat split|].
           eapply Forall_impl; [exact Hf|]. simpl. intros p (?&?&?).
           split_and!; auto with lia.
        -- by apply sublist_skip.
        -- intros Hacc. f_equal. by apply Hall.
    + rewrite decide_False by done.
      rewrite (insert_pick_step_skip _ _ Ht) in Hp, Hs, Hc, Hn, Hf.
      exists ins. split_and!; auto.
Qed.

(** The loop touches no table but [pick]. *)
Lemma insert_objects_tables sels acc :
  let r := insert_objects sch u l e sels acc in
  users (cur r) = users (cur acc)
  ∧ leagues (cur r) = leagues (cur acc)
  ∧ memberships (cur r) = memberships (cur acc)
  ∧ next_league_id (cur r) = next_league_id (cur acc)
  ∧ next_user_id (cur r) = next_user_id (cur acc).
Proof.
  revert acc. induction sels as [|s sels IH]; intros acc; simpl; [done|].
  destruct (IH (insert_pick_step sch u l e acc s)) as (H1 & H2 & H3 & H4 & H5).
  rewrite H1, H2, H3, H4, H5. unfold insert_pick_step.
  destruct (Js.truthy (fighterId s)); [|done].
  by destruct (pick_insert sch (cur acc) (new_pick u l e (cur acc) s)).
Qed.

(** The loop on an array is the loop on the objects before the first
    [null], and it throws when there is a [null]. *)
Lemma insert_loop_objects entries acc :
  insert_loop sch u l e entries acc
  = (insert_objects sch u l e (before_null entries) acc, thrown_by entries).
Proof.
  revert acc. induction entries as [|[s|] entries IH]; intros acc; simpl; auto.
Qed.

End pick_ledger.

Lemma before_null_objects sels : before_null (Some <$> sels) = sels.
Proof.
  induction sels as [|s sels IH]; [done|]. rewrite fmap_cons. simpl. by f_equal.
Qed.

Lemma thrown_by_objects sels : thrown_by (Some <$> sels) = None.
Proof. by induction sels. Qed.

Lemma before_null_app_null pre post :
  before_null ((Some <$> pre) ++ None :: post) = pre.
Proof.
  induction pre as [|s pre IH]; [done|]. rewrite fmap_cons. simpl. by f_equal.
Qed.

Lemma thrown_by_app_null pre post :
  thrown_by ((Some <$> pre) ++ None :: post) = Some null_entry_error.
Proof. by induction pre. Qed.

Lemma before_null_length entries : length (before_null entries) ≤ length entries.
Proof.
  induction entries as [|[s|] entries IH]; simpl; lia.
Qed.

Lemma attempted_length entries : length (attempted entries) ≤ length entries.
Proof.
  unfold attempted, attempted_objects.
  etrans; [apply length_filter|apply before_null_length].
Qed.

Section pick_ledger_claims.

Variable sch : schema.

(** The handler on an array, in a request that passes its first test. *)
Lemma save_picks_run body st entries :
  Js.truthy (sp_userId body) = true →
  Js.truthy (sp_leagueId body) = true →
  Js.truthy (sp_eventId body) = true →
  sp_picks body = PicksArray entries →
  let u := Js.to_string (sp_userId body) in
  let l := Js.to_string (sp_leagueId body) in
  let e := Js.to_string (sp_eventId body) in
  let r := insert_objects sch u l e (before_null entries)
             (loop_start [received_line; deleting_line u e]
                (delete_picks u l e st)) in
  state (save_picks sch body st) = cur r
  ∧ console (save_picks sch body st)
    = out r ++ [match thrown_by entries with
                | Some msg => fatal_line msg
                | None => result_line (savedCount r) (errorCount r)
                end]
  ∧ resp (save_picks sch body st)
    = match thrown_by entries with
      | Some msg => Failure 500 msg
      | None =>
          if bool_decide (savedCount r = 0) && bool_decide (0 < errorCount r)
          then Failure 500 all_failed_error
          else Success {| sp_message := saved_message (savedCount r) (errorCount r);
                          sp_picksCount := savedCount r |}
      end.
Proof.
  intros Hu Hl He Hp. unfold save_picks. rewrite Hp, Hu, Hl, He. simpl.
  rewrite insert_loop_objects. destruct (thrown_by entries); [done|].
  by destruct (bool_decide _ && bool_decide _).
Qed.

(** The handler on a value that cannot be iterated. *)
Lemma save_picks_not_iterable body st :
  Js.truthy (sp_userId body) = true →
  Js.truthy (sp_leagueId body) = true →
  Js.truthy (sp_eventId body) = true →
  sp_picks body = PicksNotIterable →
  let u := Js.to_string (sp_userId body) in
  let l := Js.to_string (sp_leagueId body) in
  let e := Js.to_string (sp_eventId body) in
  state (save_picks sch body st) = delete_picks u l e st
  ∧ console (save_picks sch body st)
    = [received_line; deleting_line u e; fatal_line not_iterable_error]
  ∧ resp (save_picks sch body st) = Failure 500 not_iterable_error.
Proof.
  intros Hu Hl He Hp. unfold save_picks. by rewrite Hp, Hu, Hl, He.
Qed.

(** C1. A submission that passes validation replaces the picks of its
    (user, league, event) scope: afterwards the stored picks of the scope are
    exactly the rows this call inserted, in order, all with [PointsEarned = 0]
    and with fresh [PickID]s; each inserted row stores the fighter of one of
    the submitted selections (all of those the loop reaches when the database
    accepts every row); no earlier pick of the scope is left, and the picks
    outside the scope are the same as before.  This holds as well when a
    [null] element ends the loop early. *)
Theorem save_picks_replaces_scope body st entries :
  Js.truthy (sp_userId body) = true →
  Js.truthy (sp_leagueId body) = true →
  Js.truthy (sp_eventId body) = true →
  sp_picks body = PicksArray entries →
  entries ≠ [] →
  let u := Js.to_string (sp_userId body) in
  let l := Js.to_string (sp_leagueId body) in
  let e := Js.to_string (sp_eventId body) in
  let st' := state (save_picks sch body st) in
  ∃ inserted : list pick,
    picks st' = filter (λ p, ¬ in_scope u l e p) (picks st) ++ inserted
    ∧ filter (in_scope u l e) (picks st') = inserted
    ∧ Forall (λ p, p_PointsEarned p = 0%Z ∧ next_pick_id st ≤ p_PickID p) inserted
    ∧ (p_FighterID <$> inserted) `sublist_of` (stored_fighter <$> attempted entries)
    ∧ ((∀ d p, pick_insert sch d p = None) →
       p_FighterID <$> inserted = stored_fighter <$> attempted entries)
    ∧ (∀ p, p ∈ picks st → in_scope u l e p → p_PickID p < next_pick_id st →
            p ∉ picks st')
    ∧ filter (λ p, ¬ in_scope u l e p) (picks st')
      = filter (λ p, ¬ in_scope u l e p) (picks st).
Proof.
  intros Hu Hl He Hp _ u l e st'.
  destruct (save_picks_run body st entries Hu Hl He Hp) as (Hst & _ & _).
  fold u l e in Hst. subst st'. rewrite Hst.
  destruct (insert_objects_spec sch u l e (before_null entries)
              (loop_start [received_line; deleting_line u e]
                 (delete_picks u l e st)))
    as (ins & Hpk & _ & _ & _ & Hf & Hsub & Hall).
  simpl in Hpk, Hf. exists ins. rewrite Hpk.
  assert (Hscope : Forall (in_scope u l e) ins).
  { eapply Forall_impl; [exact Hf|]. by intros p (?&_). }
  split_and!; auto.
  - rewrite filter_app, (filter_all _ ins Hscope), filter_none; [done|].
    apply Forall_filter_self.
  - eapply Forall_impl; [exact Hf|]. by intros p (_&?&?).
  - intros p _ Hin Hid [Hold|Hnew]%elem_of_app.
    + apply list_elem_of_filter in Hold as [Hno _]. by apply Hno.
    + rewrite Forall_forall in Hf. destruct (Hf p Hnew) as (_&_&?). lia.
  - rewrite filter_app, list_filter_filter.
    rewrite (filter_none _ ins).
    + rewrite app_nil_r. apply list_filter_iff. tauto.
    + eapply Forall_impl; [exact Hscope|]. tauto.
Qed.

(** On an array whose elements are all objects, every selection that carries
    a fighter id is attempted, whatever happened to the selections before it:
    a rejected INSERT adds one to the failure count and leaves the table as
    it was, an accepted one adds one to the saved count and appends its row,
    and in both cases the loop goes on with the rest.  The two counts are
    written to the console, and the answer is the all-picks-failed error
    exactly when at least one selection was attempted and every attempt
    failed; otherwise it is a success that carries the saved count and the
    message built from both counts. *)
Lemma save_picks_partial_failure body st sels :
  Js.truthy (sp_userId body) = true →
  Js.truthy (sp_leagueId body) = true →
  Js.truthy (sp_eventId body) = true →
  sp_picks body = PicksArray (Some <$> sels) →
  sels ≠ [] →
  let u := Js.to_string (sp_userId body) in
  let l := Js.to_string (sp_leagueId body) in
  let e := Js.to_string (sp_eventId body) in
  let start := loop_start [received_line; deleting_line u e]
                 (delete_picks u l e st) in
  let r := insert_objects sch u l e sels start in
  let o := save_picks sch body st in
  (∀ pre s post, sels = pre ++ s :: post → Js.truthy (fighterId s) = true →
     let acc := insert_objects sch u l e pre start in
     let acc' := insert_objects sch u l e (pre ++ [s]) start in
     r = insert_objects sch u l e post acc'
     ∧ match pick_insert sch (cur acc) (new_pick u l e (cur acc) s) with
       | None => savedCount acc' = S (savedCount acc)
                 ∧ errorCount acc' = errorCount acc
                 ∧ picks (cur acc') = picks (cur acc) ++ [new_pick u l e (cur acc) s]
       | Some _ => savedCount acc' = savedCount acc
                   ∧ errorCount acc' = S (errorCount acc)
                   ∧ cur acc' = cur acc
       end)
  ∧ savedCount r + errorCount r = length (attempted_objects sels)
  ∧ state o = cur r
  ∧ last (console o) = Some (result_line (savedCount r) (errorCount r))
  ∧ (resp o = Failure 500 all_failed_error
     ↔ 0 < length (attempted_objects sels) ∧ errorCount r = length (attempted_objects sels))
  ∧ (¬ (0 < length (attempted_objects sels) ∧ errorCount r = length (attempted_objects sels)) →
     resp o = Success {| sp_message := saved_message (savedCount r) (errorCount r);
                         sp_picksCount := savedCount r |}).
Proof.
  intros Hu Hl He Hp _ u l e start r o.
  destruct (save_picks_run body st _ Hu Hl He Hp) as (Hst & Hcon & Hresp).
  rewrite thrown_by_objects in Hcon, Hresp.
  rewrite before_null_objects in Hst, Hcon, Hresp.
  fold u l e start r o in Hst, Hcon, Hresp.
  destruct (insert_objects_spec sch u l e sels start) as (ins & _ & _ & Hc & _).
  fold r in Hc. simpl in Hc.
  split_and!; auto.
  - intros pre s post -> Ht acc acc'. split.
    + subst r acc'. by rewrite <- insert_objects_app, <- app_assoc.
    + subst acc'. rewrite insert_objects_app. fold acc. simpl.
      destruct (pick_insert sch (cur acc) (new_pick u l e (cur acc) s))
        as [err|] eqn:Hi.
      * rewrite (insert_pick_step_failed _ _ _ _ _ _ err Ht Hi). by simpl.
      * rewrite (insert_pick_step_saved _ _ _ _ _ _ Ht Hi). by simpl.
  - rewrite Hcon. apply last_snoc.
  - rewrite Hresp. do 2 case_bool_decide; simpl; split; try done; try lia.
    all: intros [??]; lia.
  - intros Hno. rewrite Hresp. do 2 case_bool_decide; simpl; try done.
    exfalso. apply Hno. lia.
Qed.

(** A [null] element ends the loop: the selections before it are handled as
    on any array, those after it are never inserted, and the answer is the
    500 of the outer [catch] with the message of the [TypeError], whatever
    was saved before.  The DELETE is not undone. *)
Lemma save_picks_null_entry body st pre post :
  Js.truthy (sp_userId body) = true →
  Js.truthy (sp_leagueId body) = true →
  Js.truthy (sp_eventId body) = true →
  sp_picks body = PicksArray ((Some <$> pre) ++ None :: post) →
  let u := Js.to_string (sp_userId body) in
  let l := Js.to_string (sp_leagueId body) in
  let e := Js.to_string (sp_eventId body) in
  let r := insert_objects sch u l e pre
             (loop_start [received_line; deleting_line u e]
                (delete_picks u l e st)) in
  let o := save_picks sch body st in
  resp o = Failure 500 null_entry_error
  ∧ state o = cur r
  ∧ console o = out r ++ [fatal_line null_entry_error].
Proof.
  intros Hu Hl He Hp u l e r o.
  destruct (save_picks_run body st _ Hu Hl He Hp) as (Hst & Hcon & Hresp).
  rewrite thrown_by_app_null in Hcon, Hresp.
  rewrite before_null_app_null in Hst, Hcon.
  by fold u l e r o in Hst, Hcon, Hresp.
Qed.

(** A selection without a truthy [fighterId] leaves the loop variables as
    they are: nothing is inserted and no failure is counted.  So a non-empty
    array of objects none of which carries a fighter id still has the picks
    of the scope deleted, stores nothing, logs no failure and is answered
    with a success whose [picksCount] is 0. *)
Lemma save_picks_skips_missing_fighter body st sels :
  Js.truthy (sp_userId body) = true →
  Js.truthy (sp_leagueId body) = true →
  Js.truthy (sp_eventId body) = true →
  sp_picks body = PicksArray (Some <$> sels) →
  let u := Js.to_string (sp_userId body) in
  let l := Js.to_string (sp_leagueId body) in
  let e := Js.to_string (sp_eventId body) in
  let o := save_picks sch body st in
  (∀ acc s, Js.truthy (fighterId s) = false →
            insert_pick_step sch u l e acc s = acc)
  ∧ (∀ pre s post acc, Js.truthy (fighterId s) = false →
       insert_objects sch u l e (pre ++ s :: post) acc
       = insert_objects sch u l e (pre ++ post) acc)
  ∧ (sels ≠ [] → Forall (λ s, Js.truthy (fighterId s) = false) sels →
     resp o = Success {| sp_message := "Saved 0 picks"; sp_picksCount := 0 |}
     ∧ console o = [received_line; deleting_line u e; result_line 0 0]
     ∧ picks (state o) = filter (λ p, ¬ in_scope u l e p) (picks st)
     ∧ filter (in_scope u l e) (picks (state o)) = []).
Proof.
  intros Hu Hl He Hp u l e o. split_and!.
  - intros acc s. apply insert_pick_step_skip.
  - intros pre s post acc Hs.
    rewrite !insert_objects_app, insert_objects_cons.
    by rewrite insert_pick_step_skip.
  - intros _ Hall.
    destruct (save_picks_run body st _ Hu Hl He Hp) as (Hst & Hcon & Hresp).
    rewrite thrown_by_objects in Hcon, Hresp.
    rewrite before_null_objects in Hst, Hcon, Hresp.
    fold u l e o in Hst, Hcon, Hresp.
    assert (Hloop : ∀ acc, insert_objects sch u l e sels acc = acc).
    { clear -Hall. induction Hall as [|s sels Hs _ IH]; intros acc; [done|].
      rewrite insert_objects_cons, insert_pick_step_skip by done. apply IH. }
    rewrite Hloop in Hst, Hcon, Hresp. simpl in Hst, Hcon, Hresp.
    rewrite Hst, Hcon, Hresp. simpl. split_and!; auto.
    apply filter_none, Forall_filter_self.
Qed.

(** The submission that arrives with an empty list: the test [!picks] lets
    it through, the picks of the scope are deleted, and the answer is a
    success. *)
Lemma save_picks_empty_list body st :
  Js.truthy (sp_userId body) = true →
  Js.truthy (sp_leagueId body) = true →
  Js.truthy (sp_eventId body) = true →
  sp_picks body = PicksArray [] →
  let u := Js.to_string (sp_userId body) in
  let l := Js.to_string (sp_leagueId body) in
  let e := Js.to_string (sp_eventId body) in
  let o := save_picks sch body st in
  resp o = Success {| sp_message := "Saved 0 picks"; sp_picksCount := 0 |}
  ∧ picks (state o) = filter (λ p, ¬ in_scope u l e p) (picks st).
Proof.
  intros Hu Hl He Hp. unfold save_picks. rewrite Hp, Hu, Hl, He. by simpl.
Qed.

(** The request without a [picks] field is refused and nothing is written. *)
Lemma save_picks_missing_list body st :
  sp_picks body = PicksAbsent →
  resp (save_picks sch body st) = Failure 400 "Missing required data"
  ∧ state (save_picks sch body st) = st.
Proof. intros Hp. unfold save_picks. by rewrite Hp. Qed.

(** Whatever the request, the handler either writes nothing or leaves what
    the loop leaves on some list of objects after the DELETE. *)
Lemma save_picks_written body st :
  state (save_picks sch body st) = st
  ∨ ∃ sels,
      Js.truthy (sp_userId body) = true
      ∧ Js.truthy (sp_leagueId body) = true
      ∧ Js.truthy (sp_eventId body) = true
      ∧ sp_picks body ≠ PicksAbsent
      ∧ state (save_picks sch body st)
        = cur (insert_objects sch (Js.to_string (sp_userId body))
                 (Js.to_string (sp_leagueId body))
                 (Js.to_string (sp_eventId body)) sels
                 (loop_start [received_line;
                              deleting_line (Js.to_string (sp_userId body))
                                (Js.to_string (sp_eventId body))]
                    (delete_picks (Js.to_string (sp_userId body))
                       (Js.to_string (sp_leagueId body))
                       (Js.to_string (sp_eventId body)) st))).
Proof.
  destruct (Js.truthy (sp_userId body)) eqn:Hu;
    [|left; unfold save_picks; rewrite Hu; by destruct (sp_picks body)].
  destruct (Js.truthy (sp_leagueId body)) eqn:Hl;
    [|left; unfold save_picks; rewrite Hu, Hl; by destruct (sp_picks body)].
  destruct (Js.truthy (sp_eventId body)) eqn:He;
    [|left; unfold save_picks; rewrite Hu, Hl, He; by destruct (sp_picks body)].
  destruct (sp_picks body) as [|entries|] eqn:Hp.
  - left. unfold save_picks. by rewrite Hp.
  - right. exists (before_null entries).
    destruct (save_picks_run body st entries Hu Hl He Hp) as (Hst & _).
    by split_and!.
  - right. exists [].
    destruct (save_picks_not_iterable body st Hu Hl He Hp) as (Hst & _).
    by split_and!.
Qed.

End pick_ledger_claims.

(** ** Deleting a league *)

Lemma filter_length_zero {A} (P : A → Prop) `{!∀ x, Decision (P x)} (xs : list A) :
  length (filter P xs) = 0 ↔ Forall (λ x, ¬ P x) xs.
Proof.
  split.
  - intros Hlen%nil_length_inv. apply Forall_forall. intros x Hx HP.
    by apply (filter_nil_not_elem_of P xs x).
  - intros Hall. by rewrite filter_none.
Qed.

Lemma set_leagues_same st : set_leagues (leagues st) (next_league_id st) st = st.
Proof. by destruct st. Qed.

(** An id that nothing refers to and that no league has. *)
Lemma delete_league_unreferenced leagueId st :
  leagueId ≠ "" →
  count_members leagueId st = 0 → count_picks leagueId st = 0 →
  ¬ league_exists leagueId st →
  delete_league leagueId st = (Failure 404 "League not found", st).
Proof.
  intros Hid Hm Hp Hno. unfold delete_league. rewrite decide_False by done.
  rewrite Hm, Hp. simpl.
  assert (Hall : Forall (λ lg, ¬ l_LeagueID lg = leagueId) (leagues st)).
  { apply Forall_forall. intros lg Hin Heq. apply Hno.
    apply Exists_exists. by exists lg. }
  rewrite decide_True by (by apply filter_length_zero).
  rewrite filter_all by exact Hall.
  by rewrite set_leagues_same.
Qed.

Lemma delete_league_unknown leagueId st :
  leagueId ≠ "" →
  Forall (λ m, league_exists (m_LeagueID m) st) (memberships st) →
  Forall (λ p, league_exists (p_LeagueID p) st) (picks st) →
  ¬ league_exists leagueId st →
  delete_league leagueId st = (Failure 404 "League not found", st).
Proof.
  intros Hid Hms Hps Hno. apply delete_league_unreferenced; auto.
  - apply filter_length_zero. eapply Forall_impl; [exact Hms|].
    simpl. intros m Hex Heq. apply Hno. by rewrite <- Heq.
  - apply filter_length_zero. eapply Forall_impl; [exact Hps|].
    simpl. intros q Hex Heq. apply Hno. by rewrite <- Heq.
Qed.

(** C7. A league that a membership or a pick refers to is not deleted: the
    answer is the 400 error that names the members or the picks, and the
    database is the one before.  Once no membership and no pick refers to
    the id, deleting an existing league succeeds and removes exactly the
    league rows with that id.  Deleting an id that no league has, and that
    no membership and no pick carries, is answered with 404 and changes
    nothing. *)
Theorem delete_league_guarded leagueId st :
  leagueId ≠ "" →
  (0 < count_members leagueId st ∨ 0 < count_picks leagueId st →
     ((delete_league leagueId st).1 = Failure 400 has_members_error
      ∨ (delete_league leagueId st).1 = Failure 400 has_picks_error)
     ∧ (delete_league leagueId st).2 = st)
  ∧ (count_members leagueId st = 0 → count_picks leagueId st = 0 →
     league_exists leagueId st →
     delete_league leagueId st
     = (Success "League deleted successfully",
        set_leagues (filter (λ lg, l_LeagueID lg ≠ leagueId) (leagues st))
          (next_league_id st) st))
  ∧ (count_members leagueId st = 0 → count_picks leagueId st = 0 →
     ¬ league_exists leagueId st →
     delete_league leagueId st = (Failure 404 "League not found", st)).
Proof.
  intros Hid. split_and!.
  - intros Href. unfold delete_league. rewrite decide_False by done.
    case_bool_decide; [by auto|].
    case_bool_decide; [by auto|]. lia.
  - intros Hm Hp Hex. unfold delete_league. rewrite decide_False by done.
    rewrite Hm, Hp. simpl.
    rewrite decide_False; [done|].
    intros H0. apply filter_length_zero in H0.
    apply Exists_exists in Hex as (lg & Hin & Heq).
    rewrite Forall_forall in H0. by apply (H0 lg).
  - intros Hm Hp Hno. by apply delete_league_unreferenced.
Qed.

(** ** Memberships *)

Section membership.

Variable sch : schema.

Lemma memberships_of_snoc u l row st :
  memberships_of u l (set_memberships (memberships st ++ [row]) st)
  = memberships_of u l st
    ++ (if decide (m_UserID row = u ∧ m_LeagueID row = l) then [row] else []).
Proof.
  unfold memberships_of. simpl. by rewrite filter_app.
Qed.

Lemma at_most_one_snoc row st :
  at_most_one_membership st →
  memberships_of (m_UserID row) (m_LeagueID row) st = [] →
  at_most_one_membership (set_memberships (memberships st ++ [row]) st).
Proof.
  intros Hinv Hnew u l. rewrite memberships_of_snoc, length_app.
  case_decide as Hk; simpl.
  - destruct Hk as [<- <-]. by rewrite Hnew.
  - specialize (Hinv u l). lia.
Qed.

Lemma memberships_of_fresh u st k :
  fresh_league_ids st → next_league_id st ≤ k →
  memberships_of u (pretty k) st = [].
Proof.
  intros Hfresh Hk. destruct (Hfresh k Hk) as [_ Hm].
  unfold memberships_of. apply filter_none.
  eapply Forall_impl; [exact Hm|]. simpl. tauto.
Qed.

Lemma ledger_inv_same_memberships st st' :
  memberships st' = memberships st →
  leagues st' = leagues st →
  next_league_id st' = next_league_id st →
  ledger_inv st → ledger_inv st'.
Proof.
  intros Hm Hl Hn [H1 H2]. split.
  - intros u l. unfold memberships_of. rewrite Hm. apply H1.
  - intros k Hk. rewrite Hm, Hl. apply H2. lia.
Qed.

Lemma register_inv username email password hash st :
  ledger_inv st → ledger_inv (register sch username email password hash st).2.
Proof.
  intros Hinv. unfold register.
  destruct (_ && _); [|done].
  destruct (user_insert sch st _); simpl.
  - repeat case_match; done.
  - by apply (ledger_inv_same_memberships st).
Qed.

Lemma delete_league_inv leagueId st :
  ledger_inv st → ledger_inv (delete_league leagueId st).2.
Proof.
  intros [H1 H2]. unfold delete_league.
  repeat case_match; simpl; try done.
  all: split; [exact H1|].
  all: intros k Hk; destruct (H2 k Hk) as [Hl Hm]; split; [|exact Hm].
  all: simpl; by apply Forall_filter_keeps.
Qed.

Lemma save_picks_inv body st :
  ledger_inv st → ledger_inv (state (save_picks sch body st)).
Proof.
  intros Hinv.
  destruct (save_picks_written sch body st) as [->|(sels & _ & _ & _ & _ & ->)];
    [done|].
  match goal with
  | |- context [insert_objects sch ?u ?l ?e sels ?acc] =>
      destruct (insert_objects_tables sch u l e sels acc) as (_ & Hl & Hm & Hn & _)
  end.
  simpl in Hl, Hm, Hn. by apply (ledger_inv_same_memberships st).
Qed.

Lemma join_league_inv leagueCode userId st :
  ledger_inv st → ledger_inv (join_league sch leagueCode userId st).2.
Proof.
  intros [H1 H2]. unfold join_league.
  destruct (_ && _); [|done].
  destruct (filter _ (leagues st)) as [|lg lgs] eqn:Hlg; [done|].
  destruct (memberships_of _ _ st) as [|m ms] eqn:Hex; [|done].
  destruct (membership_insert sch st _); [done|]. simpl. split.
  - by apply at_most_one_snoc.
  - intros k Hk. destruct (H2 k Hk) as [Hl Hm]. split; [exact Hl|].
    simpl. apply Forall_app. split; [exact Hm|].
    apply Forall_singleton. simpl.
    assert (Hin : lg ∈ filter (λ l, l_LeagueCode l = Js.to_string leagueCode)
                         (leagues st)) by (rewrite Hlg; left).
    apply list_elem_of_filter in Hin as [_ Hin].
    rewrite Forall_forall in Hl. by apply Hl.
Qed.

Lemma create_league_inv name ownerID scoringRules leagueCode random_code st :
  ledger_inv st →
  ledger_inv (create_league sch name ownerID scoringRules leagueCode
                random_code st).2.
Proof.
  intros [H1 H2]. unfold create_league.
  destruct (_ && _); [|done].
  destruct (league_insert sch st _); [done|].
  set (row := {| l_LeagueID := pretty (next_league_id st) |}).
  set (st1 := set_leagues (leagues st ++ [row]) (S (next_league_id st)) st).
  assert (Hfresh1 : fresh_league_ids st1).
  { intros k Hk. simpl in Hk. destruct (H2 k ltac:(lia)) as [Hl Hm].
    split; [|exact Hm]. simpl. apply Forall_app. split; [exact Hl|].
    apply Forall_singleton. simpl. intros Heq%(inj pretty). lia. }
  assert (Hone1 : at_most_one_membership st1) by exact H1.
  destruct (membership_insert sch st1 _); [done|]. cbn [snd]. split.
  - apply (at_most_one_snoc _ st1 Hone1).
    by apply (memberships_of_fresh (Js.to_string ownerID) st (next_league_id st) H2).
  - intros k Hk. simpl in Hk. destruct (Hfresh1 k Hk) as [Hl Hm].
    split; [exact Hl|]. simpl. apply Forall_app. split; [exact Hm|].
    apply Forall_singleton. simpl. intros Heq%(inj pretty). lia.
Qed.

Lemma handle_inv req st : ledger_inv st → ledger_inv (handle sch req st).
Proof.
  destruct req; simpl.
  - apply register_inv.
  - apply create_league_inv.
  - apply delete_league_inv.
  - apply join_league_inv.
  - apply save_picks_inv.
Qed.

Lemma run_inv reqs st : ledger_inv st → ledger_inv (run sch reqs st).
Proof.
  revert st. induction reqs as [|req reqs IH]; intros st Hinv; [done|].
  apply (IH (handle sch req st)). by apply handle_inv.
Qed.

(** C9. From a database with at most one membership for every user and
    league (and whose AUTO_INCREMENT counter for leagues is ahead of the ids
    in use), every request and every sequence of requests leads to a
    database with the same property; and a join request by a user who
    already has a membership in the league that the code designates is
    answered with the 400 error and leaves the database as it was. *)
Theorem membership_stays_unique reqs st :
  ledger_inv st →
  (∀ req, ledger_inv (handle sch req st))
  ∧ at_most_one_membership (run sch reqs st)
  ∧ (∀ leagueCode userId lg lgs,
       Js.truthy leagueCode = true → Js.truthy userId = true →
       filter (λ l, l_LeagueCode l = Js.to_string leagueCode) (leagues st)
         = lg :: lgs →
       memberships_of (Js.to_string userId) (l_LeagueID lg) st ≠ [] →
       join_league sch leagueCode userId st
       = (Failure 400 "You are already a member of this league", st)).
Proof.
  intros Hinv. split_and!.
  - intros req. by apply handle_inv.
  - by apply run_inv.
  - intros leagueCode userId lg lgs Hc Hu Hlg Hex. unfold join_league.
    rewrite Hc, Hu, Hlg. simpl.
    by destruct (memberships_of _ _ st).
Qed.

End membership.

(** ** Fights of an event *)

(** A table filled from rows none of which has the key [__proto__] keeps
    its prototype, and its own properties are those of a finite map. *)
Lemma assign_all_own {A V} (key : A → string) (val : A → V) (xs : list A) :
  Forall (λ x, key x ≠ "__proto__") xs →
  foldl (λ m x, JsObject.assign (key x) (val x) m) JsObject.empty xs
  = {| JsObject.own := foldl (λ m x, <[key x := val x]> m) ∅ xs;
       JsObject.proto := None |}.
Proof.
  induction xs as [|x xs IH] using rev_ind; [done|].
  intros Hall. apply Forall_app in Hall as [Hxs Hx].
  apply Forall_inv in Hx.
  rewrite !foldl_app. simpl. rewrite IH by done.
  unfold JsObject.assign. simpl. by case_decide.
Qed.

(** What such a map holds for a key: nothing when no row has the key, and
    otherwise the value of such a row. *)
Lemma insert_all_lookup {A V} (key : A → string) (val : A → V) (xs : list A) id :
  match foldl (λ m x, <[key x := val x]> m) (∅ : gmap string V) xs !! id with
  | None => Forall (λ x, key x ≠ id) xs
  | Some v => ∃ x, x ∈ xs ∧ key x = id ∧ v = val x
  end.
Proof.
  induction xs as [|x xs IH] using rev_ind.
  - simpl. by rewrite lookup_empty.
  - rewrite foldl_app. simpl.
    destruct (decide (key x = id)) as [Heq|Hne].
    + rewrite Heq, lookup_insert_eq. exists x. split_and!; auto.
      apply elem_of_app. right. by left.
    + rewrite lookup_insert_ne by done.
      destruct (foldl _ _ xs !! id) as [v|].
      * destruct IH as (x' & Hin & Hid & Hv). exists x'. split_and!; auto.
        apply elem_of_app. by left.
      * apply Forall_app. split; [exact IH|]. by apply Forall_singleton.
Qed.

(** Reading such a table: the literal of a row with the key, or what the
    key finds in an object without entries. *)
Lemma read_filled {A V} (fields : V → string → option bool)
    (key : A → string) (val : A → V) (xs : list A) id :
  Forall (λ x, key x ≠ "__proto__") xs →
  let o := foldl (λ m x, JsObject.assign (key x) (val x) m) JsObject.empty xs in
  (∃ x, x ∈ xs ∧ key x = id ∧ JsObject.read fields o id = JsObject.Stored (val x))
  ∨ (Forall (λ x, key x ≠ id) xs
     ∧ JsObject.read fields o id
       = match key_kind id with
         | KeyPrototype => JsObject.ObjectPrototype
         | KeyMethod n => JsObject.Method n
         | KeyOrdinary => JsObject.Missing
         end).
Proof.
  intros Hkeys o. subst o. rewrite assign_all_own by done.
  unfold JsObject.read, key_kind. simpl.
  destruct (decide (id = "__proto__")) as [->|Hid]; [by right|].
  pose proof (insert_all_lookup key val xs id) as Hlook.
  destruct (foldl _ _ xs !! id) as [v|].
  - destruct Hlook as (x & Hin & Hkey & ->). left. by exists x.
  - right. split; [exact Hlook|]. by destruct (JsObject.method id).
Qed.

Lemma corner_shown_lookup fs id :
  Forall (λ f, f_fighter_id f ≠ "__proto__") fs →
  corner_shown fs id
    (JsObject.name (λ v, Js.Str (fi_name v)) (corner (fighter_map fs) id))
    (JsObject.prop (λ v, Js.Str (fi_record v)) (corner (fighter_map fs) id)).
Proof.
  intros Hkeys. unfold corner, fighter_map.
  destruct (read_filled fighter_info_fields f_fighter_id
              (λ f, {| fi_name := f_name f; fi_record := fighter_record f |})
              fs id Hkeys) as [(f & Hin & Hid & ->)|[Hnone ->]].
  - right. by exists f.
  - left. split; [exact Hnone|]. by destruct (key_kind id).
Qed.

Lemma truthy_winner f :
  Js.truthy (Js.of_col (ft_winner_id f))
  = bool_decide (is_Some (recorded_winner f)).
Proof.
  unfold recorded_winner. destruct (ft_winner_id f) as [w|]; simpl.
  - destruct (decide (w = "")) as [->|Hne].
    + rewrite bool_decide_false by (intros H; by apply H).
      symmetry. apply bool_decide_false, is_Some_None.
    + rewrite bool_decide_true by done.
      symmetry. apply bool_decide_true. eauto.
  - done.
Qed.

Lemma recorded_winner_Some f w :
  recorded_winner f = Some w → ft_winner_id f = Some w ∧ w ≠ "".
Proof.
  unfold recorded_winner. destruct (ft_winner_id f) as [w'|]; [|done].
  case_decide; [done|]. by intros [= ->].
Qed.

Lemma map_fight_view fs row :
  Forall (λ f, f_fighter_id f ≠ "__proto__") fs →
  fight_view_of fs row (map_fight (fighter_map fs) row).
Proof.
  intros Hkeys.
  unfold fight_view_of, map_fight. cbn [fv_FightID fv_FighterA_ID fv_FighterB_ID
    fv_FighterAName fv_FighterARecord fv_FighterBName fv_FighterBRecord
    fv_WeightClass fv_Result].
  split_and!; auto using corner_shown_lookup.
  - rewrite truthy_winner.
    destruct (recorded_winner row) as [w|] eqn:Hw.
    + apply recorded_winner_Some in Hw as [Hw _]. rewrite Hw.
      rewrite bool_decide_true by eauto.
      repeat case_decide; simplify_eq; done.
    + rewrite bool_decide_false; [done|]. by apply is_Some_None.
  - destruct (ft_division row) as [d|]; [|done]. unfold Js.or_else. simpl.
    case_decide; subst; [done|]. by rewrite bool_decide_true.
Qed.

(** The answer for an event lists its fights in table order, one view per
    fight.  In each view the result is "Pending" without a winner id, the
    name shown for the red or the blue corner followed by " Win" when the
    winner id is that corner's fighter id, and "Draw/No Contest" when it is
    neither; the name and record of a corner are those of a fighter row with
    the corner's id; when there is none they are "Unknown" and the empty
    record, unless the id is a key that every object answers: then the name
    is that of the inherited function and there is no record.  The record
    of a fighter row is "wins-losses-draws", or "N/A" when the row has no
    [wins] cell; and the weight class is "Catchweight" when the division is
    missing or empty.  No fighter row is taken to have the id [__proto__]. *)
Lemma event_fights_view eventId st :
  Forall (λ f, f_fighter_id f ≠ "__proto__") (fighters st) →
  ∃ data,
    get_event_fights eventId st = Success data
    ∧ Forall2 (fight_view_of (fighters st))
        (filter (λ f, ft_event_id f = eventId) (fights st)) data
    ∧ Forall (λ f, fighter_record f
                   = if decide (f_wins f = Js.Undefined) then "N/A"
                     else Js.to_string (f_wins f) +:+ "-"
                            +:+ Js.to_string (f_losses f) +:+ "-"
                            +:+ Js.to_string (f_draws f))
        (fighters st).
Proof.
  intros Hkeys.
  exists (map_fight (fighter_map (fighters st))
            <$> filter (λ f, ft_event_id f = eventId) (fights st)).
  split_and!.
  - unfold get_event_fights. case_decide as Hlen; [|done].
    apply nil_length_inv in Hlen. by rewrite Hlen.
  - apply Forall2_fmap_r, Forall_Forall2_diag, Forall_forall.
    intros row _. by apply map_fight_view.
  - apply Forall_forall. intros f _. unfold fighter_record.
    by repeat case_decide.
Qed.

(** ** Fighter history *)

Global Instance date_desc_total : Total date_desc.
Proof. intros r1 r2. unfold date_desc. lia. Qed.

Lemma process_fight_result ids r me :
  me ∈ ids →
  me = ft_red_fighter_id (hj_fight r)
  ∨ (me = ft_blue_fighter_id (hj_fight r) ∧ ft_red_fighter_id (hj_fight r) ∉ ids) →
  h_Result (process_fight ids r) = result_relative_to me (hj_fight r)
  ∧ h_Opponent (process_fight ids r)
    = if decide (me = ft_red_fighter_id (hj_fight r))
      then f_name (hj_fb r) else f_name (hj_fa r).
Proof.
  intros Hme Hcorner. unfold process_fight, result_relative_to.
  cbn [h_Result h_Opponent]. rewrite truthy_winner.
  assert (Hside : bool_decide (ft_red_fighter_id (hj_fight r) ∈ ids)
                  = bool_decide (me = ft_red_fighter_id (hj_fight r))).
  { destruct Hcorner as [->|[-> Hno]].
    - by rewrite !bool_decide_true.
    - rewrite bool_decide_false by done.
      case_bool_decide as Heq; [|done]. rewrite <- Heq in Hno. done. }
  rewrite Hside. clear Hside. split.
  - destruct (recorded_winner (hj_fight r)) as [w|] eqn:Hw.
    + apply recorded_winner_Some in Hw as [Hw _]. rewrite Hw.
      rewrite bool_decide_true by eauto.
      destruct Hcorner as [->|[-> Hno]].
      * rewrite bool_decide_true by done.
        repeat case_decide; simplify_eq; done.
      * case_bool_decide as Heq.
        -- rewrite <- Heq. repeat case_decide; simplify_eq; done.
        -- repeat case_decide; simplify_eq; done.
    + rewrite bool_decide_false by apply is_Some_None.
      destruct (decide (ft_method (hj_fight r) = Some "Draw")) as [Hd|Hd].
      * rewrite decide_True by auto. by rewrite Hd.
      * destruct (decide (ft_method (hj_fight r) = Some "No Contest")) as [Hn|Hn].
        -- rewrite decide_True by auto. by rewrite Hn.
        -- rewrite decide_False; [done|]. by intros [?|?].
  - by case_bool_decide; case_decide.
Qed.

Lemma history_join_rows_corner ids st r :
  r ∈ history_join_rows ids st →
  ft_red_fighter_id (hj_fight r) ∈ ids ∨ ft_blue_fighter_id (hj_fight r) ∈ ids.
Proof.
  unfold history_join_rows.
  intros (f & Hr & _)%list_elem_of_bind.
  apply list_elem_of_bind in Hr as (e & Hr & _).
  apply list_elem_of_bind in Hr as (fa & Hr & _).
  apply list_elem_of_bind in Hr as (fb & Hr & _).
  case_decide as Hc; [|by apply elem_of_nil in Hr].
  apply list_elem_of_singleton in Hr as ->. done.
Qed.

Section history_claims.

Variable like : string → string → bool.

(** C5, as the handler has it.  The answer lists the joined fights by
    descending event date.  In each record the result is worded from the
    side of one fighter: for a matched fighter in the red corner, and for a
    matched fighter in the blue corner when the red-corner fighter is not
    matched, the result is "Win" when the recorded winner is that fighter,
    "Loss" when it is somebody else, the method when no winner is recorded
    and the method is "Draw" or "No Contest", and "Pending" otherwise, and
    the opponent is the name of the other corner.  Every listed fight has a
    matched fighter in one of its corners. *)
Theorem history_result_relative q st :
  q ≠ "" →
  matching_fighters like q st ≠ [] →
  let ids := f_fighter_id <$> matching_fighters like q st in
  ∃ rows,
    get_fighter_history like (Some q) st
    = Success {| h_data := process_fight ids <$> rows;
                 h_fighters := Some ((λ f, (f_fighter_id f, f_name f))
                                       <$> matching_fighters like q st);
                 h_message := None |}
    ∧ rows ≡ₚ history_join_rows ids st
    ∧ Sorted newest_first (process_fight ids <$> rows)
    ∧ Forall (λ r,
        (ft_red_fighter_id (hj_fight r) ∈ ids
         ∨ ft_blue_fighter_id (hj_fight r) ∈ ids)
        ∧ ∀ me, me ∈ ids →
            me = ft_red_fighter_id (hj_fight r)
            ∨ (me = ft_blue_fighter_id (hj_fight r)
               ∧ ft_red_fighter_id (hj_fight r) ∉ ids) →
            h_Result (process_fight ids r) = result_relative_to me (hj_fight r)
            ∧ h_Opponent (process_fight ids r)
              = if decide (me = ft_red_fighter_id (hj_fight r))
                then f_name (hj_fb r) else f_name (hj_fa r)) rows.
Proof.
  intros Hq Hmatch ids.
  exists (merge_sort date_desc (history_join_rows ids st)). split_and!.
  - unfold get_fighter_history. rewrite decide_False by done.
    fold ids. by destruct (matching_fighters like q st).
  - apply merge_sort_Permutation.
  - apply Sorted_fmap with (R1 := date_desc).
    + by intros r1 r2.
    + apply Sorted_merge_sort. apply _.
  - apply Forall_forall. intros r Hr.
    rewrite merge_sort_Permutation in Hr. split.
    + by apply (history_join_rows_corner ids st).
    + intros me. apply process_fight_result.
Qed.

(** C8. A query that matches no fighter is answered with a success whose
    data is empty and whose message is "No fighters found".  A query that
    matches fighters none of whom has a fight is answered with a success
    whose data is empty as well, but without a message and with the matched
    fighters: the two answers differ. *)
Theorem history_no_match q st :
  q ≠ "" →
  (matching_fighters like q st = [] →
   get_fighter_history like (Some q) st
   = Success {| h_data := []; h_fighters := None;
                h_message := Some "No fighters found" |})
  ∧ (matching_fighters like q st ≠ [] →
     history_join_rows (f_fighter_id <$> matching_fighters like q st) st = [] →
     get_fighter_history like (Some q) st
     = Success {| h_data := [];
                  h_fighters := Some ((λ f, (f_fighter_id f, f_name f))
                                        <$> matching_fighters like q st);
                  h_message := None |}).
Proof.
  intros Hq. unfold get_fighter_history. rewrite decide_False by done.
  split.
  - by intros ->.
  - intros Hne Hrows. rewrite Hrows.
    by destruct (matching_fighters like q st).
Qed.

End history_claims.

(** ** Leaderboard *)

Lemma leaderboard_join_users leagueId st :
  leaderboard_join leagueId st = users st ≫= user_rows leagueId st.
Proof. reflexivity. Qed.

Lemma bind_guard {A C} (xs : list A) (c : Prop) `{!Decision c} (g : A → C) :
  (xs ≫= λ x, if decide c then [g x] else []) = if decide c then g <$> xs else [].
Proof.
  case_decide.
  - induction xs as [|x xs IH]; [done|]. rewrite bind_cons, fmap_cons, IH. done.
  - induction xs as [|x xs IH]; [done|]. by rewrite bind_cons, IH.
Qed.

Lemma bind_filter {A B} (P : A → Prop) `{!∀ x, Decision (P x)}
    (g : A → list B) (xs : list A) :
  (xs ≫= λ x, if decide (P x) then g x else []) = filter P xs ≫= g.
Proof.
  induction xs as [|x xs IH]; [done|].
  rewrite bind_cons, filter_cons, IH. case_decide; [|done].
  by rewrite bind_cons.
Qed.

Lemma left_join_picks_cells leagueId u ps :
  omap id ((fmap p_PointsEarned) <$> left_join_picks leagueId u ps)
  = p_PointsEarned
      <$> filter (λ p, u_UserID u = p_UserID p ∧ p_LeagueID p = leagueId) ps.
Proof.
  unfold left_join_picks.
  destruct (filter _ ps) as [|q qs]; [done|].
  generalize (q :: qs). intros l. induction l as [|x l IH]; [done|].
  csimpl. by f_equal.
Qed.

Lemma left_join_picks_nonempty leagueId u ps : left_join_picks leagueId u ps ≠ [].
Proof. unfold left_join_picks. by destruct (filter _ ps). Qed.

Lemma coalesce_sum cells : coalesce (sql_sum cells) 0 = foldr Z.add 0%Z (omap id cells).
Proof. unfold sql_sum. by destruct (omap id cells). Qed.

(** The rows of a user: one per pick of the league (or a single row without
    pick) for each membership row of the user in the league. *)
Lemma user_rows_memberships leagueId st u :
  user_rows leagueId st u
  = memberships_of (u_UserID u) leagueId st
      ≫= λ m, (λ p, (u, m, p)) <$> left_join_picks leagueId u (picks st).
Proof.
  unfold user_rows, memberships_of.
  trans (filter (λ m, m_LeagueID m = leagueId)
           (filter (λ m, u_UserID u = m_UserID m) (memberships st))
         ≫= λ m, (λ p, (u, m, p)) <$> left_join_picks leagueId u (picks st)).
  - rewrite <- (bind_filter (λ m, m_LeagueID m = leagueId)).
    apply list_bind_ext; [|done]. intros m.
    by rewrite (bind_guard _ (m_LeagueID m = leagueId) (λ p, (u, m, p))).
  - f_equal. rewrite list_filter_filter. apply list_filter_iff.
    intros m. split; intros [? ?]; auto.
Qed.

Lemma user_rows_user leagueId st u :
  Forall (λ r, r.1.1 = u) (user_rows leagueId st u).
Proof.
  rewrite user_rows_memberships. apply Forall_bind, Forall_forall.
  intros m _. apply Forall_fmap, Forall_forall. by intros p _.
Qed.

Lemma user_rows_nil leagueId st u :
  user_rows leagueId st u ≠ [] ↔ is_member leagueId st u.
Proof.
  rewrite user_rows_memberships. unfold is_member.
  destruct (memberships_of (u_UserID u) leagueId st) as [|m ms]; [done|].
  rewrite bind_cons. split; [done|]. intros _ Hnil.
  apply app_eq_nil in Hnil as [Hnil _]. apply fmap_nil_inv in Hnil.
  by apply (left_join_picks_nonempty leagueId u (picks st)).
Qed.

Lemma user_rows_points leagueId st u :
  at_most_one_membership st → is_member leagueId st u →
  coalesce (sql_sum (points_cell <$> user_rows leagueId st u)) 0
  = user_points leagueId st u.
Proof.
  intros Hone Hmem. rewrite coalesce_sum, user_rows_memberships.
  unfold is_member in Hmem. specialize (Hone (u_UserID u) leagueId).
  destruct (memberships_of (u_UserID u) leagueId st) as [|m [|m' ms]];
    [done| |simpl in Hone; lia].
  rewrite bind_singleton, <- list_fmap_compose.
  unfold user_points, league_picks. by rewrite <- left_join_picks_cells.
Qed.

Section grouping.

Variable rows_of : user → list (user * membership * option pick).
Hypothesis rows_of_user : ∀ u, Forall (λ r, r.1.1 = u) (rows_of u).

Lemma remove_dups_block {K} `{!EqDecision K} (k : K) (xs rest : list K) :
  Forall (λ x, x = k) xs → k ∉ rest →
  remove_dups (xs ++ rest)
  = (if decide (xs = []) then [] else [k]) ++ remove_dups rest.
Proof.
  intros Hxs Hk. induction Hxs as [|x xs -> Hxs IH]; [done|].
  rewrite decide_False by done.
  change ((k :: xs) ++ rest) with (k :: (xs ++ rest)).
  cbn [remove_dups]. destruct (decide_rel elem_of k (xs ++ rest)) as [Hin|Hno].
  - destruct xs as [|x' xs].
    + by destruct Hk.
    + rewrite IH. by rewrite decide_False.
  - destruct xs as [|x' xs]; [done|].
    exfalso. apply Hno. apply Forall_cons in Hxs as [-> _]. left.
Qed.

Lemma key_not_in_other_rows u us :
  u_UserID u ∉ u_UserID <$> us →
  key_of u ∉ group_key <$> (us ≫= rows_of).
Proof.
  intros Hid (r & Hk & Hr)%list_elem_of_fmap.
  apply list_elem_of_bind in Hr as (u' & Hr & Hu').
  pose proof (rows_of_user u') as Hall. rewrite Forall_forall in Hall.
  specialize (Hall r Hr). apply Hid. apply list_elem_of_fmap.
  exists u'. split; [|done].
  unfold key_of, group_key in Hk. rewrite Hall in Hk. congruence.
Qed.

Lemma group_keys_of_bind us :
  NoDup (u_UserID <$> us) →
  remove_dups (group_key <$> (us ≫= rows_of))
  = key_of <$> filter (λ u, rows_of u ≠ []) us.
Proof.
  induction us as [|u us IH]; [done|].
  rewrite fmap_cons. intros [Hu Hnd]%NoDup_cons.
  rewrite bind_cons, fmap_app, (remove_dups_block (key_of u)).
  - rewrite IH by done. rewrite filter_cons.
    case_decide as Hk; case_decide as Hr; try done.
    + apply fmap_nil_inv in Hk. done.
    + exfalso. apply Hk. by rewrite Hr.
  - apply Forall_fmap. eapply Forall_impl; [apply rows_of_user|].
    intros r Hr. simpl. unfold group_key, key_of. by rewrite Hr.
  - by apply key_not_in_other_rows.
Qed.

Lemma group_rows_of_bind us u :
  NoDup (u_UserID <$> us) → u ∈ us →
  filter (λ r, group_key r = key_of u) (us ≫= rows_of) = rows_of u.
Proof.
  induction us as [|u' us IH]; [by intros _ ?%elem_of_nil|].
  rewrite fmap_cons. intros [Hu' Hnd]%NoDup_cons Hin.
  rewrite bind_cons, filter_app.
  assert (Hother : ∀ v, u_UserID v ∉ u_UserID <$> us →
            filter (λ r, group_key r = key_of v) (us ≫= rows_of) = []).
  { intros v Hv. apply filter_none, Forall_forall. intros r Hr Hk.
    apply (key_not_in_other_rows v us Hv).
    apply list_elem_of_fmap. by exists r. }
  apply elem_of_cons in Hin as [->|Hin].
  - rewrite Hother by done. rewrite app_nil_r. apply filter_all.
    eapply Forall_impl; [apply rows_of_user|].
    intros r Hr. simpl. unfold group_key, key_of. by rewrite Hr.
  - rewrite IH by done. rewrite filter_none; [done|].
    eapply Forall_impl; [apply rows_of_user|].
    intros r Hr Hk. simpl in Hr. apply Hu'. apply list_elem_of_fmap.
    exists u. split; [|done].
    unfold group_key, key_of in Hk. rewrite Hr in Hk. congruence.
Qed.

End grouping.

(** The groups of the query: one per user who is a member of the league,
    with the sum of the points of the user's picks in the league. *)
Lemma leaderboard_groups_members leagueId st :
  NoDup (u_UserID <$> users st) →
  at_most_one_membership st →
  leaderboard_groups leagueId st
  = leaderboard_row_of leagueId st <$> filter (is_member leagueId st) (users st).
Proof.
  intros Hnd Hone. unfold leaderboard_groups. cbv zeta.
  rewrite leaderboard_join_users.
  rewrite (group_keys_of_bind _ (user_rows_user leagueId st)) by done.
  rewrite (list_filter_iff _ (is_member leagueId st))
    by (intros u; apply user_rows_nil).
  rewrite <- list_fmap_compose. apply Forall_fmap_ext, Forall_forall.
  intros u [Hmem Hin]%list_elem_of_filter. simpl.
  rewrite (group_rows_of_bind _ (user_rows_user leagueId st)) by done.
  rewrite user_rows_points by done. done.
Qed.

Section leaderboard_claims.

Context (name_le : relation string) `{!RelDecision name_le}.
Context `{!Total name_le} `{!Transitive name_le}.

Global Instance leaderboard_order_total : Total (leaderboard_order name_le).
Proof.
  intros r1 r2. unfold leaderboard_order.
  destruct (Z.lt_trichotomy (lb_TotalPoints r1) (lb_TotalPoints r2))
    as [?|[Heq|?]]; [by auto| |by auto].
  destruct (total name_le (lb_Username r1) (lb_Username r2)); auto.
Qed.

Global Instance leaderboard_order_trans : Transitive (leaderboard_order name_le).
Proof.
  intros r1 r2 r3. unfold leaderboard_order.
  intros [?|[? ?]] [?|[? ?]]; try (left; lia).
  right. split; [lia|]. by etrans.
Qed.

(** C3. For a database in which user ids are unique and no user has two
    memberships in one league, the leaderboard of a league has exactly one
    row for each user who is a member of it; the row carries the sum of
    [PointsEarned] over the user's picks in that league, which is 0 for a
    member without picks; and the rows are in the order of descending total,
    ties by ascending username. *)
Theorem leaderboard_rows_sorted leagueId st :
  leagueId ≠ "" →
  NoDup (u_UserID <$> users st) →
  at_most_one_membership st →
  ∃ data,
    get_leaderboard name_le leagueId st = Success data
    ∧ data ≡ₚ leaderboard_row_of leagueId st
               <$> filter (is_member leagueId st) (users st)
    ∧ StronglySorted (leaderboard_order name_le) data
    ∧ Forall (λ u, is_member leagueId st u → league_picks leagueId st u = [] →
                   {| lb_UserID := u_UserID u; lb_Username := u_Username u;
                      lb_Email := u_Email u; lb_TotalPoints := 0 |} ∈ data)
        (users st).
Proof.
  intros Hid Hnd Hone.
  exists (merge_sort (leaderboard_order name_le) (leaderboard_groups leagueId st)).
  assert (Hperm : merge_sort (leaderboard_order name_le)
                    (leaderboard_groups leagueId st)
                  ≡ₚ leaderboard_row_of leagueId st
                       <$> filter (is_member leagueId st) (users st)).
  { rewrite merge_sort_Permutation. by rewrite leaderboard_groups_members. }
  split_and!.
  - unfold get_leaderboard. by rewrite decide_False.
  - exact Hperm.
  - apply StronglySorted_merge_sort; apply _.
  - apply Forall_forall. intros u Hin Hmem Hnone. rewrite Hperm.
    apply list_elem_of_fmap. exists u. split.
    + unfold leaderboard_row_of, user_points. by rewrite Hnone.
    + by apply list_elem_of_filter.
Qed.

End leaderboard_claims.

(** ** Resolved references are kept *)

Section references.

Variable sch : schema.
Hypothesis keys : enforces_pick_league sch.

Lemma league_exists_leagues leagueId st st' :
  leagues st ⊆ leagues st' → league_exists leagueId st → league_exists leagueId st'.
Proof.
  intros Hsub (lg & Hin & Heq)%Exists_exists. apply Exists_exists.
  exists lg. split; [by apply Hsub|done].
Qed.

Lemma references_resolved_leagues st st' :
  leagues st ⊆ leagues st' →
  memberships st' = memberships st → picks st' = picks st →
  references_resolved st → references_resolved st'.
Proof.
  intros Hsub Hm Hp [H1 H2]. split.
  - rewrite Hm. eapply Forall_impl; [exact H1|].
    intros m. by apply league_exists_leagues.
  - rewrite Hp. eapply Forall_impl; [exact H2|].
    intros q. by apply league_exists_leagues.
Qed.

Lemma register_refs username email password hash st :
  references_resolved st →
  references_resolved (register sch username email password hash st).2.
Proof.
  intros Href. unfold register.
  destruct (_ && _); [|done].
  destruct (user_insert sch st _); simpl; [by repeat case_match|].
  by apply (references_resolved_leagues st).
Qed.

Lemma create_league_refs name ownerID scoringRules leagueCode random_code st :
  references_resolved st →
  references_resolved (create_league sch name ownerID scoringRules leagueCode
                         random_code st).2.
Proof.
  intros Href. unfold create_league.
  destruct (_ && _); [|done].
  destruct (league_insert sch st _); [done|].
  set (row := {| l_LeagueID := pretty (next_league_id st) |}).
  set (st1 := set_leagues (leagues st ++ [row]) (S (next_league_id st)) st).
  assert (Href1 : references_resolved st1).
  { apply (references_resolved_leagues st); auto.
    simpl. intros lg ?. apply elem_of_app. by left. }
  destruct (membership_insert sch st1 _); [done|]. cbn [snd].
  destruct Href1 as [H1 H2]. split; [|exact H2].
  simpl. apply Forall_app. split; [exact H1|].
  apply Forall_singleton. apply Exists_exists. exists row.
  split; [|done]. simpl. apply elem_of_app. right. left.
Qed.

Lemma delete_league_refs leagueId st :
  references_resolved st → references_resolved (delete_league leagueId st).2.
Proof.
  intros [H1 H2]. unfold delete_league.
  case_decide; [done|].
  case_bool_decide as Hm; [done|].
  case_bool_decide as Hp; [done|].
  assert (Hkeep : ∀ id, id ≠ leagueId → league_exists id st →
            Exists (λ lg, l_LeagueID lg = id)
              (filter (λ lg, l_LeagueID lg ≠ leagueId) (leagues st))).
  { intros id Hne (lg & Hin & Heq)%Exists_exists. apply Exists_exists.
    exists lg. split; [|done]. apply list_elem_of_filter. split; [|done].
    by rewrite Heq. }
  assert (Hm0 : Forall (λ m, ¬ m_LeagueID m = leagueId) (memberships st)).
  { apply (filter_length_zero (λ m, m_LeagueID m = leagueId)).
    unfold count_members in Hm. lia. }
  assert (Hp0 : Forall (λ q, ¬ p_LeagueID q = leagueId) (picks st)).
  { apply (filter_length_zero (λ q, p_LeagueID q = leagueId)).
    unfold count_picks in Hp. lia. }
  assert (Hres : references_resolved
            (set_leagues (filter (λ lg, l_LeagueID lg ≠ leagueId) (leagues st))
               (next_league_id st) st)).
  { split; simpl; apply Forall_forall.
    - intros m Hin. rewrite Forall_forall in H1, Hm0.
      apply Hkeep; [by apply Hm0|by apply H1].
    - intros q Hin. rewrite Forall_forall in H2, Hp0.
      apply Hkeep; [by apply Hp0|by apply H2]. }
  by case_decide.
Qed.

Lemma join_league_refs leagueCode userId st :
  references_resolved st →
  references_resolved (join_league sch leagueCode userId st).2.
Proof.
  intros [H1 H2]. unfold join_league.
  destruct (_ && _); [|done].
  destruct (filter _ (leagues st)) as [|lg lgs] eqn:Hlg; [done|].
  destruct (memberships_of _ _ st); [|done].
  destruct (membership_insert sch st _); [done|]. simpl.
  split; [|exact H2]. simpl. apply Forall_app. split; [exact H1|].
  apply Forall_singleton. apply Exists_exists. exists lg. split; [|done].
  assert (Hin : lg ∈ filter (λ l, l_LeagueCode l = Js.to_string leagueCode)
                       (leagues st)) by (rewrite Hlg; left).
  by apply list_elem_of_filter in Hin as [_ Hin].
Qed.

Lemma insert_objects_refs u l e sels acc :
  references_resolved (cur acc) →
  references_resolved (cur (insert_objects sch u l e sels acc)).
Proof.
  revert acc. induction sels as [|s sels IH]; intros acc Href; [done|].
  rewrite insert_objects_cons. apply IH. unfold insert_pick_step.
  destruct (Js.truthy (fighterId s)); [|done].
  destruct (pick_insert sch (cur acc) (new_pick u l e (cur acc) s))
    as [err|] eqn:Hi; [done|].
  apply keys in Hi.
  destruct Href as [H1 H2]. split; [exact H1|].
  simpl. apply Forall_app. split; [exact H2|]. by apply Forall_singleton.
Qed.

Lemma save_picks_refs body st :
  references_resolved st →
  references_resolved (state (save_picks sch body st)).
Proof.
  intros [H1 H2].
  destruct (save_picks_written sch body st) as [->|(sels & _ & _ & _ & _ & ->)];
    [done|].
  apply insert_objects_refs. split; [exact H1|]. simpl.
  by apply Forall_filter_keeps.
Qed.

(** With the foreign key of [pick] in force, every request leads from a
    database with resolved references to one with resolved references. *)
Lemma handle_refs req st :
  references_resolved st → references_resolved (handle sch req st).
Proof.
  destruct req; simpl.
  - apply register_refs.
  - apply create_league_refs.
  - apply delete_league_refs.
  - apply join_league_refs.
  - apply save_picks_refs.
Qed.

End references.

Lemma pick_league_key_enforced : enforces_pick_league pick_league_key.
Proof. intros st q. simpl. by case_decide. Qed.

Lemma run_pick_league_key reqs st :
  references_resolved st → references_resolved (run pick_league_key reqs st).
Proof.
  revert st. induction reqs as [|req reqs IH]; intros st Href; [done|].
  apply (IH (handle pick_league_key req st)).
  by apply handle_refs; [apply pick_league_key_enforced|].
Qed.

(** * Further properties of the handlers *)

(** ** What the write handlers leave alone *)

Ltac handler_cases :=
  repeat (first [ done | case_match | case_decide | case_bool_decide
                | progress simpl in * ]).

Section frames.

Variable sch : schema.

Lemma insert_objects_reference u l e sels acc :
  let r := insert_objects sch u l e sels acc in
  events (cur r) = events (cur acc)
  ∧ fighters (cur r) = fighters (cur acc)
  ∧ fights (cur r) = fights (cur acc).
Proof.
  revert acc. induction sels as [|s sels IH]; intros acc; simpl; [done|].
  destruct (IH (insert_pick_step sch u l e acc s)) as (H1 & H2 & H3).
  rewrite H1, H2, H3. unfold insert_pick_step.
  destruct (Js.truthy (fighterId s)); [|done].
  by destruct (pick_insert sch (cur acc) (new_pick u l e (cur acc) s)).
Qed.

Lemma save_picks_state body st :
  state (save_picks sch body st) = st
  ∨ ∃ sels,
      sp_picks body ≠ PicksAbsent
      ∧ Js.truthy (sp_userId body) = true
      ∧ Js.truthy (sp_leagueId body) = true
      ∧ Js.truthy (sp_eventId body) = true
      ∧ state (save_picks sch body st)
        = cur (insert_objects sch (Js.to_string (sp_userId body))
                 (Js.to_string (sp_leagueId body))
                 (Js.to_string (sp_eventId body)) sels
                 (loop_start [received_line;
                              deleting_line (Js.to_string (sp_userId body))
                                (Js.to_string (sp_eventId body))]
                    (delete_picks (Js.to_string (sp_userId body))
                       (Js.to_string (sp_leagueId body))
                       (Js.to_string (sp_eventId body)) st))).
Proof.
  destruct (save_picks_written sch body st) as [->|(sels & ? & ? & ? & ? & ->)];
    [by left|].
  right. by exists sels.
Qed.

Lemma handle_reference req st :
  events (handle sch req st) = events st
  ∧ fighters (handle sch req st) = fighters st
  ∧ fights (handle sch req st) = fights st.
Proof.
  destruct req; simpl.
  - unfold register. handler_cases.
  - unfold create_league, create_league_error. handler_cases.
  - unfold delete_league. handler_cases.
  - unfold join_league. handler_cases.
  - destruct (save_picks_state body st) as [->|(sels & _ & _ & _ & _ & ->)]; [done|].
    apply insert_objects_reference.
Qed.

Lemma run_reference reqs st :
  events (run sch reqs st) = events st
  ∧ fighters (run sch reqs st) = fighters st
  ∧ fights (run sch reqs st) = fights st.
Proof.
  revert st. induction reqs as [|req reqs IH]; intros st; [done|].
  simpl. destruct (IH (handle sch req st)) as (H1 & H2 & H3).
  destruct (handle_reference req st) as (G1 & G2 & G3).
  unfold run in *. by rewrite H1, H2, H3.
Qed.

(** X1. The tables [event], [fighter] and [fight] are the same after any
    sequence of write requests, and so are the answers of the three routes
    that read only these tables. *)
Theorem reference_data_read_only reqs st :
  events (run sch reqs st) = events st
  ∧ fighters (run sch reqs st) = fighters st
  ∧ fights (run sch reqs st) = fights st
  ∧ get_events (run sch reqs st) = get_events st
  ∧ (∀ eventId, get_event_fights eventId (run sch reqs st)
                = get_event_fights eventId st)
  ∧ (∀ like name, get_fighter_history like name (run sch reqs st)
                  = get_fighter_history like name st).
Proof.
  destruct (run_reference reqs st) as (H1 & H2 & H3). split_and!; auto.
  - unfold get_events. by rewrite H1.
  - intros eventId. unfold get_event_fights. by rewrite H2, H3.
  - intros like name. unfold get_fighter_history, matching_fighters,
      history_join_rows. by rewrite H1, H2, H3.
Qed.

End frames.

(** ** Row ids *)

Lemma NoDup_fmap_filter {A B} (f : A → B) (P : A → Prop)
    `{!∀ x, Decision (P x)} (l : list A) :
  NoDup (f <$> l) → NoDup (f <$> filter P l).
Proof.
  induction l as [|x l IH]; [done|].
  rewrite fmap_cons. intros [Hx Hl]%NoDup_cons.
  rewrite filter_cons. case_decide; [|by apply IH].
  rewrite fmap_cons. apply NoDup_cons. split; [|by apply IH].
  intros (y & Hy & Hin)%list_elem_of_fmap. apply Hx.
  apply list_elem_of_fmap. exists y. split; [done|].
  by apply list_elem_of_filter in Hin as [_ ?].
Qed.

Section row_ids.

Variable sch : schema.

Lemma user_ids_inv_same st st' :
  users st' = users st → next_user_id st' = next_user_id st →
  user_ids_inv st → user_ids_inv st'.
Proof. intros Hu Hn [H1 H2]. split; rewrite Hu; [done|]. by rewrite Hn. Qed.

Lemma register_user_ids username email password hash st :
  user_ids_inv st →
  user_ids_inv (register sch username email password hash st).2.
Proof.
  intros [Hnd Hfresh]. unfold register.
  destruct (_ && _); [|done].
  destruct (user_insert sch st _); simpl; [by repeat case_match|].
  split; simpl.
  - rewrite fmap_app. apply NoDup_app. split_and!; [done| |apply NoDup_singleton].
    intros id Hin ->%list_elem_of_singleton.
    apply list_elem_of_fmap in Hin as (u & Hid & Hin).
    pose proof (Hfresh (next_user_id st) (le_n _)) as Hall.
    rewrite Forall_forall in Hall. by apply (Hall u).
  - intros k Hk. apply Forall_app. split.
    + apply Hfresh. lia.
    + apply Forall_singleton. simpl. intros Heq%(inj pretty). lia.
Qed.

Lemma handle_user_ids req st :
  user_ids_inv st → user_ids_inv (handle sch req st).
Proof.
  destruct req; simpl.
  - apply register_user_ids.
  - apply user_ids_inv_same;
      unfold create_league, create_league_error; handler_cases.
  - apply user_ids_inv_same; unfold delete_league; handler_cases.
  - apply user_ids_inv_same; unfold join_league; handler_cases.
  - destruct (save_picks_state sch body st) as [->|(sels & _ & _ & _ & _ & ->)];
      [done|].
    match goal with
    | |- context [insert_objects sch ?u ?l ?e sels ?acc] =>
        destruct (insert_objects_tables sch u l e sels acc) as (Hu & _ & _ & _ & Hn)
    end.
    by apply user_ids_inv_same.
Qed.

(** X2. No two users ever share an id: the property is kept by every sequence
    of write requests, whatever the database answers to the INSERTs. *)
Theorem user_ids_stay_unique reqs st :
  user_ids_inv st →
  user_ids_inv (run sch reqs st)
  ∧ NoDup (u_UserID <$> users (run sch reqs st)).
Proof.
  intros Hinv. assert (Hrun : user_ids_inv (run sch reqs st)).
  { revert st Hinv. induction reqs as [|req reqs IH]; intros st Hinv; [done|].
    apply (IH (handle sch req st)). by apply handle_user_ids. }
  split; [exact Hrun|]. by destruct Hrun.
Qed.

Lemma pick_ids_inv_same st st' :
  picks st' = picks st → next_pick_id st' = next_pick_id st →
  pick_ids_inv st → pick_ids_inv st'.
Proof. intros Hp Hn [H1 H2]. split; rewrite Hp; [done|]. by rewrite Hn. Qed.

Lemma insert_pick_step_ids u l e acc s :
  pick_ids_inv (cur acc) → pick_ids_inv (cur (insert_pick_step sch u l e acc s)).
Proof.
  intros [Hnd Hlt]. unfold insert_pick_step.
  destruct (Js.truthy (fighterId s)); [|done].
  destruct (pick_insert sch (cur acc) _); [done|]. simpl. split; simpl.
  - rewrite fmap_app. apply NoDup_app. split_and!; [done| |apply NoDup_singleton].
    intros id Hin ->%list_elem_of_singleton.
    apply list_elem_of_fmap in Hin as (q & Hid & Hin).
    rewrite Forall_forall in Hlt. specialize (Hlt q Hin). simpl in Hid. lia.
  - apply Forall_app. split.
    + eapply Forall_impl; [exact Hlt|]. simpl. lia.
    + apply Forall_singleton. simpl. lia.
Qed.

Lemma insert_objects_ids u l e sels acc :
  pick_ids_inv (cur acc) → pick_ids_inv (cur (insert_objects sch u l e sels acc)).
Proof.
  revert acc. induction sels as [|s sels IH]; intros acc Hinv; [done|].
  rewrite insert_objects_cons. by apply IH, insert_pick_step_ids.
Qed.

Lemma handle_pick_ids req st :
  pick_ids_inv st → pick_ids_inv (handle sch req st).
Proof.
  destruct req; simpl.
  - apply pick_ids_inv_same; unfold register; handler_cases.
  - apply pick_ids_inv_same;
      unfold create_league, create_league_error; handler_cases.
  - apply pick_ids_inv_same; unfold delete_league; handler_cases.
  - apply pick_ids_inv_same; unfold join_league; handler_cases.
  - intros [Hnd Hlt].
    destruct (save_picks_state sch body st) as [->|(sels & _ & _ & _ & _ & ->)];
      [done|].
    apply insert_objects_ids. split; simpl.
    + by apply NoDup_fmap_filter.
    + by apply Forall_filter_keeps.
Qed.

(** X3. [PickID] stays a key of the pick table: after any sequence of write
    requests no two picks share an id, and every id is below the counter
    from which the next id is taken. *)
Theorem pick_ids_stay_unique reqs st :
  pick_ids_inv st →
  NoDup (p_PickID <$> picks (run sch reqs st))
  ∧ Forall (λ p, p_PickID p < next_pick_id (run sch reqs st))
      (picks (run sch reqs st)).
Proof.
  intros Hinv. assert (Hrun : pick_ids_inv (run sch reqs st)).
  { revert st Hinv. induction reqs as [|req reqs IH]; intros st Hinv; [done|].
    apply (IH (handle sch req st)). by apply handle_pick_ids. }
  exact Hrun.
Qed.

End row_ids.

(** ** Leagues and memberships, request after request *)

Lemma pretty_N_go_nonempty x s : s ≠ "" → pretty_N_go x s ≠ "".
Proof.
  revert s. induction (N.lt_wf_0 x) as [x _ IH]; intros s Hs.
  assert (x = 0 ∨ 0 < x)%N as [->|Hpos] by lia.
  - by rewrite pretty_N_go_0.
  - rewrite pretty_N_go_step by done. apply IH; [by apply N.div_lt|done].
Qed.

(** A decimal numeral is not the empty string. *)
Lemma pretty_nat_nonempty (k : nat) : pretty k ≠ "".
Proof.
  unfold pretty, pretty_nat, pretty, pretty_N. case_decide; [done|].
  rewrite pretty_N_go_step by lia. by apply pretty_N_go_nonempty.
Qed.

Section league_requests.

Variable sch : schema.

(** X4. An error answer of register, join-league or delete-league means that
    nothing was written. *)
Theorem refusals_write_nothing st :
  (∀ username email password hash status msg,
     (register sch username email password hash st).1 = Failure status msg →
     (register sch username email password hash st).2 = st)
  ∧ (∀ leagueCode userId status msg,
       (join_league sch leagueCode userId st).1 = Failure status msg →
       (join_league sch leagueCode userId st).2 = st)
  ∧ (∀ leagueId status msg,
       (delete_league leagueId st).1 = Failure status msg →
       (delete_league leagueId st).2 = st).
Proof.
  split_and!.
  - intros username email password hash status msg. unfold register.
    handler_cases.
  - intros leagueCode userId status msg. unfold join_league. handler_cases.
  - intros leagueId status msg. unfold delete_league.
    case_decide; [done|]. case_bool_decide; [done|]. case_bool_decide; [done|].
    case_decide as Hrows; [|done]. intros _. simpl.
    apply (filter_length_zero (λ l, l_LeagueID l = leagueId)) in Hrows.
    rewrite filter_all by exact Hrows. apply set_leagues_same.
Qed.

(** X5. A join that succeeds adds one membership, with the role "Member", for
    the user and the league named in the answer, and touches nothing else;
    the same request sent again is refused and writes nothing. *)
Theorem join_league_once leagueCode userId st body st' :
  join_league sch leagueCode userId st = (Success body, st') →
  st' = set_memberships
          (memberships st ++ [ {| m_UserID := Js.to_string userId;
                                  m_LeagueID := jl_leagueId body;
                                  m_Role := "Member" |} ]) st
  ∧ memberships_of (Js.to_string userId) (jl_leagueId body) st = []
  ∧ Exists (λ lg, l_LeagueID lg = jl_leagueId body
                  ∧ l_LeagueCode lg = Js.to_string leagueCode
                  ∧ l_Name lg = jl_leagueName body) (leagues st)
  ∧ join_league sch leagueCode userId st'
    = (Failure 400 "You are already a member of this league", st').
Proof.
  unfold join_league.
  destruct (Js.truthy leagueCode && Js.truthy userId) eqn:Hval; [|done].
  destruct (filter _ (leagues st)) as [|lg lgs] eqn:Hlg; [done|].
  destruct (memberships_of _ _ st) as [|m ms] eqn:Hex; [|done].
  destruct (membership_insert sch st _); [done|].
  intros [= <- <-]. simpl. split_and!; auto.
  - apply Exists_exists. exists lg.
    assert (Hin : lg ∈ filter (λ l, l_LeagueCode l = Js.to_string leagueCode)
                         (leagues st)) by (rewrite Hlg; left).
    by apply list_elem_of_filter in Hin as [? ?].
  - rewrite Hlg.
    rewrite (memberships_of_snoc (Js.to_string userId) (l_LeagueID lg)
               {| m_UserID := Js.to_string userId; m_LeagueID := l_LeagueID lg;
                  m_Role := "Member" |} st).
    rewrite Hex. simpl. by rewrite decide_True.
Qed.

(** X6. A league that was created can be joined by its code.  When the code is
    not that of an earlier league, the owner's own join request is refused,
    as a member already; the join of any other user whose membership row
    the database accepts succeeds and names the new league. *)
Theorem create_then_join name ownerID scoringRules leagueCode random_code st
    body st1 :
  create_league sch name ownerID scoringRules leagueCode random_code st
  = (Success body, st1) →
  cl_leagueCode body ≠ "" →
  Forall (λ lg, l_LeagueCode lg ≠ cl_leagueCode body) (leagues st) →
  fresh_league_ids st →
  join_league sch (Js.Str (cl_leagueCode body)) ownerID st1
  = (Failure 400 "You are already a member of this league", st1)
  ∧ ∀ userId,
      Js.truthy userId = true →
      Js.to_string userId ≠ Js.to_string ownerID →
      membership_insert sch st1
        {| m_UserID := Js.to_string userId; m_LeagueID := cl_leagueId body;
           m_Role := "Member" |} = None →
      ∃ joined,
        (join_league sch (Js.Str (cl_leagueCode body)) userId st1).1
        = Success joined
        ∧ jl_leagueId joined = cl_leagueId body
        ∧ jl_leagueName joined = Js.to_string name.
Proof.
  unfold create_league.
  destruct (Js.truthy name && Js.truthy ownerID) eqn:Hval; [|done].
  apply andb_true_iff in Hval as [Hname Howner].
  destruct (league_insert sch st _);
    [unfold create_league_error; by repeat case_decide|].
  set (row := {| l_LeagueID := pretty (next_league_id st) |}).
  set (st0 := set_leagues (leagues st ++ [row]) (S (next_league_id st)) st).
  destruct (membership_insert sch st0 _) eqn:Hins;
    [unfold create_league_error; by repeat case_decide|].
  intros [= <- <-]. cbn [cl_leagueCode cl_leagueId].
  set (code := Js.to_string (Js.or_else leagueCode (Js.Str random_code))).
  intros Hcode Hnew Hfresh.
  assert (Hfound : filter (λ l, l_LeagueCode l = code) (leagues st ++ [row])
                   = [row]).
  { rewrite filter_app, filter_none.
    - simpl. rewrite filter_cons, filter_nil. by rewrite decide_True.
    - eapply Forall_impl; [exact Hnew|]. done. }
  assert (Hnone : ∀ v, memberships_of v (pretty (next_league_id st)) st = []).
  { intros v. by apply memberships_of_fresh. }
  split.
  - unfold join_league. simpl. rewrite bool_decide_true by done.
    rewrite Howner. simpl. rewrite Hfound.
    unfold memberships_of at 1. simpl. rewrite filter_app.
    fold (memberships_of (Js.to_string ownerID) (pretty (next_league_id st)) st).
    rewrite Hnone. simpl. rewrite filter_cons, filter_nil.
    by rewrite decide_True.
  - intros userId Huser Hother Hacc. unfold join_league. simpl.
    rewrite bool_decide_true by done. rewrite Huser. simpl. rewrite Hfound.
    unfold memberships_of at 1. simpl. rewrite filter_app.
    fold (memberships_of (Js.to_string userId) (pretty (next_league_id st)) st).
    rewrite Hnone. simpl. rewrite filter_cons, filter_nil.
    rewrite decide_False by (simpl; intros [? _]; congruence).
    simpl in Hacc. rewrite Hacc. simpl. eexists. by split_and!.
Qed.

(** X7. The two INSERTs of create-league are not one transaction.  When the
    league row is stored and the owner's membership row is refused, the
    answer is an error and the league stays, without any member; if no pick
    carries its id, deleting it succeeds and gives the league table back. *)
Theorem create_league_without_owner name ownerID scoringRules leagueCode
    random_code st err :
  Js.truthy name = true → Js.truthy ownerID = true →
  fresh_league_ids st →
  let insertId := pretty (next_league_id st) in
  let row := {| l_LeagueID := insertId;
                l_Name := Js.to_string name;
                l_OwnerID := Js.to_string ownerID;
                l_ScoringRules :=
                  if Js.truthy scoringRules
                  then Some (Js.to_string scoringRules) else None;
                l_LeagueCode :=
                  Js.to_string (Js.or_else leagueCode (Js.Str random_code)) |} in
  let st1 := set_leagues (leagues st ++ [row]) (S (next_league_id st)) st in
  league_insert sch st row = None →
  membership_insert sch st1
    {| m_UserID := Js.to_string ownerID; m_LeagueID := insertId;
       m_Role := "Owner" |} = Some err →
  create_league sch name ownerID scoringRules leagueCode random_code st
  = (create_league_error err, st1)
  ∧ (∃ status msg, create_league_error err = Failure status msg)
  ∧ row ∈ leagues st1
  ∧ count_members insertId st1 = 0
  ∧ (count_picks insertId st = 0 →
     (delete_league insertId st1).1 = Success "League deleted successfully"
     ∧ leagues (delete_league insertId st1).2 = leagues st).
Proof.
  intros Hname Howner Hfresh insertId row st1 Hl Hm.
  destruct (Hfresh (next_league_id st) (le_n _)) as [Hlg Hms].
  assert (Hcount : count_members insertId st1 = 0).
  { apply (filter_length_zero (λ m, m_LeagueID m = insertId)). exact Hms. }
  split_and!.
  - unfold create_league. rewrite Hname, Howner. simpl.
    fold insertId row. rewrite Hl. fold st1. by rewrite Hm.
  - unfold create_league_error. repeat case_decide; eauto.
  - simpl. apply elem_of_app. right. left.
  - exact Hcount.
  - intros Hpicks.
    assert (Hid : insertId ≠ "") by apply pretty_nat_nonempty.
    assert (Hpicks1 : count_picks insertId st1 = 0) by exact Hpicks.
    assert (Hrows : filter (λ lg, l_LeagueID lg = insertId) (leagues st1) = [row]).
    { simpl. rewrite filter_app, filter_none by exact Hlg.
      simpl. rewrite filter_cons, filter_nil. by rewrite decide_True. }
    unfold delete_league. rewrite decide_False by done.
    rewrite Hcount, Hpicks1, Hrows. simpl. split; [done|].
    rewrite filter_app, filter_all by exact Hlg.
    rewrite filter_cons, filter_nil.
    rewrite decide_False by (intros Hne; by apply Hne).
    by rewrite app_nil_r.
Qed.

End league_requests.

(** ** Looking a league up *)

Lemma get_league_missing leagueId st :
  ¬ league_exists leagueId st →
  get_league leagueId st = Failure 404 "League not found".
Proof.
  intros Hno. unfold get_league.
  destruct (filter _ (leagues st)) as [|lg lgs] eqn:Hf; [done|].
  exfalso. apply Hno, Exists_exists. exists lg.
  assert (Hin : lg ∈ filter (λ l, l_LeagueID l = leagueId) (leagues st))
    by (rewrite Hf; left).
  by apply list_elem_of_filter in Hin as [? ?].
Qed.

Section league_lookup.

Variable sch : schema.

(** X8. The league that create-league answers with is the one that the lookup
    by id returns, with the name, owner and code of the request; and after a
    successful delete the lookup of the id is answered with 404. *)
Theorem league_lookup_round_trip name ownerID scoringRules leagueCode
    random_code st body st1 :
  create_league sch name ownerID scoringRules leagueCode random_code st
  = (Success body, st1) →
  fresh_league_ids st →
  (∃ lg, get_league (cl_leagueId body) st1 = Success lg
         ∧ l_LeagueID lg = cl_leagueId body
         ∧ l_Name lg = Js.to_string name
         ∧ l_OwnerID lg = Js.to_string ownerID
         ∧ l_LeagueCode lg = cl_leagueCode body)
  ∧ (∀ leagueId st2 msg,
       delete_league leagueId st1 = (Success msg, st2) →
       get_league leagueId st2 = Failure 404 "League not found").
Proof.
  intros Hcreate Hfresh. split.
  - revert Hcreate. unfold create_league.
    destruct (Js.truthy name && Js.truthy ownerID); [|done].
    destruct (league_insert sch st _);
      [unfold create_league_error; by repeat case_decide|].
    set (row := {| l_LeagueID := pretty (next_league_id st) |}).
    destruct (membership_insert sch _ _);
      [unfold create_league_error; by repeat case_decide|].
    intros [= <- <-]. exists row. unfold get_league. simpl.
    destruct (Hfresh (next_league_id st) (le_n _)) as [Hlg _].
    rewrite filter_app, filter_none by exact Hlg.
    simpl. rewrite filter_cons, filter_nil. by rewrite decide_True.
  - intros leagueId st2 msg. unfold delete_league.
    case_decide; [done|]. case_bool_decide; [done|]. case_bool_decide; [done|].
    case_decide; [done|]. intros [= _ <-].
    apply get_league_missing. unfold league_exists. simpl.
    intros (lg & Hin & Heq)%Exists_exists.
    by apply list_elem_of_filter in Hin as [Hne _].
Qed.

(** ** Memberships are never taken back *)

Lemma handle_memberships_grow req st :
  memberships st `prefix_of` memberships (handle sch req st).
Proof.
  destruct req; simpl.
  - unfold register. handler_cases.
  - unfold create_league, create_league_error. handler_cases.
    all: by apply prefix_app_r.
  - unfold delete_league. handler_cases.
  - unfold join_league. handler_cases. by apply prefix_app_r.
  - destruct (save_picks_state sch body st) as [->|(sels & _ & _ & _ & _ & ->)];
      [done|].
    match goal with
    | |- context [insert_objects sch ?u ?l ?e sels ?acc] =>
        destruct (insert_objects_tables sch u l e sels acc) as (_ & _ & Hm & _)
    end.
    by rewrite Hm.
Qed.

Lemma delete_league_has_members leagueId st :
  leagueId ≠ "" → 0 < count_members leagueId st →
  delete_league leagueId st = (Failure 400 has_members_error, st).
Proof.
  intros Hid Hm. unfold delete_league. rewrite decide_False by done.
  by rewrite bool_decide_true.
Qed.

Lemma handle_keeps_member_league req st m :
  m ∈ memberships st → league_exists (m_LeagueID m) st →
  league_exists (m_LeagueID m) (handle sch req st).
Proof.
  intros Hin Hex.
  assert (Hgrow : ∀ st', leagues st `prefix_of` leagues st' →
                         league_exists (m_LeagueID m) st').
  { intros st' [k Hk]. apply (league_exists_leagues _ st); [|done].
    rewrite Hk. intros lg ?. apply elem_of_app. by left. }
  destruct req; simpl.
  - apply Hgrow. unfold register. handler_cases.
  - apply Hgrow. unfold create_league, create_league_error. handler_cases.
    all: by apply prefix_app_r.
  - destruct (decide (leagueId = m_LeagueID m)) as [->|Hne].
    + unfold delete_league. case_decide; [done|].
      rewrite bool_decide_true; [done|].
      unfold count_members.
      assert (Hf : m ∈ filter (λ m0, m_LeagueID m0 = m_LeagueID m) (memberships st))
        by by apply list_elem_of_filter.
      destruct (filter _ (memberships st)); [by apply elem_of_nil in Hf|simpl; lia].
    + unfold delete_league. handler_cases.
      all: apply Exists_exists in Hex as (lg & Hlg & Heq).
      all: apply Exists_exists; exists lg; split; [|done].
      all: apply list_elem_of_filter; split; [congruence|done].
  - apply Hgrow. unfold join_league. handler_cases.
  - apply Hgrow.
    destruct (save_picks_state sch body st) as [->|(sels & _ & _ & _ & _ & ->)];
      [done|].
    match goal with
    | |- context [insert_objects sch ?u ?l ?e sels ?acc] =>
        destruct (insert_objects_tables sch u l e sels acc) as (_ & Hl & _)
    end.
    by rewrite Hl.
Qed.

(** X9. No request removes a membership.  So a league that has a member keeps
    it, whatever requests follow: the member is still there, the league is
    still there, and every attempt to delete the league is refused with the
    error about members. *)
Theorem league_with_member_stays reqs st m :
  m ∈ memberships st →
  league_exists (m_LeagueID m) st →
  m_LeagueID m ≠ "" →
  let st' := run sch reqs st in
  memberships st `prefix_of` memberships st'
  ∧ m ∈ memberships st'
  ∧ league_exists (m_LeagueID m) st'
  ∧ delete_league (m_LeagueID m) st' = (Failure 400 has_members_error, st').
Proof.
  intros Hin Hex Hid. cbv zeta.
  assert (Hrun : memberships st `prefix_of` memberships (run sch reqs st)
                 ∧ m ∈ memberships (run sch reqs st)
                 ∧ league_exists (m_LeagueID m) (run sch reqs st)).
  { revert st Hin Hex. induction reqs as [|req reqs IH]; intros st Hin Hex;
      [done|].
    pose proof (handle_memberships_grow req st) as Hgrow.
    assert (Hin' : m ∈ memberships (handle sch req st)).
    { destruct Hgrow as [k ->]. apply elem_of_app. by left. }
    destruct (IH (handle sch req st) Hin'
                (handle_keeps_member_league req st m Hin Hex)) as (H1 & H2 & H3).
    split_and!; [|done|done]. by etrans. }
  destruct Hrun as (H1 & H2 & H3). split_and!; auto.
  apply delete_league_has_members; [done|].
  unfold count_members.
  assert (Hf : m ∈ filter (λ m0, m_LeagueID m0 = m_LeagueID m)
                      (memberships (run sch reqs st)))
    by by apply list_elem_of_filter.
  destruct (filter _ (memberships (run sch reqs st)));
    [by apply elem_of_nil in Hf|simpl; lia].
Qed.

End league_lookup.

(** ** Logging in *)

Section login_facts.

Variable sch : schema.
Variable bcrypt_compare : Js.value → string → string + bool.

(** X10. A login succeeds only against a user row with the given name whose hash
    [bcrypt.compare] accepts, and the answer carries the id, name and email
    of that row; a name that no row has and a password that does not match
    get the same 401 answer. *)
Theorem login_sound username password st :
  (∀ body, login bcrypt_compare username password st = Success body →
     ∃ user, user ∈ users st
             ∧ u_Username user = Js.to_string username
             ∧ bcrypt_compare password (u_PasswordHash user) = inr true
             ∧ lg_userId body = u_UserID user
             ∧ lg_username body = u_Username user
             ∧ lg_email body = u_Email user)
  ∧ (Js.truthy username = true → Js.truthy password = true →
     (Forall (λ u, u_Username u ≠ Js.to_string username) (users st)
      ∨ ∃ user rest,
          filter (λ u, u_Username u = Js.to_string username) (users st)
            = user :: rest
          ∧ bcrypt_compare password (u_PasswordHash user) = inr false) →
     login bcrypt_compare username password st = Failure 401 invalid_login).
Proof.
  split.
  - intros body. unfold login.
    destruct (_ && _); [|done].
    destruct (filter _ (users st)) as [|user rest] eqn:Hf; [done|].
    destruct (bcrypt_compare password (u_PasswordHash user)) as [msg|[|]] eqn:Hc;
      [done| |done].
    simpl. intros [= <-]. exists user.
    assert (Hin : user ∈ filter (λ u, u_Username u = Js.to_string username)
                           (users st)) by (rewrite Hf; left).
    apply list_elem_of_filter in Hin as [? ?]. by split_and!.
  - intros Hu Hp Hcase. unfold login. rewrite Hu, Hp. simpl.
    destruct Hcase as [Hnone|(user & rest & Hf & Hc)].
    + by rewrite filter_none.
    + by rewrite Hf, Hc.
Qed.

(** X11. A user who has just registered can log in: when no earlier user row has
    the name and [bcrypt.compare] accepts the password against the stored
    hash, the login succeeds with the id that register answered. *)
Theorem register_then_login username email password hash st body st1 :
  register sch username email password hash st = (Success body, st1) →
  Forall (λ u, u_Username u ≠ Js.to_string username) (users st) →
  bcrypt_compare password hash = inr true →
  login bcrypt_compare username password st1
  = Success {| lg_message := "Login successful";
               lg_userId := reg_userId body;
               lg_username := Js.to_string username;
               lg_email := Js.to_string email |}.
Proof.
  unfold register.
  destruct (Js.truthy username && Js.truthy email && Js.truthy password)
    eqn:Hval; [|done].
  apply andb_true_iff in Hval as [[Hu He]%andb_true_iff Hp].
  destruct (user_insert sch st _); [by repeat case_match|].
  intros [= <- <-] Hnew Hc. unfold login. rewrite Hu, Hp. simpl.
  rewrite filter_app, filter_none by exact Hnew.
  simpl. rewrite filter_cons, filter_nil. rewrite decide_True by done.
  simpl. by rewrite Hc.
Qed.

End login_facts.

(** ** Picks and points *)

Lemma sum_app (xs ys : list Z) :
  foldr Z.add 0%Z (xs ++ ys) = (foldr Z.add 0 xs + foldr Z.add 0 ys)%Z.
Proof. induction xs as [|x xs IH]; simpl; lia. Qed.

Lemma sum_zero {A} (f : A → Z) (l : list A) :
  Forall (λ x, f x = 0%Z) l → foldr Z.add 0%Z (f <$> l) = 0%Z.
Proof. induction 1 as [|x l Hx _ IH]; csimpl; lia. Qed.

(** The sum over the rows that satisfy [P], split by a second test. *)
Lemma sum_filter_split {A} (f : A → Z) (P Q : A → Prop)
    `{!∀ x, Decision (P x)} `{!∀ x, Decision (Q x)} (l : list A) :
  foldr Z.add 0%Z (f <$> filter P l)
  = (foldr Z.add 0 (f <$> filter (λ x, P x ∧ Q x) l)
     + foldr Z.add 0 (f <$> filter P (filter (λ x, ¬ Q x) l)))%Z.
Proof.
  induction l as [|x l IH]; [done|].
  rewrite !filter_cons.
  destruct (decide (P x)), (decide (Q x)).
  - rewrite decide_True by done. rewrite decide_False by tauto.
    csimpl. lia.
  - rewrite decide_False by tauto. rewrite decide_True by done.
    rewrite filter_cons, decide_True by done. csimpl. lia.
  - rewrite decide_False by tauto. rewrite decide_False by tauto. done.
  - rewrite decide_False by tauto. rewrite decide_True by done.
    rewrite filter_cons, decide_False by done. done.
Qed.

Section picks_and_points.

Variable sch : schema.

(** The picks after a submission of an array that passed validation. *)
Lemma save_picks_picks body st entries :
  Js.truthy (sp_userId body) = true →
  Js.truthy (sp_leagueId body) = true →
  Js.truthy (sp_eventId body) = true →
  sp_picks body = PicksArray entries →
  let u := Js.to_string (sp_userId body) in
  let l := Js.to_string (sp_leagueId body) in
  let e := Js.to_string (sp_eventId body) in
  let r := insert_objects sch u l e (before_null entries)
             (loop_start [received_line; deleting_line u e]
                (delete_picks u l e st)) in
  ∃ ins,
    picks (state (save_picks sch body st))
    = filter (λ p, ¬ in_scope u l e p) (picks st) ++ ins
    ∧ Forall (λ p, in_scope u l e p ∧ p_PointsEarned p = 0%Z) ins
    ∧ length ins = savedCount r
    ∧ savedCount r + errorCount r = length (attempted entries)
    ∧ (p_FighterID <$> ins) `sublist_of` (stored_fighter <$> attempted entries)
    ∧ ((∀ d p, pick_insert sch d p = None) →
       p_FighterID <$> ins = stored_fighter <$> attempted entries).
Proof.
  intros Hu Hl He Hp u l e r.
  destruct (save_picks_run sch body st entries Hu Hl He Hp) as (Hst & _ & _).
  fold u l e r in Hst. rewrite Hst.
  destruct (insert_objects_spec sch u l e (before_null entries)
              (loop_start [received_line; deleting_line u e]
                 (delete_picks u l e st)))
    as (ins & Hpk & Hs & Hc & _ & Hf & Hsub & Hall).
  fold r in Hpk, Hs, Hc. simpl in Hpk, Hs, Hc.
  exists ins. split_and!; auto.
  eapply Forall_impl; [exact Hf|]. by intros p (?&?&_).
Qed.

(** X12. Saving picks takes the points of the replaced picks away.  For every
    user and league, the total after the submission is the total before,
    less the points that the picks of the submitted scope carried when the
    user and league are those of the submission. *)
Theorem save_picks_resets_points body st entries leagueId v :
  Js.truthy (sp_userId body) = true →
  Js.truthy (sp_leagueId body) = true →
  Js.truthy (sp_eventId body) = true →
  sp_picks body = PicksArray entries →
  let u := Js.to_string (sp_userId body) in
  let l := Js.to_string (sp_leagueId body) in
  let e := Js.to_string (sp_eventId body) in
  user_points leagueId (state (save_picks sch body st)) v
  = (user_points leagueId st v
     - if decide (u_UserID v = u ∧ leagueId = l)
       then scope_points u l e st else 0)%Z.
Proof.
  intros Hu Hl He Hp u l e.
  destruct (save_picks_picks body st entries Hu Hl He Hp) as (ins & Hpk & Hins & _).
  fold u l e in Hpk, Hins.
  unfold user_points, league_picks, scope_points. rewrite Hpk.
  rewrite filter_app, fmap_app, sum_app.
  rewrite (sum_zero p_PointsEarned (filter _ ins)).
  2:{ apply Forall_filter_keeps. eapply Forall_impl; [exact Hins|]. by intros p [_ ?]. }
  rewrite (sum_filter_split p_PointsEarned
             (λ p, u_UserID v = p_UserID p ∧ p_LeagueID p = leagueId)
             (in_scope u l e) (picks st)).
  case_decide as Hsame.
  - destruct Hsame as [Hv ->].
    rewrite (list_filter_iff
               (λ p, (u_UserID v = p_UserID p ∧ p_LeagueID p = l) ∧ in_scope u l e p)
               (in_scope u l e)).
    2:{ intros p. split; [by intros [_ ?]|]. intros Hin. split; [|done].
        destruct Hin as (Hpu & Hpl & _). split; congruence. }
    lia.
  - rewrite (filter_none (λ p, (u_UserID v = p_UserID p ∧ p_LeagueID p = leagueId)
                               ∧ in_scope u l e p)); [simpl; lia|].
    apply Forall_forall. intros p _ [[Hv Hlg] (Hpu & Hpl & _)].
    apply Hsame. split; congruence.
Qed.

(** An answer that does not come from the outer [catch] was given to an
    array without [null] element, in a request with its three ids. *)
Lemma save_picks_loop_ended body st r :
  resp (save_picks sch body st) = r →
  (∃ ok, r = Success ok) ∨ r = Failure 500 all_failed_error →
  ∃ entries, sp_picks body = PicksArray entries
    ∧ thrown_by entries = None
    ∧ Js.truthy (sp_userId body) = true
    ∧ Js.truthy (sp_leagueId body) = true
    ∧ Js.truthy (sp_eventId body) = true.
Proof.
  intros <- Hr.
  destruct (Js.truthy (sp_userId body)) eqn:Hu; cycle 1.
  { exfalso. revert Hr. unfold save_picks. rewrite Hu.
    destruct (sp_picks body); by intros [[ok ?]|?]. }
  destruct (Js.truthy (sp_leagueId body)) eqn:Hl; cycle 1.
  { exfalso. revert Hr. unfold save_picks. rewrite Hu, Hl.
    destruct (sp_picks body); by intros [[ok ?]|?]. }
  destruct (Js.truthy (sp_eventId body)) eqn:He; cycle 1.
  { exfalso. revert Hr. unfold save_picks. rewrite Hu, Hl, He.
    destruct (sp_picks body); by intros [[ok ?]|?]. }
  destruct (sp_picks body) as [|entries|] eqn:Hp.
  - exfalso. revert Hr. unfold save_picks. rewrite Hp. by intros [[ok ?]|?].
  - exists entries. split_and!; try done.
    destruct (save_picks_run sch body st entries Hu Hl He Hp) as (_ & _ & Hresp).
    rewrite Hresp in Hr. destruct (thrown_by entries) as [msg|] eqn:Hthrown; [|done].
    exfalso. destruct Hr as [[ok ?]|Hr]; [done|].
    injection Hr as Hmsg. revert Hthrown Hmsg. clear.
    induction entries as [|[s|] entries IH]; simpl; [done|done|].
    intros [= <-]. by vm_compute.
  - exfalso.
    destruct (save_picks_not_iterable sch body st Hu Hl He Hp) as (_ & _ & Hresp).
    rewrite Hresp in Hr. destruct Hr as [[ok ?]|Hr]; [done|].
    injection Hr as Hmsg. revert Hmsg. by vm_compute.
Qed.

(** X13. The count that a successful answer carries is the number of picks that
    the scope holds afterwards; it does not exceed the number of
    selections; and the table has lost the old picks of the scope and
    gained that many. *)
Theorem save_picks_count body st ok :
  resp (save_picks sch body st) = Success ok →
  let u := Js.to_string (sp_userId body) in
  let l := Js.to_string (sp_leagueId body) in
  let e := Js.to_string (sp_eventId body) in
  let st' := state (save_picks sch body st) in
  sp_picksCount ok = length (filter (in_scope u l e) (picks st'))
  ∧ (∀ entries, sp_picks body = PicksArray entries →
       sp_picksCount ok ≤ length entries)
  ∧ length (picks st') + length (filter (in_scope u l e) (picks st))
    = length (picks st) + sp_picksCount ok.
Proof.
  intros Hok u l e st'.
  destruct (save_picks_loop_ended body st _ Hok) as (entries & Hp & Hnone & Hu & Hl & He);
    [left; by exists ok|].
  destruct (save_picks_picks body st entries Hu Hl He Hp)
    as (ins & Hpk & Hins & Hlen & Hcount & _).
  destruct (save_picks_run sch body st entries Hu Hl He Hp) as (_ & _ & Hresp).
  fold u l e st' in Hpk, Hins, Hlen, Hcount, Hresp.
  rewrite Hok, Hnone in Hresp.
  assert (Hsaved : sp_picksCount ok = length ins).
  { destruct (_ && _); [done|]. injection Hresp as ->. by rewrite Hlen. }
  assert (Hscope : filter (in_scope u l e) (picks st') = ins).
  { rewrite Hpk, filter_app, filter_none by apply Forall_filter_self.
    simpl. apply filter_all. eapply Forall_impl; [exact Hins|]. by intros p [? _]. }
  split_and!.
  - by rewrite Hscope.
  - intros entries' Hp'. rewrite Hp in Hp'. injection Hp' as <-.
    rewrite Hsaved, Hlen.
    pose proof (attempted_length entries) as Hle. lia.
  - rewrite Hpk, length_app, Hsaved.
    pose proof (filter_app_complement (in_scope u l e) (picks st)) as Hperm.
    apply Permutation_length in Hperm. rewrite length_app in Hperm. lia.
Qed.

(** The answer that all picks failed comes after the DELETE and after a loop
    that reached its end. *)
Lemma save_picks_failure_after_delete body st status :
  resp (save_picks sch body st) = Failure status all_failed_error →
  let u := Js.to_string (sp_userId body) in
  let l := Js.to_string (sp_leagueId body) in
  let e := Js.to_string (sp_eventId body) in
  status = 500
  ∧ picks (state (save_picks sch body st))
    = filter (λ p, ¬ in_scope u l e p) (picks st)
  ∧ (∃ entries, sp_picks body = PicksArray entries
       ∧ thrown_by entries = None ∧ attempted entries ≠ []).
Proof.
  intros Hfail u l e.
  assert (Hstatus : status = 500).
  { revert Hfail. unfold save_picks.
    destruct (sp_picks body); [done| |];
      (destruct (_ && _); [|done]); simpl.
    - destruct (insert_loop _ _ _ _ _ _) as [r [msg|]]; [by intros [= <- _]|].
      destruct (_ && _); [|done]. by intros [= <-].
    - by intros [= <- _]. }
  subst status.
  destruct (save_picks_loop_ended body st _ Hfail)
    as (entries & Hp & Hnone & Hu & Hl & He); [by right|].
  destruct (save_picks_picks body st entries Hu Hl He Hp)
    as (ins & Hpk & _ & Hlen & Hcount & _).
  destruct (save_picks_run sch body st entries Hu Hl He Hp) as (_ & _ & Hresp).
  fold u l e in Hpk, Hlen, Hcount, Hresp.
  rewrite Hfail, Hnone in Hresp.
  destruct (bool_decide (savedCount _ = 0)) eqn:Hs; [|done].
  destruct (bool_decide (0 < errorCount _)) eqn:Herr; [|done].
  apply bool_decide_eq_true in Hs, Herr. simpl in Hresp.
  split_and!; [done| |].
  - rewrite Hpk. rewrite Hs in Hlen. apply nil_length_inv in Hlen.
    by rewrite Hlen, app_nil_r.
  - exists entries. split_and!; [done|done|]. intros Hnil. rewrite Hnil in Hcount.
    simpl in Hcount. lia.
Qed.

End picks_and_points.

(** ** The pick list of a user *)

Section pick_list.

Variable weight : fighter → Js.value.

Lemma map_pick_view st p :
  Forall (λ e, Js.trim (e_event_id e) ≠ "__proto__") (events st) →
  Forall (λ f, Js.trim (f_fighter_id f) ≠ "__proto__") (fighters st) →
  pick_view_of st p
    (map_pick (pick_fighter_map weight (fighters st)) (event_map (events st)) p).
Proof.
  intros Hevents Hfighters.
  unfold pick_view_of, map_pick.
  cbn [up_PickID up_EventID up_PointsEarned up_EventName up_EventDate
       up_FighterName].
  split_and!; auto.
  - by case_bool_decide.
  - unfold event_map.
    destruct (read_filled pick_event_fields (λ e, Js.trim (e_event_id e))
                (λ e, {| pe_name := e_event_name e; pe_date := e_date e;
                         pe_location := e_location e |})
                (events st) (Js.trim (p_EventID p)) Hevents)
      as [(e & Hin & Hid & ->)|[Hnone ->]].
    + right. by exists e.
    + left. split; [exact Hnone|]. by destruct (key_kind _).
  - unfold pick_fighter_map.
    destruct (read_filled pick_fighter_fields (λ f, Js.trim (f_fighter_id f))
                (pick_fighter_of weight)
                (fighters st) (Js.trim (p_FighterID p)) Hfighters)
      as [(f & Hin & Hid & ->)|[Hnone ->]].
    + right. by exists f.
    + left. split; [exact Hnone|]. by destruct (key_kind _).
Qed.

Lemma get_user_picks_data userId leagueId st :
  get_user_picks weight userId leagueId st
  = Success (map_pick (pick_fighter_map weight (fighters st))
               (event_map (events st))
             <$> filter (λ p, p_UserID p = userId ∧ p_LeagueID p = leagueId)
                   (picks st)).
Proof.
  unfold get_user_picks. case_decide as Hlen; [|done].
  apply nil_length_inv in Hlen. by rewrite Hlen.
Qed.

(** X15. The pick list has one entry per pick of the user in the league, in
    table order, with the pick's id and points.  The event and the fighter
    are looked up by their trimmed ids in a plain object, and a pick whose
    event or fighter has no row does not make the list fail: it is shown as
    unknown with the id in the text, unless the id is a key that every
    object answers; for the name of an inherited function the name shown is
    that of the function, and for [__proto__] there is none.  No event or
    fighter row is taken to have the trimmed id [__proto__]. *)
Theorem user_picks_view userId leagueId st :
  Forall (λ e, Js.trim (e_event_id e) ≠ "__proto__") (events st) →
  Forall (λ f, Js.trim (f_fighter_id f) ≠ "__proto__") (fighters st) →
  ∃ data,
    get_user_picks weight userId leagueId st = Success data
    ∧ Forall2 (pick_view_of st)
        (filter (λ p, p_UserID p = userId ∧ p_LeagueID p = leagueId) (picks st))
        data.
Proof.
  intros Hevents Hfighters.
  eexists. split; [apply get_user_picks_data|].
  apply Forall2_fmap_r, Forall_Forall2_diag, Forall_forall.
  intros p _. by apply map_pick_view.
Qed.

Lemma user_picks_points userId leagueId st u :
  u_UserID u = userId →
  ∃ data,
    get_user_picks weight userId leagueId st = Success data
    ∧ foldr Z.add 0%Z (up_PointsEarned <$> data) = user_points leagueId st u.
Proof.
  intros Hu. eexists. split; [apply get_user_picks_data|].
  unfold user_points, league_picks.
  rewrite (list_filter_iff (λ p, u_UserID u = p_UserID p ∧ p_LeagueID p = leagueId)
             (λ p, p_UserID p = userId ∧ p_LeagueID p = leagueId))
    by (intros p; rewrite Hu; split; intros [? ?]; auto).
  rewrite <- list_fmap_compose. f_equal. apply Forall_fmap_ext, Forall_forall.
  intros p _. simpl. by case_bool_decide.
Qed.

End pick_list.

Section pick_list_and_leaderboard.

Variable weight : fighter → Js.value.
Context (name_le : relation string) `{!RelDecision name_le}.

(** X16. The two views of a member's points agree: the total in the member's
    leaderboard row is the sum of the points in the member's pick list for
    the league. *)
Theorem pick_list_matches_leaderboard leagueId st u :
  leagueId ≠ "" →
  NoDup (u_UserID <$> users st) →
  at_most_one_membership st →
  u ∈ users st → is_member leagueId st u →
  ∃ board entries,
    get_leaderboard name_le leagueId st = Success board
    ∧ get_user_picks weight (u_UserID u) leagueId st = Success entries
    ∧ {| lb_UserID := u_UserID u; lb_Username := u_Username u;
         lb_Email := u_Email u;
         lb_TotalPoints := foldr Z.add 0%Z (up_PointsEarned <$> entries) |}
      ∈ board.
Proof.
  intros Hid Hnd Hone Hin Hmem.
  destruct (user_picks_points weight (u_UserID u) leagueId st u eq_refl)
    as (entries & Hlist & Hsum).
  exists (merge_sort (leaderboard_order name_le) (leaderboard_groups leagueId st)),
    entries.
  split_and!; [|done|].
  - unfold get_leaderboard. by rewrite decide_False.
  - rewrite merge_sort_Permutation, leaderboard_groups_members by done.
    rewrite Hsum. apply list_elem_of_fmap. exists u. split; [done|].
    by apply list_elem_of_filter.
Qed.

(** X17. A league without members has an empty leaderboard, and the answer is a
    success: also for an id that no league has. *)
Theorem leaderboard_without_members leagueId st :
  leagueId ≠ "" →
  count_members leagueId st = 0 →
  get_leaderboard name_le leagueId st = Success [].
Proof.
  intros Hid Hcount. unfold get_leaderboard. rewrite decide_False by done.
  assert (Hjoin : leaderboard_join leagueId st = []).
  { rewrite leaderboard_join_users.
    assert (Hrows : ∀ u, user_rows leagueId st u = []).
    { intros u. rewrite user_rows_memberships. unfold memberships_of.
      rewrite filter_none; [done|].
      apply (filter_length_zero (λ m, m_LeagueID m = leagueId)) in Hcount.
      eapply Forall_impl; [exact Hcount|]. simpl. tauto. }
    induction (users st) as [|u us IH]; [done|].
    by rewrite bind_cons, Hrows, IH. }
  unfold leaderboard_groups. by rewrite Hjoin.
Qed.

End pick_list_and_leaderboard.

(** ** Which fights the history lists *)

Section history_rows.

Variable like : string → string → bool.

Lemma history_join_rows_iff ids st f :
  (∃ r, r ∈ history_join_rows ids st ∧ hj_fight r = f)
  ↔ f ∈ fights st ∧ fight_complete st f
    ∧ (ft_red_fighter_id f ∈ ids ∨ ft_blue_fighter_id f ∈ ids).
Proof.
  unfold history_join_rows, fight_complete. split.
  - intros (r & Hr & <-).
    apply list_elem_of_bind in Hr as (f & Hr & Hf).
    apply list_elem_of_bind in Hr as (e & Hr & [He Hein]%list_elem_of_filter).
    apply list_elem_of_bind in Hr as (fa & Hr & [Hfa Hfain]%list_elem_of_filter).
    apply list_elem_of_bind in Hr as (fb & Hr & [Hfb Hfbin]%list_elem_of_filter).
    case_decide as Hc; [|by apply elem_of_nil in Hr].
    apply list_elem_of_singleton in Hr as ->. simpl.
    split_and!; auto; apply Exists_exists; eauto.
  - intros (Hf & (He & Hfa & Hfb) & Hc).
    apply Exists_exists in He as (e & Hein & He).
    apply Exists_exists in Hfa as (fa & Hfain & Hfa).
    apply Exists_exists in Hfb as (fb & Hfbin & Hfb).
    exists {| hj_fight := f; hj_event := e; hj_fa := fa; hj_fb := fb |}.
    split; [|done].
    apply list_elem_of_bind. exists f. split; [|done].
    apply list_elem_of_bind. exists e. split; [|by apply list_elem_of_filter].
    apply list_elem_of_bind. exists fa. split; [|by apply list_elem_of_filter].
    apply list_elem_of_bind. exists fb. split; [|by apply list_elem_of_filter].
    rewrite decide_True by done. by apply list_elem_of_singleton.
Qed.

(** X18. The history is an inner join: a fight of the table has a record exactly
    when one of its corners is a matched fighter and its event and both of
    its fighters have rows.  A fight with a missing event or fighter row is
    left out without notice, also when the other corner matches. *)
Theorem history_lists_complete_fights q st f :
  q ≠ "" →
  matching_fighters like q st ≠ [] →
  let ids := f_fighter_id <$> matching_fighters like q st in
  ∃ body rows,
    get_fighter_history like (Some q) st = Success body
    ∧ h_data body = process_fight ids <$> rows
    ∧ ((∃ r, r ∈ rows ∧ hj_fight r = f)
       ↔ f ∈ fights st ∧ fight_complete st f
         ∧ (ft_red_fighter_id f ∈ ids ∨ ft_blue_fighter_id f ∈ ids)).
Proof.
  intros Hq Hmatch ids.
  exists {| h_data := process_fight ids
                        <$> merge_sort date_desc (history_join_rows ids st);
            h_fighters := Some ((λ f, (f_fighter_id f, f_name f))
                                  <$> matching_fighters like q st);
            h_message := None |},
    (merge_sort date_desc (history_join_rows ids st)).
  split_and!; [|done|].
  - unfold get_fighter_history. rewrite decide_False by done.
    fold ids. by destruct (matching_fighters like q st).
  - rewrite <- history_join_rows_iff. split.
    + intros (r & Hr & Hf). exists r. split; [|done].
      by rewrite merge_sort_Permutation in Hr.
    + intros (r & Hr & Hf). exists r. split; [|done].
      by rewrite merge_sort_Permutation.
Qed.

End history_rows.

(** ** The event list *)

Section js_sort_facts.

Context {A : Type} (R : relation A) `{!RelDecision R}.

Lemma sort_insert_Permutation x l : sort_insert R x l ≡ₚ x :: l.
Proof.
  induction l as [|y l IH]; [done|]. simpl. case_decide; [done|].
  rewrite IH. apply Permutation_swap.
Qed.

Lemma js_sort_Permutation l : js_sort R l ≡ₚ l.
Proof.
  induction l as [|x l IH]; [done|]. simpl.
  by rewrite sort_insert_Permutation, IH.
Qed.

Lemma sort_insert_HdRel `{!Total R} z x l :
  R z x → HdRel R z l → HdRel R z (sort_insert R x l).
Proof.
  intros Hzx Hzl. destruct l as [|y l]; simpl; [by constructor|].
  case_decide; constructor; [done|]. by inversion Hzl.
Qed.

Lemma sort_insert_Sorted `{!Total R} x l :
  Sorted R l → Sorted R (sort_insert R x l).
Proof.
  induction 1 as [|y l Hl IH Hy]; simpl; [by repeat constructor|].
  case_decide as Hxy.
  - constructor; [by constructor|]. by constructor.
  - constructor; [done|]. apply sort_insert_HdRel; [|done].
    by destruct (total R x y).
Qed.

Lemma js_sort_Sorted `{!Total R} l : Sorted R (js_sort R l).
Proof.
  induction l as [|x l IH]; simpl; [constructor|]. by apply sort_insert_Sorted.
Qed.

End js_sort_facts.

(** Sorting the images is the image of sorting, when the two orders agree. *)
Lemma js_sort_fmap {A B} (f : A → B) (R : relation A) (S : relation B)
    `{!RelDecision R} `{!RelDecision S} (l : list A) :
  (∀ x y, R x y ↔ S (f x) (f y)) →
  js_sort S (f <$> l) = f <$> js_sort R l.
Proof.
  intros Hrel.
  assert (Hins : ∀ x l', sort_insert S (f x) (f <$> l')
                         = f <$> sort_insert R x l').
  { intros x l'. induction l' as [|y l' IH]; [done|]. csimpl.
    destruct (decide (R x y)) as [Hxy|Hxy].
    - rewrite decide_True by by apply Hrel. done.
    - rewrite decide_False by (by rewrite <- Hrel). csimpl. by rewrite IH. }
  induction l as [|x l IH]; [done|]. csimpl. by rewrite IH, Hins.
Qed.

(** The column mapper on a row of the table. *)
Lemma map_event_row e : map_event (event_row e) = event_view_of e.
Proof.
  destruct e as [id name date location].
  unfold map_event, event_view_of, event_row, row_found, Js.or_else. simpl.
  f_equal; repeat (case_bool_decide || case_decide; simpl);
    simplify_eq; try done; try tauto.
Qed.

(** X19. The event list shows the first 50 rows of the event table and no other,
    each once, newest first; an event without name is shown as "Unknown
    Event". *)
Theorem events_newest_first st :
  ∃ es,
    get_events st = Success (event_view_of <$> es)
    ∧ es ≡ₚ take 50 (events st)
    ∧ Sorted newest_event_first es
    ∧ length es ≤ 50
    ∧ Forall (λ e, Js.truthy (ev_Name (event_view_of e)) = true) es.
Proof.
  exists (js_sort newest_event_first (take 50 (events st))).
  assert (Hperm : js_sort newest_event_first (take 50 (events st))
                  ≡ₚ take 50 (events st)) by apply js_sort_Permutation.
  split_and!.
  - unfold get_events. f_equal. rewrite <- list_fmap_compose.
    rewrite <- (js_sort_fmap event_view_of newest_event_first not_after);
      [|done].
    f_equal. apply Forall_fmap_ext, Forall_forall. intros e _. simpl.
    apply map_event_row.
  - exact Hperm.
  - apply js_sort_Sorted. apply _.
  - rewrite Hperm, length_take. lia.
  - apply Forall_forall. intros e _. unfold event_view_of. simpl.
    case_decide; [done|]. simpl. by rewrite bool_decide_true.
Qed.

(** X20. The column mapper does not depend on the spelling of the column names
    that its comments list: an event row spelled [EventID], [Name], [Date],
    [Location], or [id], [name], [event_date], [event_location], gives the
    same view as the row spelled [event_id], [event_name], [date],
    [location]. *)
Theorem map_event_column_names e :
  map_event (event_row_pascal e) = map_event (event_row e)
  ∧ map_event (event_row_prefixed e) = map_event (event_row e).
Proof.
  rewrite map_event_row. destruct e as [id name date location].
  unfold map_event, event_view_of, event_row_pascal, event_row_prefixed,
    row_found, Js.or_else. simpl.
  split; f_equal; repeat (case_bool_decide || case_decide; simpl);
    simplify_eq; try done; try tauto.
Qed.

(** ** The request of the client *)

(** X21. Whatever the page holds, a request that [savePicks] sends names a
    league and an event and carries at least one selection, one per checked
    radio button, whose fighter id is the button's value: the client never
    posts an empty list. *)
Theorem client_never_sends_empty currentUser data_league_id data_event_id
    checked body :
  client_save_picks currentUser data_league_id data_event_id checked = Some body →
  Js.truthy (sp_leagueId body) = true
  ∧ Js.truthy (sp_eventId body) = true
  ∧ currentUser = Some (sp_userId body)
  ∧ ∃ sels, sp_picks body = PicksArray (Some <$> sels)
            ∧ sels ≠ []
            ∧ fighterId <$> sels = (λ r, Js.Str (radio_value r)) <$> checked.
Proof.
  unfold client_save_picks. destruct currentUser as [userId|]; [|done].
  destruct (Js.truthy (Js.of_col data_league_id)) eqn:Hl; [|done].
  destruct (Js.truthy (Js.of_col data_event_id)) eqn:He; [|done]. simpl.
  case_decide as Hlen; [done|]. intros [= <-]. simpl. split_and!; auto.
  eexists. split_and!; [done| |].
  - intros Hnil. by rewrite Hnil in Hlen.
  - by rewrite <- list_fmap_compose.
Qed.

(** ** Foreign keys, request after request *)

Section references_run.

Variable sch : schema.

(** X22. When the database stores picks only under the id of a league row,
    every sequence of requests keeps the references of memberships and
    picks resolved, and in the database it leads to, deleting an id that no
    league has is answered with 404 and writes nothing. *)
Theorem references_stay_resolved reqs st :
  enforces_pick_league sch →
  references_resolved st →
  references_resolved (run sch reqs st)
  ∧ ∀ leagueId,
      leagueId ≠ "" → ¬ league_exists leagueId (run sch reqs st) →
      delete_league leagueId (run sch reqs st)
      = (Failure 404 "League not found", run sch reqs st).
Proof.
  intros Hkeys Href.
  assert (Hrun : references_resolved (run sch reqs st)).
  { revert st Href. induction reqs as [|req reqs IH]; intros st Href; [done|].
    apply (IH (handle sch req st)). by apply handle_refs. }
  split; [exact Hrun|]. intros leagueId Hid Hno.
  destruct Hrun as [Hms Hps]. by apply delete_league_unknown.
Qed.

End references_run.

(** ** Refused submissions *)

(** A 400 answer of save-picks comes before any statement is run. *)
Lemma save_picks_validation sch body st msg :
  resp (save_picks sch body st) = Failure 400 msg →
  msg = "Missing required data"
  ∧ state (save_picks sch body st) = st
  ∧ console (save_picks sch body st) = [received_line]
  ∧ (Js.truthy (sp_userId body) = false ∨ Js.truthy (sp_leagueId body) = false
     ∨ Js.truthy (sp_eventId body) = false ∨ sp_picks body = PicksAbsent).
Proof.
  unfold save_picks.
  destruct (sp_picks body) as [|entries|];
    [intros [= <-]; split_and!; auto| |].
  all: destruct (Js.truthy (sp_userId body)); simpl;
    [|intros [= <-]; split_and!; auto].
  all: destruct (Js.truthy (sp_leagueId body)); simpl;
    [|intros [= <-]; split_and!; auto].
  all: destruct (Js.truthy (sp_eventId body)); simpl;
    [|intros [= <-]; split_and!; auto].
  - destruct (insert_loop _ _ _ _ _ _) as [r [thrown|]]; [done|].
    by destruct (_ && _).
  - done.
Qed.

Lemma save_picks_statuses sch body st status msg :
  resp (save_picks sch body st) = Failure status msg →
  status = 400 ∨ status = 500.
Proof.
  unfold save_picks.
  destruct (sp_picks body); [intros [= <- _]; by left| |].
  all: destruct (_ && _); [|intros [= <- _]; by left]; simpl.
  - destruct (insert_loop _ _ _ _ _ _) as [r [thrown|]];
      [intros [= <- _]; by right|].
    destruct (_ && _); [|done]. intros [= <- _]. by right.
  - intros [= <- _]. by right.
Qed.

(** X14. The error answers of save-picks carry status 400 or 500, and two of
    them tell what was written.  A 400 comes before any statement is run: a
    field is missing or falsy and nothing is written.  The answer that all
    picks failed comes with status 500 after the DELETE and after the loop
    has reached its end: at least one selection was tried and every INSERT
    was refused, so the old picks of the scope are gone and nothing has
    taken their place, while the picks outside the scope are kept. *)
Theorem save_picks_error_answers sch body st status msg :
  resp (save_picks sch body st) = Failure status msg →
  let u := Js.to_string (sp_userId body) in
  let l := Js.to_string (sp_leagueId body) in
  let e := Js.to_string (sp_eventId body) in
  (status = 400 ∨ status = 500)
  ∧ (status = 400 →
     msg = "Missing required data" ∧ state (save_picks sch body st) = st)
  ∧ (msg = all_failed_error →
     status = 500
     ∧ picks (state (save_picks sch body st))
       = filter (λ p, ¬ in_scope u l e p) (picks st)
     ∧ ∃ entries, sp_picks body = PicksArray entries
         ∧ thrown_by entries = None ∧ attempted entries ≠ []).
Proof.
  intros Hfail u l e. split_and!.
  - by eapply save_picks_statuses.
  - intros ->.
    destruct (save_picks_validation sch body st msg Hfail) as (? & ? & _).
    by split.
  - intros ->. by apply save_picks_failure_after_delete.
Qed.

(** ** The leaderboard of a new league *)

Lemma filter_key_singleton {A K} `{!EqDecision K} (f : A → K) (l : list A) x :
  NoDup (f <$> l) → x ∈ l → filter (λ y, f y = f x) l = [x].
Proof.
  induction l as [|y l IH]; [by intros _ ?%elem_of_nil|].
  rewrite fmap_cons. intros [Hy Hl]%NoDup_cons [->|Hin]%elem_of_cons.
  - rewrite filter_cons, decide_True by done. f_equal.
    apply filter_none, Forall_forall. intros z Hz Heq. apply Hy.
    rewrite <- Heq. by apply list_elem_of_fmap_2.
  - rewrite filter_cons, decide_False; [by apply IH|].
    intros Heq. apply Hy. rewrite Heq. by apply list_elem_of_fmap_2.
Qed.

Section new_league.

Variable sch : schema.
Context (name_le : relation string) `{!RelDecision name_le}.

(** X23. Right after a league was created, its leaderboard shows the owner
    alone, with 0 points (when the owner is a user and no pick was stored
    under the new id beforehand). *)
Theorem new_league_leaderboard name ownerID scoringRules leagueCode random_code
    st body st1 owner :
  create_league sch name ownerID scoringRules leagueCode random_code st
  = (Success body, st1) →
  ledger_inv st →
  NoDup (u_UserID <$> users st) →
  owner ∈ users st → u_UserID owner = Js.to_string ownerID →
  count_picks (cl_leagueId body) st = 0 →
  get_leaderboard name_le (cl_leagueId body) st1
  = Success [ {| lb_UserID := u_UserID owner; lb_Username := u_Username owner;
                 lb_Email := u_Email owner; lb_TotalPoints := 0 |} ].
Proof.
  intros Hcreate Hinv Hnd Hin Howner Hpicks.
  assert (Hinv1 : ledger_inv st1).
  { pose proof (create_league_inv sch name ownerID scoringRules leagueCode
                  random_code st Hinv) as H. by rewrite Hcreate in H. }
  destruct Hinv as [_ Hfresh].
  revert Hcreate Hpicks. unfold create_league.
  destruct (Js.truthy name && Js.truthy ownerID); [|done].
  destruct (league_insert sch st _);
    [unfold create_league_error; by repeat case_decide|].
  set (row := {| l_LeagueID := pretty (next_league_id st) |}).
  destruct (membership_insert sch _ _);
    [unfold create_league_error; by repeat case_decide|].
  intros [= <- <-]. cbn [cl_leagueId]. intros Hpicks.
  set (newId := pretty (next_league_id st)) in *.
  set (st1 := set_memberships _ _) in *.
  assert (Hmember : ∀ u, is_member newId st1 u ↔ u_UserID u = u_UserID owner).
  { intros u. unfold is_member, memberships_of, st1. simpl.
    rewrite filter_app.
    pose proof (memberships_of_fresh (u_UserID u) st (next_league_id st) Hfresh
                  (le_n _)) as Hnone.
    unfold memberships_of in Hnone. fold newId in Hnone. rewrite Hnone.
    simpl. rewrite filter_cons, filter_nil. simpl. rewrite Howner.
    case_decide as Hk; split; try done.
    - by intros _; destruct Hk.
    - intros Heq. exfalso. apply Hk. by split. }
  unfold get_leaderboard.
  rewrite decide_False by apply pretty_nat_nonempty.
  rewrite leaderboard_groups_members; [|exact Hnd|by destruct Hinv1].
  rewrite (list_filter_iff _ (λ u, u_UserID u = u_UserID owner)) by exact Hmember.
  rewrite (filter_key_singleton u_UserID (users st) owner Hnd Hin).
  simpl. do 2 f_equal. unfold leaderboard_row_of. f_equal.
  unfold user_points, league_picks. rewrite filter_none; [done|].
  apply (filter_length_zero (λ p, p_LeagueID p = newId)) in Hpicks.
  eapply Forall_impl; [exact Hpicks|]. simpl. tauto.
Qed.

End new_league.

(** * The statements at work on the small database *)

(** The resubmission of user 1 for event e1 in league 1, to a database that
    refuses fighter f8. *)
Lemma save_picks_replaces_scope_witness :
  ∃ inserted,
    picks (state (save_picks (reject_fighter "f8")
                    (demo_body (PicksArray (Some <$> demo_selections))) demo_db))
    = [demo_pick 1 "1" "1" "e2" "f2" 3; demo_pick 2 "2" "1" "e1" "f1" 8]
        ++ inserted
    ∧ Forall (λ p, p_PointsEarned p = 0%Z ∧ 3 ≤ p_PickID p) inserted
    ∧ (p_FighterID <$> inserted) `sublist_of` ["f3"; "f8"; "7"].
Proof.
  assert (Hne : Some <$> demo_selections ≠ []) by done.
  destruct (save_picks_replaces_scope (reject_fighter "f8")
              (demo_body (PicksArray (Some <$> demo_selections))) demo_db
              (Some <$> demo_selections)
              eq_refl eq_refl eq_refl eq_refl Hne)
    as (ins & H1 & _ & H3 & H4 & _).
  exists ins. split_and!; [exact H1|exact H3|exact H4].
Defined.

Lemma save_picks_partial_failure_witness :
  last (console (save_picks (reject_fighter "f8")
                   (demo_body (PicksArray (Some <$> demo_selections))) demo_db))
  = Some "✅ RESULT: 2 saved, 1 failed."
  ∧ resp (save_picks (reject_fighter "f8")
            (demo_body (PicksArray (Some <$> demo_selections))) demo_db)
    ≠ Failure 500 all_failed_error.
Proof.
  assert (Hne : demo_selections ≠ []) by done.
  destruct (save_picks_partial_failure (reject_fighter "f8")
              (demo_body (PicksArray (Some <$> demo_selections))) demo_db demo_selections
              eq_refl eq_refl eq_refl eq_refl Hne)
    as (_ & _ & _ & Hlast & Hfail & _).
  split; [exact Hlast|].
  intros Hresp. apply Hfail in Hresp as [_ Hall]. vm_compute in Hall. lia.
Defined.

Lemma save_picks_skips_missing_fighter_witness :
  resp (save_picks accept_all
          (demo_body (PicksArray
             [ Some {| fightId := Js.Str "x1"; fighterId := Js.Undefined |};
               Some {| fightId := Js.Str "x2"; fighterId := Js.Str "" |} ]))
          demo_db)
  = Success {| sp_message := "Saved 0 picks"; sp_picksCount := 0 |}
  ∧ filter (in_scope "1" "1" "e1")
      (picks (state (save_picks accept_all
         (demo_body (PicksArray
            [ Some {| fightId := Js.Str "x1"; fighterId := Js.Undefined |};
              Some {| fightId := Js.Str "x2"; fighterId := Js.Str "" |} ]))
         demo_db)))
    = [].
Proof.
  destruct (save_picks_skips_missing_fighter accept_all
              (demo_body (PicksArray
                 [ Some {| fightId := Js.Str "x1"; fighterId := Js.Undefined |};
                   Some {| fightId := Js.Str "x2"; fighterId := Js.Str "" |} ]))
              demo_db
              [ {| fightId := Js.Str "x1"; fighterId := Js.Undefined |};
                {| fightId := Js.Str "x2"; fighterId := Js.Str "" |} ]
              eq_refl eq_refl eq_refl eq_refl)
    as (_ & _ & H).
  destruct H as (Hresp & _ & _ & Hscope); [done|by repeat constructor|].
  split; [exact Hresp|exact Hscope].
Defined.

(** C4 on the code.  User 1 submits three elements for event e1 in league 1
    to a database that accepts every row: a selection of fighter f3, [null],
    and a selection of fighter f4.  The first selection is stored; reading
    [fighterId] of the second element throws, the loop is left, and the
    third selection is never inserted.  The answer is the 500 of the outer
    [catch] with the message of the [TypeError], although one pick was saved
    and none was refused; the old pick of the scope stays deleted. *)
Theorem save_picks_null_entry_aborts :
  let body :=
    demo_body (PicksArray
      [ Some {| fightId := Js.Str "x1"; fighterId := Js.Str "f3" |};
        None;
        Some {| fightId := Js.Str "x2"; fighterId := Js.Str "f4" |} ]) in
  let o := save_picks accept_all body demo_db in
  resp o = Failure 500 "Cannot read properties of null (reading 'fighterId')"
  ∧ picks (state o)
    = [ demo_pick 1 "1" "1" "e2" "f2" 3; demo_pick 2 "2" "1" "e1" "f1" 8;
        demo_pick 3 "1" "1" "e1" "f3" 0 ]
  ∧ console o
    = [ "📨 RECEIVED SAVE REQUEST";
        "🔄 Deleting old picks for User 1, Event e1...";
        "❌ FATAL SAVE ERROR: Cannot read properties of null (reading 'fighterId')" ]
  ∧ resp o ≠ Failure 500 all_failed_error
  ∧ ∀ p, p ∈ picks (state o) → p_FighterID p ≠ "f4".
Proof.
  cbv zeta. split_and!; try by vm_compute.
  intros p Hp. vm_compute in Hp.
  repeat (apply elem_of_cons in Hp as [->|Hp]; [by vm_compute|]).
  by apply elem_of_nil in Hp.
Qed.

(** C10 on the code.  User 1 has a pick for event e1 in league 1 and submits
    for the same scope an array whose elements are an object without
    [fighterId] and [null].  The object is passed over in silence; reading
    [fighterId] of [null] throws.  The answer is not a success with
    [picksCount] 0 but the 500 of the outer [catch], and the pick of the
    scope is gone. *)
Theorem save_picks_null_entry_not_skipped :
  let body :=
    demo_body (PicksArray
      [ Some {| fightId := Js.Str "x1"; fighterId := Js.Undefined |}; None ]) in
  let o := save_picks accept_all body demo_db in
  filter (in_scope "1" "1" "e1") (picks demo_db)
  = [demo_pick 0 "1" "1" "e1" "f1" 5]
  ∧ resp o = Failure 500 "Cannot read properties of null (reading 'fighterId')"
  ∧ resp o ≠ Success {| sp_message := "Saved 0 picks"; sp_picksCount := 0 |}
  ∧ picks (state o)
    = [ demo_pick 1 "1" "1" "e2" "f2" 3; demo_pick 2 "2" "1" "e1" "f1" 8 ]
  ∧ filter (in_scope "1" "1" "e1") (picks (state o)) = [].
Proof. cbv zeta. split_and!; by vm_compute. Qed.

(** C2 on the code.  User 1 has a pick for event e1 in league 1; a
    submission for the same scope with an empty list is not refused: it is
    answered with a success, and the pick is gone. *)
Theorem save_picks_empty_list_wipes :
  filter (in_scope "1" "1" "e1") (picks demo_db)
  = [demo_pick 0 "1" "1" "e1" "f1" 5]
  ∧ resp (save_picks accept_all (demo_body (PicksArray [])) demo_db)
    = Success {| sp_message := "Saved 0 picks"; sp_picksCount := 0 |}
  ∧ filter (in_scope "1" "1" "e1")
      (picks (state (save_picks accept_all (demo_body (PicksArray [])) demo_db)))
    = [].
Proof. split_and!; by vm_compute. Qed.

Lemma demo_db_at_most_one : at_most_one_membership demo_db.
Proof.
  intros u l. unfold memberships_of. simpl.
  rewrite !filter_cons, filter_nil. repeat case_decide; simpl; try lia.
  all: destruct_and!; simplify_eq.
Defined.

Lemma leaderboard_rows_sorted_witness :
  get_leaderboard String.le "1" demo_db
  = Success
      [ {| lb_UserID := "2"; lb_Username := "alice"; lb_Email := "alice@example.org";
           lb_TotalPoints := 8 |};
        {| lb_UserID := "1"; lb_Username := "bob"; lb_Email := "bob@example.org";
           lb_TotalPoints := 8 |};
        {| lb_UserID := "4"; lb_Username := "dora"; lb_Email := "dora@example.org";
           lb_TotalPoints := 0 |} ]
  ∧ ∃ data, get_leaderboard String.le "1" demo_db = Success data
            ∧ StronglySorted (leaderboard_order String.le) data.
Proof.
  split; [by vm_compute|].
  destruct (leaderboard_rows_sorted String.le "1" demo_db)
    as (data & Hdata & _ & Hsorted & _).
  - done.
  - apply (bool_decide_unpack (NoDup (u_UserID <$> users demo_db))).
    by vm_compute.
  - exact demo_db_at_most_one.
  - exists data. by split.
Defined.

(** C5 on the code.  The query "silva" matches both fighters of the first
    fight.  The fight is listed once, from the side of the red corner: its
    result reads "Loss", although the matched fighter in the blue corner is
    the recorded winner. *)
Lemma history_blue_corner_winner :
  get_fighter_history sql_like_ci (Some "silva") demo_db
  = Success
      {| h_data :=
           [ {| h_EventName := "UFC 2"; h_EventDate := 19100;
                h_Location := "New York"; h_Opponent := "Jon Jones";
                h_Result := "Draw"; h_Method := Some "Draw"; h_Round := None |};
             {| h_EventName := "UFC 1"; h_EventDate := 19000;
                h_Location := "Las Vegas"; h_Opponent := "Erick Silva";
                h_Result := "Loss"; h_Method := Some "KO";
                h_Round := Some 2%Z |} ];
         h_fighters := Some [("f1", "Anderson Silva"); ("f3", "Erick Silva")];
         h_message := None |}
  ∧ ¬ (∀ r me,
         let ids := f_fighter_id <$> matching_fighters sql_like_ci "silva" demo_db in
         r ∈ history_join_rows ids demo_db →
         me ∈ ids →
         me = ft_red_fighter_id (hj_fight r) ∨ me = ft_blue_fighter_id (hj_fight r) →
         h_Result (process_fight ids r) = result_relative_to me (hj_fight r)).
Proof.
  split; [by vm_compute|].
  intros Hclaim.
  specialize (Hclaim
    {| hj_fight := demo_fight_1;
       hj_event := {| e_event_id := "e1"; e_event_name := "UFC 1";
                      e_date := 19000; e_location := "Las Vegas" |};
       hj_fa := {| f_fighter_id := "f1"; f_name := "Anderson Silva";
                   f_wins := Js.Num 34; f_losses := Js.Num 11;
                   f_draws := Js.Num 0 |};
       hj_fb := {| f_fighter_id := "f3"; f_name := "Erick Silva";
                   f_wins := Js.Num 20; f_losses := Js.Num 11;
                   f_draws := Js.Num 0 |} |} "f3").
  cbv zeta in Hclaim.
  assert (Hids : f_fighter_id <$> matching_fighters sql_like_ci "silva" demo_db
                 = ["f1"; "f3"]) by by vm_compute.
  rewrite Hids in Hclaim.
  assert (Hrows : history_join_rows ["f1"; "f3"] demo_db
                  = [ {| hj_fight := demo_fight_1;
       hj_event := {| e_event_id := "e1"; e_event_name := "UFC 1";
                      e_date := 19000; e_location := "Las Vegas" |};
       hj_fa := {| f_fighter_id := "f1"; f_name := "Anderson Silva";
                   f_wins := Js.Num 34; f_losses := Js.Num 11;
                   f_draws := Js.Num 0 |};
       hj_fb := {| f_fighter_id := "f3"; f_name := "Erick Silva";
                   f_wins := Js.Num 20; f_losses := Js.Num 11;
                   f_draws := Js.Num 0 |} |};
                      {| hj_fight := demo_fight_2;
       hj_event := {| e_event_id := "e2"; e_event_name := "UFC 2";
                      e_date := 19100; e_location := "New York" |};
       hj_fa := {| f_fighter_id := "f2"; f_name := "Jon Jones";
                   f_wins := Js.Num 27; f_losses := Js.Num 1;
                   f_draws := Js.Num 0 |};
       hj_fb := {| f_fighter_id := "f1"; f_name := "Anderson Silva";
                   f_wins := Js.Num 34; f_losses := Js.Num 11;
                   f_draws := Js.Num 0 |} |} ]) by by vm_compute.
  rewrite Hrows in Hclaim.
  assert (Hne : ("Loss" : string) = "Win"); [|done].
  apply Hclaim; [left|right; left|by right].
Qed.

Lemma history_result_relative_witness :
  ∃ rows,
    get_fighter_history sql_like_ci (Some "jones") demo_db
    = Success {| h_data := process_fight ["f2"] <$> rows;
                 h_fighters := Some [("f2", "Jon Jones")];
                 h_message := None |}
    ∧ Sorted newest_first (process_fight ["f2"] <$> rows).
Proof.
  destruct (history_result_relative sql_like_ci "jones" demo_db)
    as (rows & Hresp & _ & Hsorted & _); [done|by vm_compute|].
  exists rows. split; [exact Hresp|exact Hsorted].
Defined.

Lemma history_no_match_witness :
  get_fighter_history sql_like_ci (Some "zzz") demo_db
  = Success {| h_data := []; h_fighters := None;
               h_message := Some "No fighters found" |}
  ∧ get_fighter_history sql_like_ci (Some "conor") demo_db
    = Success {| h_data := [];
                 h_fighters := Some [("f4", "Conor McGregor")];
                 h_message := None |}.
Proof.
  split.
  - apply (history_no_match sql_like_ci "zzz" demo_db); [done|by vm_compute].
  - apply (history_no_match sql_like_ci "conor" demo_db);
      [done|by vm_compute|by vm_compute].
Defined.

(** C7, the last part as stated.  On a database that stores a pick under any
    league id, user 1 saves a pick under the id 2, which no league has.
    Deleting the id 2 is then stopped by the guard on picks and answered
    with the 400 error, not with 404. *)
Lemma delete_league_missing_but_referenced :
  let body := {| sp_userId := Js.Str "1"; sp_leagueId := Js.Str "2";
                 sp_eventId := Js.Str "e1";
                 sp_picks := PicksArray [ Some {| fightId := Js.Str "x1";
                                                  fighterId := Js.Str "f1" |} ] |} in
  let st := state (save_picks accept_all body demo_db) in
  ¬ league_exists "2" st
  ∧ delete_league "2" st = (Failure 400 has_picks_error, st)
  ∧ (delete_league "2" st).1 ≠ Failure 404 "League not found".
Proof.
  cbv zeta. split_and!; [|by vm_compute|by vm_compute].
  unfold league_exists. apply (bool_decide_unpack _). by vm_compute.
Qed.

Lemma demo_db_references : references_resolved demo_db.
Proof.
  assert (Hone : league_exists "1" demo_db) by (left; reflexivity).
  split; repeat constructor; exact Hone.
Defined.

Lemma delete_league_guarded_witness :
  (delete_league "1" demo_db).2 = demo_db
  ∧ delete_league "7" demo_db = (Failure 404 "League not found", demo_db).
Proof.
  destruct (delete_league_guarded "1" demo_db) as (Hrefused & _ & _); [done|].
  destruct (delete_league_guarded "7" demo_db) as (_ & _ & Hmissing); [done|].
  split.
  - apply Hrefused. left. vm_compute. lia.
  - apply Hmissing; [by vm_compute|by vm_compute|].
    unfold league_exists. apply (bool_decide_unpack _). by vm_compute.
Defined.

Lemma demo_db_ledger_inv : ledger_inv demo_db.
Proof.
  split; [exact demo_db_at_most_one|].
  intros k Hk. simpl in Hk.
  assert (Hone : pretty k ≠ "1").
  { change "1" with (pretty 1). intros Heq%(inj pretty). lia. }
  split; repeat constructor; simpl; congruence.
Defined.

Lemma membership_stays_unique_witness :
  at_most_one_membership
    (run accept_all
       [ JoinLeague (Js.Str "ABC123") (Js.Num 2);
         JoinLeague (Js.Str "ABC123") (Js.Num 3);
         CreateLeague (Js.Str "Cage") (Js.Num 3) Js.Undefined Js.Undefined "K3J9X0Q2ZA";
         JoinLeague (Js.Str "ABC123") (Js.Num 3) ]
       demo_db)
  ∧ join_league accept_all (Js.Str "ABC123") (Js.Str "2") demo_db
    = (Failure 400 "You are already a member of this league", demo_db).
Proof.
  destruct (membership_stays_unique accept_all
              [ JoinLeague (Js.Str "ABC123") (Js.Num 2);
                JoinLeague (Js.Str "ABC123") (Js.Num 3);
                CreateLeague (Js.Str "Cage") (Js.Num 3) Js.Undefined Js.Undefined
                  "K3J9X0Q2ZA";
                JoinLeague (Js.Str "ABC123") (Js.Num 3) ]
              demo_db demo_db_ledger_inv) as (_ & Hrun & Hjoin).
  split; [exact Hrun|].
  eapply Hjoin; [done|done|by vm_compute|by vm_compute].
Defined.

(** The fights of event e2: a pending draw, and a fight whose blue corner
    has no fighter row. *)
Example event_fights_demo :
  get_event_fights "e2" demo_db
  = Success
      [ {| fv_FightID := "x2"; fv_FighterA_ID := "f2"; fv_FighterB_ID := "f1";
           fv_FighterAName := Js.Str "Jon Jones";
           fv_FighterARecord := Js.Str "27-1-0";
           fv_FighterBName := Js.Str "Anderson Silva";
           fv_FighterBRecord := Js.Str "34-11-0";
           fv_WeightClass := "Middleweight"; fv_Result := "Pending";
           fv_Method := "Draw"; fv_Round := Js.Str "-" |};
        {| fv_FightID := "x3"; fv_FighterA_ID := "f2"; fv_FighterB_ID := "f9";
           fv_FighterAName := Js.Str "Jon Jones";
           fv_FighterARecord := Js.Str "27-1-0";
           fv_FighterBName := Js.Str "Unknown"; fv_FighterBRecord := Js.Str "";
           fv_WeightClass := "Catchweight"; fv_Result := "Unknown Win";
           fv_Method := "-"; fv_Round := Js.Str "-" |} ].
Proof. by vm_compute. Qed.

Lemma event_fights_view_demo :
  ∃ data,
    get_event_fights "e2" demo_db = Success data
    ∧ Forall2 (fight_view_of (fighters demo_db)) [demo_fight_2; demo_fight_3] data.
Proof.
  destruct (event_fights_view "e2" demo_db) as (data & Hget & Hviews & _).
  - repeat constructor; done.
  - exists data. split; [exact Hget|exact Hviews].
Qed.

(** C6 on the code.  The fight of event e3 has the fighter id [constructor]
    in its red corner, and no fighter row has that id.  The lookup in the
    plain object finds the function [Object] that every object inherits
    under that key, so the stand-in is not used: the name shown for the
    corner is "Object", the corner has no record, and the result reads
    "Object Win". *)
Theorem event_fights_inherited_key :
  Forall (λ f, f_fighter_id f ≠ "constructor") (fighters demo_db_e3)
  ∧ get_event_fights "e3" demo_db_e3
    = Success
        [ {| fv_FightID := "x4";
             fv_FighterA_ID := "constructor"; fv_FighterB_ID := "f1";
             fv_FighterAName := Js.Str "Object";
             fv_FighterARecord := Js.Undefined;
             fv_FighterBName := Js.Str "Anderson Silva";
             fv_FighterBRecord := Js.Str "34-11-0";
             fv_WeightClass := "Lightweight"; fv_Result := "Object Win";
             fv_Method := "KO"; fv_Round := Js.Num 1 |} ].
Proof.
  split; [|by vm_compute].
  repeat constructor; done.
Qed.

(** * The further properties at work on the small database *)

Lemma demo_db_user_ids : user_ids_inv demo_db.
Proof.
  split.
  - apply (bool_decide_unpack (NoDup (u_UserID <$> users demo_db))).
    by vm_compute.
  - intros k Hk. simpl in Hk.
    assert (H1 : pretty 1 ≠ pretty k) by (intros Heq%(inj pretty); lia).
    assert (H2 : pretty 2 ≠ pretty k) by (intros Heq%(inj pretty); lia).
    assert (H3 : pretty 3 ≠ pretty k) by (intros Heq%(inj pretty); lia).
    assert (H4 : pretty 4 ≠ pretty k) by (intros Heq%(inj pretty); lia).
    repeat constructor; simpl; assumption.
Defined.

Lemma user_ids_stay_unique_witness :
  NoDup (u_UserID <$> users (run accept_all demo_requests demo_db)).
Proof.
  apply (user_ids_stay_unique accept_all demo_requests demo_db demo_db_user_ids).
Defined.

Lemma demo_db_pick_ids : pick_ids_inv demo_db.
Proof.
  split.
  - apply (bool_decide_unpack (NoDup (p_PickID <$> picks demo_db))).
    by vm_compute.
  - repeat constructor; simpl; lia.
Defined.

Lemma pick_ids_stay_unique_witness :
  NoDup (p_PickID <$> picks (run (reject_fighter "f8") demo_requests demo_db)).
Proof.
  apply (pick_ids_stay_unique (reject_fighter "f8") demo_requests demo_db
           demo_db_pick_ids).
Defined.

Lemma refusals_write_nothing_witness :
  (join_league accept_all (Js.Str "NOCODE") (Js.Num 3) demo_db).2 = demo_db
  ∧ (delete_league "1" demo_db).2 = demo_db.
Proof.
  destruct (refusals_write_nothing accept_all demo_db) as (_ & Hjoin & Hdel).
  split.
  - apply (Hjoin _ _ 404 "Invalid league code"). by vm_compute.
  - apply (Hdel _ 400 has_members_error). by vm_compute.
Defined.

Lemma join_league_once_witness :
  join_league accept_all (Js.Str "ABC123") (Js.Num 3)
    (join_league accept_all (Js.Str "ABC123") (Js.Num 3) demo_db).2
  = (Failure 400 "You are already a member of this league",
     (join_league accept_all (Js.Str "ABC123") (Js.Num 3) demo_db).2).
Proof.
  apply (join_league_once accept_all (Js.Str "ABC123") (Js.Num 3) demo_db
           {| jl_message := "Successfully joined league: Octagon";
              jl_leagueId := "1"; jl_leagueName := "Octagon" |}).
  by vm_compute.
Defined.

Lemma demo_db_fresh_leagues : fresh_league_ids demo_db.
Proof. exact (proj2 demo_db_ledger_inv). Defined.

Lemma demo_create_league :
  create_league accept_all (Js.Str "Cage") (Js.Num 3) Js.Undefined Js.Undefined
    "K3J9X0Q2ZA" demo_db
  = (Success {| cl_message := "League created successfully";
                cl_leagueId := "2"; cl_leagueCode := "K3J9X0Q2ZA" |},
     (create_league accept_all (Js.Str "Cage") (Js.Num 3) Js.Undefined
        Js.Undefined "K3J9X0Q2ZA" demo_db).2).
Proof. by vm_compute. Defined.

Lemma create_then_join_witness :
  join_league accept_all (Js.Str "K3J9X0Q2ZA") (Js.Num 3)
    (create_league accept_all (Js.Str "Cage") (Js.Num 3) Js.Undefined
       Js.Undefined "K3J9X0Q2ZA" demo_db).2
  = (Failure 400 "You are already a member of this league",
     (create_league accept_all (Js.Str "Cage") (Js.Num 3) Js.Undefined
        Js.Undefined "K3J9X0Q2ZA" demo_db).2).
Proof.
  refine (proj1 (create_then_join accept_all _ _ _ _ _ demo_db _ _
                   demo_create_league _ _ demo_db_fresh_leagues)).
  - done.
  - repeat constructor; simpl; done.
Defined.

Lemma create_league_without_owner_witness :
  (∃ status msg,
     (create_league refuse_memberships (Js.Str "Cage") (Js.Num 3) Js.Undefined
        Js.Undefined "K3J9X0Q2ZA" demo_db).1 = Failure status msg)
  ∧ count_members "2"
      (create_league refuse_memberships (Js.Str "Cage") (Js.Num 3) Js.Undefined
         Js.Undefined "K3J9X0Q2ZA" demo_db).2 = 0.
Proof.
  destruct (create_league_without_owner refuse_memberships (Js.Str "Cage")
              (Js.Num 3) Js.Undefined Js.Undefined "K3J9X0Q2ZA" demo_db
              {| code := "ER_LOCK_WAIT_TIMEOUT";
                 message := "Lock wait timeout exceeded" |}
              eq_refl eq_refl demo_db_fresh_leagues eq_refl eq_refl)
    as (Hresp & Herr & _ & Hcount & _).
  split.
  - rewrite Hresp. exact Herr.
  - rewrite Hresp. exact Hcount.
Defined.

Lemma league_lookup_round_trip_witness :
  ∃ lg, get_league "2"
          (create_league accept_all (Js.Str "Cage") (Js.Num 3) Js.Undefined
             Js.Undefined "K3J9X0Q2ZA" demo_db).2 = Success lg
        ∧ l_Name lg = "Cage" ∧ l_OwnerID lg = "3"
        ∧ l_LeagueCode lg = "K3J9X0Q2ZA".
Proof.
  destruct (league_lookup_round_trip accept_all _ _ _ _ _ demo_db _ _
              demo_create_league demo_db_fresh_leagues)
    as ((lg & Hget & _ & Hname & Howner & Hcode) & _).
  exists lg. by split_and!.
Defined.

Lemma league_with_member_stays_witness :
  delete_league "1" (run accept_all demo_requests demo_db)
  = (Failure 400 has_members_error, run accept_all demo_requests demo_db).
Proof.
  apply (league_with_member_stays accept_all demo_requests demo_db
           {| m_UserID := "1"; m_LeagueID := "1"; m_Role := "Owner" |}).
  - left.
  - left. reflexivity.
  - done.
Defined.

Lemma login_sound_witness :
  login demo_compare (Js.Str "nobody") (Js.Str "bob") demo_db
  = Failure 401 invalid_login
  ∧ login demo_compare (Js.Str "bob") (Js.Str "wrong") demo_db
    = Failure 401 invalid_login.
Proof.
  split.
  - apply (login_sound demo_compare (Js.Str "nobody") (Js.Str "bob") demo_db);
      [done|done|].
    left. repeat constructor; simpl; done.
  - apply (login_sound demo_compare (Js.Str "bob") (Js.Str "wrong") demo_db);
      [done|done|].
    right. eexists _, _. split; by vm_compute.
Defined.

Lemma register_then_login_witness :
  login demo_compare (Js.Str "erin") (Js.Str "pw")
    (register accept_all (Js.Str "erin") (Js.Str "erin@example.org")
       (Js.Str "pw") "$2b$10$pw" demo_db).2
  = Success {| lg_message := "Login successful"; lg_userId := "5";
               lg_username := "erin"; lg_email := "erin@example.org" |}.
Proof.
  refine (register_then_login accept_all demo_compare (Js.Str "erin")
            (Js.Str "erin@example.org") (Js.Str "pw") "$2b$10$pw" demo_db
            {| reg_message := "User registered successfully";
               reg_userId := "5"; reg_username := "erin" |} _ _ _ _).
  - by vm_compute.
  - repeat constructor; simpl; done.
  - by vm_compute.
Defined.


(** Bob had 5 points on event e1 and 3 on e2; after resubmitting for e1 his
    total in league 1 is 3. *)
Lemma save_picks_resets_points_witness :
  user_points "1" demo_db demo_bob = 8%Z
  ∧ user_points "1"
      (state (save_picks (reject_fighter "f8")
                (demo_body (PicksArray (Some <$> demo_selections))) demo_db)) demo_bob
    = 3%Z.
Proof.
  split; [by vm_compute|].
  rewrite (save_picks_resets_points (reject_fighter "f8")
             (demo_body (PicksArray (Some <$> demo_selections))) demo_db
             (Some <$> demo_selections)
             "1" demo_bob eq_refl eq_refl eq_refl eq_refl).
  by vm_compute.
Defined.

Lemma save_picks_count_witness :
  length (filter (in_scope "1" "1" "e1")
            (picks (state (save_picks (reject_fighter "f8")
                             (demo_body (PicksArray (Some <$> demo_selections))) demo_db))))
  = 2.
Proof.
  symmetry.
  apply (save_picks_count (reject_fighter "f8")
           (demo_body (PicksArray (Some <$> demo_selections))) demo_db
           {| sp_message := "Saved 2 picks (1 failed)"; sp_picksCount := 2 |}).
  by vm_compute.
Defined.

Lemma save_picks_error_answers_witness :
  picks (state (save_picks (reject_fighter "f8")
                  (demo_body (PicksArray [ Some {| fightId := Js.Str "x7";
                                                   fighterId := Js.Str "f8" |} ]))
                  demo_db))
  = [demo_pick 1 "1" "1" "e2" "f2" 3; demo_pick 2 "2" "1" "e1" "f1" 8].
Proof.
  destruct (save_picks_error_answers (reject_fighter "f8")
              (demo_body (PicksArray [ Some {| fightId := Js.Str "x7";
                                               fighterId := Js.Str "f8" |} ]))
              demo_db 500 all_failed_error)
    as (_ & _ & Hfailed); [by vm_compute|].
  destruct Hfailed as (_ & Hpicks & _); [done|exact Hpicks].
Defined.

Lemma demo_db_event_keys :
  Forall (λ e, Js.trim (e_event_id e) ≠ "__proto__") (events demo_db).
Proof. repeat constructor; by vm_compute. Defined.

Lemma demo_db_fighter_keys :
  Forall (λ f, Js.trim (f_fighter_id f) ≠ "__proto__") (fighters demo_db).
Proof. repeat constructor; by vm_compute. Defined.

Lemma user_picks_view_witness :
  ∃ data,
    get_user_picks demo_weight "1" "1" demo_db = Success data
    ∧ Forall2 (pick_view_of demo_db)
        (filter (λ p, p_UserID p = "1" ∧ p_LeagueID p = "1") (picks demo_db))
        data.
Proof.
  apply (user_picks_view demo_weight "1" "1" demo_db
           demo_db_event_keys demo_db_fighter_keys).
Defined.

(** A pick whose fighter id is the name of an inherited function: user 3
    saves the fighter id [toString] for event e9, and the pick list shows
    the function's name for the fighter and the stand-in for the event. *)
Example user_picks_inherited_key :
  let body := {| sp_userId := Js.Str "3"; sp_leagueId := Js.Str "1";
                 sp_eventId := Js.Str "e9";
                 sp_picks := PicksArray [ Some {| fightId := Js.Str "x1";
                                                  fighterId := Js.Str "toString" |} ] |} in
  get_user_picks demo_weight "3" "1" (state (save_picks accept_all body demo_db))
  = Success
      [ {| up_PickID := 3; up_EventID := "e9";
           up_EventName := Js.Str "Unknown Event (ID: e9)";
           up_EventDate := Js.Str "";
           up_FighterName := Js.Str "toString";
           up_FighterRecord := Js.Undefined;
           up_WeightClass := Js.Undefined;
           up_PointsEarned := 0 |} ].
Proof. by vm_compute. Qed.

Lemma pick_list_matches_leaderboard_witness :
  ∃ board entries,
    get_leaderboard String.le "1" demo_db = Success board
    ∧ get_user_picks demo_weight "1" "1" demo_db = Success entries
    ∧ {| lb_UserID := "1"; lb_Username := "bob"; lb_Email := "bob@example.org";
         lb_TotalPoints := foldr Z.add 0%Z (up_PointsEarned <$> entries) |}
      ∈ board.
Proof.
  apply (pick_list_matches_leaderboard demo_weight String.le "1" demo_db demo_bob).
  - done.
  - apply (bool_decide_unpack (NoDup (u_UserID <$> users demo_db))).
    by vm_compute.
  - exact demo_db_at_most_one.
  - left.
  - unfold is_member. by vm_compute.
Defined.

Lemma leaderboard_without_members_witness :
  get_leaderboard String.le "9" demo_db = Success [].
Proof.
  apply (leaderboard_without_members String.le "9" demo_db); [done|].
  by vm_compute.
Defined.

(** The third fight has a matched red corner, but no fighter row for its
    blue corner: the history of "jones" does not list it. *)
Lemma history_lists_complete_fights_witness :
  ∃ body rows,
    get_fighter_history sql_like_ci (Some "jones") demo_db = Success body
    ∧ h_data body = process_fight ["f2"] <$> rows
    ∧ ¬ ∃ r, r ∈ rows ∧ hj_fight r = demo_fight_3.
Proof.
  destruct (history_lists_complete_fights sql_like_ci "jones" demo_db
              demo_fight_3)
    as (body & rows & Hget & Hdata & Hiff); [done|by vm_compute|].
  exists body, rows. split_and!; [exact Hget|exact Hdata|].
  intros Hrow. apply Hiff in Hrow as (_ & (_ & _ & Hblue) & _).
  apply Exists_exists in Hblue as (x & Hin & Hid).
  simpl in Hin, Hid. rewrite !elem_of_cons, elem_of_nil in Hin.
  destruct Hin as [->|[->|[->|[->|[]]]]]; done.
Defined.

Lemma client_never_sends_empty_witness :
  ∃ sels,
    sp_picks {| sp_userId := Js.Num 1; sp_leagueId := Js.Str "1";
                sp_eventId := Js.Str "e1";
                sp_picks := PicksArray [ Some {| fightId := Js.Str "x1";
                                                 fighterId := Js.Str "f3" |} ] |}
    = PicksArray (Some <$> sels) ∧ sels ≠ [].
Proof.
  destruct (client_never_sends_empty (Some (Js.Num 1)) (Some "1") (Some "e1")
              [ {| data_fight_id := Some "x1"; radio_value := "f3" |} ]
              {| sp_userId := Js.Num 1; sp_leagueId := Js.Str "1";
                 sp_eventId := Js.Str "e1";
                 sp_picks := PicksArray [ Some {| fightId := Js.Str "x1";
                                                  fighterId := Js.Str "f3" |} ] |}
              eq_refl)
    as (_ & _ & _ & sels & Hsels & Hne & _).
  exists sels. by split.
Defined.

Lemma references_stay_resolved_witness :
  references_resolved (run pick_league_key demo_requests demo_db).
Proof.
  apply (references_stay_resolved pick_league_key demo_requests demo_db
           pick_league_key_enforced demo_db_references).
Defined.


Lemma new_league_leaderboard_witness :
  get_leaderboard String.le "2"
    (create_league accept_all (Js.Str "Cage") (Js.Num 3) Js.Undefined
       Js.Undefined "K3J9X0Q2ZA" demo_db).2
  = Success [ {| lb_UserID := "3"; lb_Username := "carl";
                 lb_Email := "carl@example.org"; lb_TotalPoints := 0 |} ].
Proof.
  refine (new_league_leaderboard accept_all String.le _ _ _ _ _ demo_db _ _
            {| u_UserID := "3"; u_Username := "carl";
               u_Email := "carl@example.org"; u_PasswordHash := "$2b$10$carl" |}
            demo_create_league demo_db_ledger_inv _ _ _ _).
  - apply (bool_decide_unpack (NoDup (u_UserID <$> users demo_db))).
    by vm_compute.
  - right. right. left.
  - by vm_compute.
  - by vm_compute.
Defined.

